(** * go2proto: the transformation engine, embedded and verified

    A shallow embedding of the packages [ct], [parser] (declarations, the
    constant-group scan and the comment directives), [transformer] and
    [generator] of go2proto and of the files [main] writes, followed by the
    properties of the engine.

    Conventions of the embedding.
    - A Go [string] is a byte string ([String.string]), in UTF-8 where it
      holds text.  White space ([strings.TrimSpace], the scanning of [fmt])
      is modelled in full, on the UTF-8 encodings of the white space runes.
      The case of letters ([unicode.IsUpper], [unicode.IsLower],
      [unicode.ToLower], [strings.ToUpper], [ast.IsExported]) is modelled on
      bytes and agrees with the code on ASCII text, where a rune is a byte;
      bytes from 0x80 up are carried through unchanged and count as no
      upper-case letter.  A statement that would not hold of the code on
      other text says that its strings are ASCII.
    - A Go [int] is 64 bits wide, as on the platforms the Go tools run on;
      [int] and [int64] are [Z], and additions wrap at 64 bits ([wrap64]).
    - A slice is a [list]; [nil] and the empty slice are identified.
    - A map is a [gmap]; [nil] and the empty map are identified.  A map used
      as a set ([map[string]bool]) is read with [flag].
    - [for k, v := range m] visits the entries in an order Go leaves open;
      the functional model uses the canonical order of [map_fold], the
      relational model ([Module runs]) any order. *)

From Stdlib Require Import ZArith String Ascii List DecimalString.
From stdpp Require Import base option gmap strings list fin_maps sorting.

Open Scope Z_scope.

Set Warnings "-clear-no-such-hyp".

(** ** Go built-ins *)

Definition wrap64 (z : Z) : Z := (z + 2 ^ 63) mod 2 ^ 64 - 2 ^ 63.

(** [m[k]] on a [map[string]bool]: the zero value when the key is absent. *)
Definition flag (m : gmap string bool) (k : string) : bool := default false (m !! k).

(** [m[k]] on a [map[string]string]. *)
Definition at_key (m : gmap string string) (k : string) : string := default "" (m !! k).

Definition quote : ascii := ascii_of_nat 34.
Definition newline : ascii := ascii_of_nat 10.

(** ** Package unicode (on bytes) *)
Module gounicode.

Definition code (c : ascii) : N := N_of_ascii c.

Definition between (lo hi : N) (c : ascii) : bool :=
  ((lo <=? code c) && (code c <=? hi))%N.

(** [unicode.IsUpper] below 0x80; [ToLower] and [ToUpper] likewise. *)
Definition IsUpper (c : ascii) : bool := between 65 90 c.

(** [unicode.IsLower] on the rune whose code point is the byte: the
    Latin-1 table (a-z, U+00B5, U+00DF-U+00F6, U+00F8-U+00FF). *)
Definition IsLower (c : ascii) : bool :=
  between 97 122 c || between 181 181 c || between 223 246 c || between 248 255 c.

Definition ToLower (c : ascii) : ascii :=
  if IsUpper c then ascii_of_N (code c + 32) else c.

Definition ToUpper (c : ascii) : ascii :=
  if between 97 122 c then ascii_of_N (code c - 32) else c.

(** A string from its bytes. *)
Definition bytes (codes : list nat) : string :=
  fold_right (fun n s => String (ascii_of_nat n) s) EmptyString codes.

(** The runes of [unicode.White_Space], which is also the table [space] of
    package [fmt], in UTF-8: U+0009-U+000D, U+0020, U+0085, U+00A0, U+1680,
    U+2000-U+200A, U+2028, U+2029, U+202F, U+205F and U+3000.  Go decodes
    none but these byte sequences to a white space rune: an overlong or
    truncated encoding decodes to U+FFFD. *)
Definition space_runes : list string :=
  ((fun n => bytes [n]) <$> [9; 10; 11; 12; 13; 32]%nat)
  ++ [bytes [194; 133]%nat; bytes [194; 160]%nat; bytes [225; 154; 128]%nat]
  ++ ((fun n => bytes [226; 128; n]%nat) <$> seq 128 11)
  ++ [bytes [226; 128; 168]%nat; bytes [226; 128; 169]%nat; bytes [226; 128; 175]%nat;
      bytes [226; 129; 159]%nat; bytes [227; 128; 128]%nat].

End gounicode.

(** ** Package strings *)
Module gostrings.

Fixpoint strip_prefix (p s : string) : option string :=
  match p, s with
  | EmptyString, _ => Some s
  | String a p', String b s' => if Ascii.eqb a b then strip_prefix p' s' else None
  | String _ _, EmptyString => None
  end.

Definition HasPrefix (s p : string) : bool :=
  match strip_prefix p s with Some _ => true | None => false end.

Definition TrimPrefix (s p : string) : string := default s (strip_prefix p s).

(** [strings.Split(s, sep)] for a separator of one byte. *)
Fixpoint Split (s : string) (sep : ascii) : list string :=
  match s with
  | EmptyString => [EmptyString]
  | String c r =>
      if Ascii.eqb c sep then EmptyString :: Split r sep
      else match Split r sep with
           | p :: ps => String c p :: ps
           | [] => [String c EmptyString]
           end
  end.

Fixpoint Join (elems : list string) (sep : string) : string :=
  match elems with
  | [] => ""
  | [e] => e
  | e :: es => e +:+ sep +:+ Join es sep
  end.

Fixpoint map_bytes (f : ascii -> ascii) (s : string) : string :=
  match s with
  | EmptyString => EmptyString
  | String c r => String (f c) (map_bytes f r)
  end.

(** [strings.ReplaceAll(s, old, new)] for [old] and [new] of one byte. *)
Definition ReplaceAll (s : string) (old new : ascii) : string :=
  map_bytes (fun c => if Ascii.eqb c old then new else c) s.

(** [strings.ToUpper], as it is on ASCII strings. *)
Definition ToUpper (s : string) : string := map_bytes gounicode.ToUpper s.

Fixpoint TrimLeftFunc (f : ascii -> bool) (s : string) : string :=
  match s with
  | EmptyString => EmptyString
  | String c r => if f c then TrimLeftFunc f r else s
  end.

Fixpoint TrimRightFunc (f : ascii -> bool) (s : string) : string :=
  match s with
  | EmptyString => EmptyString
  | String c r =>
      match TrimRightFunc f r with
      | EmptyString => if f c then EmptyString else String c EmptyString
      | r' => String c r'
      end
  end.

(** [strings.Trim(s, cutset)] for a cutset of one byte. *)
Definition Trim (s : string) (cut : ascii) : string :=
  TrimRightFunc (Ascii.eqb cut) (TrimLeftFunc (Ascii.eqb cut) s).

(** The rest of [s] after the first of [runes] that [s] starts with. *)
Fixpoint strip_any (runes : list string) (s : string) : option string :=
  match runes with
  | [] => None
  | r :: runes' =>
      match strip_prefix r s with
      | Some rest => Some rest
      | None => strip_any runes' s
      end
  end.

(** [strings.TrimLeftFunc(s, f)] for [f] true of the [runes]; [n] bounds the
    number of runes taken off. *)
Fixpoint trim_left (n : nat) (runes : list string) (s : string) : string :=
  match n with
  | O => s
  | S n' =>
      match strip_any runes s with
      | Some rest => trim_left n' runes rest
      | None => s
      end
  end.

Definition TrimLeftSpace (s : string) : string :=
  trim_left (String.length s) gounicode.space_runes s.

(** From the right, [utf8.DecodeLastRuneInString] finds a white space rune
    exactly when the string ends with its encoding. *)
Definition TrimRightSpace (s : string) : string :=
  String.rev (trim_left (String.length s) (String.rev <$> gounicode.space_runes)
                        (String.rev s)).

(** [strings.TrimSpace]: [TrimFunc(s, unicode.IsSpace)], of which the two
    loops over ASCII bytes are a fast path. *)
Definition TrimSpace (s : string) : string := TrimRightSpace (TrimLeftSpace s).

(** [strings.SplitN(s, sep, 2)] for a separator of one byte: the cut at the
    first separator. *)
Fixpoint SplitN2 (s : string) (sep : ascii) : list string :=
  match s with
  | EmptyString => [EmptyString]
  | String c r =>
      if Ascii.eqb c sep then [EmptyString; r]
      else match SplitN2 r sep with
           | p :: ps => String c p :: ps
           | [] => [String c EmptyString]
           end
  end.

(** The order of Go's [<] on strings: bytewise lexicographic. *)
Definition string_le (a b : string) : Prop := String.leb a b = true.

#[global] Instance string_le_dec : RelDecision string_le.
Proof. intros a b. unfold string_le. apply _. Defined.

(** [sort.Strings]: the order is total and antisymmetric, so the result is
    the one sorted arrangement of the slice. *)
Definition sort_Strings (xs : list string) : list string := merge_sort string_le xs.

End gostrings.

(** ** Package fmt: [Sscanf(s, "%d", &n)] with [n] zero before the call *)
Module gofmt.
Import gostrings.

(** [ss.SkipSpace] of a [Sscanf]: the white space runes are passed over,
    but a newline is an error there (also after a carriage return); [n]
    bounds the number of runes. *)
Fixpoint SkipSpace_from (n : nat) (s : string) : option string :=
  match n with
  | O => Some s
  | S n' =>
      if HasPrefix s (String newline EmptyString) then None
      else match strip_any gounicode.space_runes s with
           | Some rest => SkipSpace_from n' rest
           | None => Some s
           end
  end.

Definition SkipSpace (s : string) : option string := SkipSpace_from (String.length s) s.

Definition isDigit (c : ascii) : bool := gounicode.between 48 57 c.

(** [ss.scanNumber] with the digit set of the verb [d], "0123456789". *)
Fixpoint scanNumber (s : string) : string :=
  match s with
  | EmptyString => EmptyString
  | String c r => if isDigit c then String c (scanNumber r) else EmptyString
  end.

(** The digits of [strconv.ParseInt(tok, 10, 64)], sign apart. *)
Fixpoint digits_value (acc : Z) (tok : string) : option Z :=
  match tok with
  | EmptyString => Some acc
  | String c r =>
      if isDigit c
      then digits_value (10 * acc + (Z.of_N (gounicode.code c) - 48)) r
      else None
  end.

Definition ParseInt (neg : bool) (digits : string) : option Z :=
  match digits with
  | EmptyString => None
  | _ =>
      match digits_value 0 digits with
      | Some n =>
          let v := if neg then - n else n in
          if (- 2 ^ 63 <=? v) && (v <? 2 ^ 63) then Some v else None
      | None => None
      end
  end.

(** The value left in the [int] after the call: every error ([Sscanf]'s
    result is dropped by the caller) leaves the zero it held. *)
Definition Sscanf_d (s : string) : Z :=
  match SkipSpace s with
  | None => 0
  | Some s1 =>
      let '(neg, s2) :=
        match s1 with
        | String c r =>
            if Ascii.eqb c "-" then (true, r)
            else if Ascii.eqb c "+" then (false, r)
            else (false, s1)
        | EmptyString => (false, s1)
        end in
      default 0 (ParseInt neg (scanNumber s2))
  end.

End gofmt.

(** ** Package ct *)
Module ct.

(** [Empty] is a [func() A]; without state it is a value. *)
Record Monoid (A : Type) : Type := Build_Monoid { Empty : A; Append : A -> A -> A }.
Arguments Build_Monoid {A} _ _.
Arguments Empty {A} _.
Arguments Append {A} _ _ _.

Definition Map {A B : Type} (xs : list A) (f : A -> B) : list B := map f xs.

Fixpoint Filter {A : Type} (xs : list A) (pred : A -> bool) : list A :=
  match xs with
  | [] => []
  | x :: r => if pred x then x :: Filter r pred else Filter r pred
  end.

Definition Concat {A : Type} (m : Monoid A) (xs : list A) : A :=
  foldl (fun result x => Append m result x) (Empty m) xs.

Definition FoldMap {A B : Type} (xs : list A) (m : Monoid B) (f : A -> B) : B :=
  foldl (fun result x => Append m result (f x)) (Empty m) xs.

(** The loop of [Unique], from a given [seen] map. *)
Fixpoint Unique_loop `{Countable A} (seen : gmap A bool) (xs : list A) : list A :=
  match xs with
  | [] => []
  | x :: r =>
      if default false (seen !! x) then Unique_loop seen r
      else x :: Unique_loop (<[x := true]> seen) r
  end.

Definition Unique `{Countable A} (xs : list A) : list A := Unique_loop ∅ xs.

(** [zero] is [var zero A]. *)
Fixpoint Coalesce `{EqDecision A} (zero : A) (values : list A) : A :=
  match values with
  | [] => zero
  | v :: r => if decide (v = zero) then Coalesce zero r else v
  end.

(** The index of [FoldMapIndexed] is an [int]; it stays below [len(xs)]. *)
Definition FoldMapIndexed {A B : Type} (xs : list A) (m : Monoid B) (f : Z -> A -> B) : B :=
  (foldl (fun '(i, result) x => (S i, Append m result (f (Z.of_nat i) x)))
         (O, Empty m) xs).2.

Definition StringMonoid : Monoid string := Build_Monoid "" (fun a b => a +:+ b).

Definition SliceMonoid {A : Type} : Monoid (list A) := Build_Monoid [] (fun a b => a ++ b).

End ct.

(** ** Package parser: the type graph and the constant-group scan *)
Module parser.

Inductive GoType : Type :=
  | BasicType (Name : string)
  | PointerType (Elem : GoType)
  | SliceType (Elem : GoType)
  | ArrayType (Elem : GoType) (Len : Z)
  | MapType (Key Value : GoType)
  | NamedType (Package Name : string)
  | InterfaceType (Methods : list GoMethod)
  | StructType (Fields : list GoField)
  | ChanType (Elem : GoType) (Dir : Z)
  | FuncType (Params Results : list GoParam)
with GoMethod : Type :=
  | Build_GoMethod (Name : string) (Params Results : list GoParam)
with GoParam : Type :=
  | Build_GoParam (Name : string) (Type_ : GoType)
with GoField : Type :=
  | Build_GoField (Name : string) (Type_ : GoType) (Tag : string)
      (Embedded : bool) (Comments : list string) (Exported : bool).

Definition GoMethod_Name (m : GoMethod) : string := let 'Build_GoMethod n _ _ := m in n.
Definition GoMethod_Params (m : GoMethod) : list GoParam := let 'Build_GoMethod _ p _ := m in p.
Definition GoMethod_Results (m : GoMethod) : list GoParam := let 'Build_GoMethod _ _ r := m in r.

Definition GoParam_Name (p : GoParam) : string := let 'Build_GoParam n _ := p in n.
Definition GoParam_Type (p : GoParam) : GoType := let 'Build_GoParam _ t := p in t.

Definition GoField_Name (f : GoField) : string := let 'Build_GoField n _ _ _ _ _ := f in n.
Definition GoField_Type (f : GoField) : GoType := let 'Build_GoField _ t _ _ _ _ := f in t.
Definition GoField_Tag (f : GoField) : string := let 'Build_GoField _ _ t _ _ _ := f in t.
Definition GoField_Embedded (f : GoField) : bool := let 'Build_GoField _ _ _ e _ _ := f in e.
Definition GoField_Comments (f : GoField) : list string := let 'Build_GoField _ _ _ _ c _ := f in c.
Definition GoField_Exported (f : GoField) : bool := let 'Build_GoField _ _ _ _ _ x := f in x.

(** [NamedType.String]. *)
Definition NamedType_String (Package Name : string) : string :=
  if decide (Package = "") then Name else Package +:+ "." +:+ Name.

Record GoStruct : Type := Build_GoStruct {
  GoStruct_Name : string;
  GoStruct_Fields : list GoField;
  GoStruct_Comments : list string;
  GoStruct_Tags : gmap string string;
  GoStruct_TypeParams : list string }.

Record GoInterface : Type := Build_GoInterface {
  GoInterface_Name : string;
  GoInterface_Methods : list GoMethod;
  GoInterface_Comments : list string;
  GoInterface_Tags : gmap string string }.

Record GoAlias : Type := Build_GoAlias {
  GoAlias_Name : string;
  GoAlias_Underlying : GoType;
  GoAlias_Comments : list string;
  GoAlias_Tags : gmap string string }.

Record GoConstValue : Type := Build_GoConstValue {
  GoConstValue_Name : string;
  GoConstValue_Value : Z;
  GoConstValue_Comments : list string }.

Record GoConstGroup : Type := Build_GoConstGroup {
  GoConstGroup_TypeName : string;
  GoConstGroup_Values : list GoConstValue }.

Record GoPackage : Type := Build_GoPackage {
  GoPackage_Path : string;
  GoPackage_Name : string;
  GoPackage_Structs : list GoStruct;
  GoPackage_Interfaces : list GoInterface;
  GoPackage_Aliases : list GoAlias;
  GoPackage_Consts : list GoConstGroup }.

(** *** What [extractConsts] reads of a [go/ast] constant declaration *)

(** [vs.Type]: an identifier, or any other type expression. *)
Inductive Expr : Type :=
  | Ident (Name : string)
  | OtherExpr.

(** [ValueSpec_Doc] holds [extractComments(vs.Doc)]. *)
Record ValueSpec : Type := Build_ValueSpec {
  ValueSpec_Names : list string;
  ValueSpec_Type : option Expr;
  ValueSpec_Doc : list string }.

Inductive Spec : Type :=
  | IsValueSpec (vs : ValueSpec)
  | OtherSpec.

(** [ast.IsExported]: the first rune is upper-case.  The model looks at the
    first byte, which is the first rune of a name that starts with an ASCII
    character. *)
Definition IsExported (name : string) : bool :=
  match name with
  | String c _ => gounicode.IsUpper c
  | EmptyString => false
  end.

(** The loop over [vs.Names]: the counter and the values of the group. *)
Definition extractNames (doc : list string) (names : list string)
    (iotaValue : Z) (values : list GoConstValue) : Z * list GoConstValue :=
  foldl (fun '(iotaValue, values) name =>
           if negb (IsExported name) then (wrap64 (iotaValue + 1), values)
           else (wrap64 (iotaValue + 1),
                 values ++ [Build_GoConstValue name iotaValue doc]))
        (iotaValue, values) names.

(** The state of the loop over [gd.Specs]. *)
Record ConstScan : Type := Build_ConstScan {
  currentType : string;
  iotaValue : Z;
  groups : gmap string GoConstGroup }.

Definition extractSpec (st : ConstScan) (spec : Spec) : ConstScan :=
  match spec with
  | OtherSpec => st
  | IsValueSpec vs =>
      let st1 :=
        match ValueSpec_Type vs with
        | Some (Ident name) =>
            if decide (currentType st = name) then st
            else Build_ConstScan name 0 (groups st)
        | _ => st
        end in
      if decide (currentType st1 = "") then st1
      else
        let group :=
          match groups st1 !! currentType st1 with
          | Some g => g
          | None => Build_GoConstGroup (currentType st1) []
          end in
        let '(iota', values') :=
          extractNames (ValueSpec_Doc vs) (ValueSpec_Names vs)
                       (iotaValue st1) (GoConstGroup_Values group) in
        Build_ConstScan (currentType st1) iota'
          (<[currentType st1 := Build_GoConstGroup (GoConstGroup_TypeName group) values']>
             (groups st1))
  end.

(** [extractConsts(gd, groups, pkg)]: the groups map after the call. *)
Definition extractConsts (specs : list Spec) (groups : gmap string GoConstGroup)
    : gmap string GoConstGroup :=
  parser.groups (foldl extractSpec (Build_ConstScan "" 0 groups) specs).

(** The end of [extractPackage]: [for _, cg := range constGroups] appends
    the groups that have a value, in whatever order the map is visited. *)
Definition has_values (cg : GoConstGroup) : bool :=
  match GoConstGroup_Values cg with [] => false | _ => true end.


(** *** Directives and names *)

Definition extractTags (comments : list string) : gmap string string :=
  foldl (fun tags line =>
           let line := gostrings.TrimSpace line in
           match gostrings.strip_prefix "+" line with
           | Some line =>
               let parts := gostrings.SplitN2 line "=" in
               let key := gostrings.TrimSpace (default "" (parts !! 0%nat)) in
               let value :=
                 match parts !! 1%nat with
                 | Some v => gostrings.TrimSpace v
                 | None => "true"
                 end in
               <[key := value]> tags
           | None => tags
           end)
        (∅ : gmap string string) comments.

Definition isBasicType (name : string) : bool :=
  bool_decide (name ∈ ["bool"; "string"; "int"; "int8"; "int16"; "int32"; "int64";
                       "uint"; "uint8"; "uint16"; "uint32"; "uint64";
                       "float32"; "float64"; "complex64"; "complex128";
                       "byte"; "rune"; "uintptr"; "error"; "any"]).

Fixpoint typeNameFromGoType (t : GoType) : string :=
  match t with
  | NamedType _ Name => Name
  | PointerType Elem => typeNameFromGoType Elem
  | _ => ""
  end.

End parser.

(** ** Package transformer *)
Module transformer.
Import parser.

Record ProtoField : Type := Build_ProtoField {
  ProtoField_Name : string;
  ProtoField_Type : string;
  ProtoField_Number : Z;
  ProtoField_Repeated : bool;
  ProtoField_Optional : bool;
  ProtoField_MapKey : string;
  ProtoField_MapValue : string;
  ProtoField_Comments : list string }.

Record ProtoEnumValue : Type := Build_ProtoEnumValue {
  ProtoEnumValue_Name : string;
  ProtoEnumValue_Number : Z;
  ProtoEnumValue_Comments : list string }.

Record ProtoEnum : Type := Build_ProtoEnum {
  ProtoEnum_Name : string;
  ProtoEnum_Values : list ProtoEnumValue;
  ProtoEnum_Comments : list string }.

#[warnings="-register-all"]
Inductive ProtoMessage : Type :=
  | Build_ProtoMessage (Name : string) (Fields : list ProtoField)
      (Nested : list ProtoMessage) (Enums : list ProtoEnum) (Comments : list string).

Definition ProtoMessage_Name (m : ProtoMessage) : string :=
  let 'Build_ProtoMessage n _ _ _ _ := m in n.
Definition ProtoMessage_Fields (m : ProtoMessage) : list ProtoField :=
  let 'Build_ProtoMessage _ f _ _ _ := m in f.
Definition ProtoMessage_Nested (m : ProtoMessage) : list ProtoMessage :=
  let 'Build_ProtoMessage _ _ n _ _ := m in n.
Definition ProtoMessage_Enums (m : ProtoMessage) : list ProtoEnum :=
  let 'Build_ProtoMessage _ _ _ e _ := m in e.
Definition ProtoMessage_Comments (m : ProtoMessage) : list string :=
  let 'Build_ProtoMessage _ _ _ _ c := m in c.

Record ProtoRPC : Type := Build_ProtoRPC {
  ProtoRPC_Name : string;
  ProtoRPC_InputType : string;
  ProtoRPC_OutputType : string;
  ProtoRPC_ClientStreaming : bool;
  ProtoRPC_ServerStreaming : bool;
  ProtoRPC_Comments : list string }.

Record ProtoService : Type := Build_ProtoService {
  ProtoService_Name : string;
  ProtoService_Methods : list ProtoRPC;
  ProtoService_Comments : list string }.

Record Proto : Type := Build_Proto {
  Proto_Syntax : string;
  Proto_Package : string;
  Proto_Options : gmap string string;
  Proto_Imports : list string;
  Proto_Enums : list ProtoEnum;
  Proto_Messages : list ProtoMessage;
  Proto_Services : list ProtoService }.

(** [for k, v := range src { opts[k] = v }]. *)
Definition copy_entries (src opts : gmap string string) : gmap string string :=
  map_fold (fun k v opts => <[k := v]> opts) opts src.

Definition ProtoMonoid : ct.Monoid Proto :=
  ct.Build_Monoid
    (Build_Proto "proto3" "" ∅ [] [] [] [])
    (fun a b =>
       let opts := copy_entries (Proto_Options b) (copy_entries (Proto_Options a) ∅) in
       Build_Proto
         (ct.Coalesce "" [Proto_Syntax a; Proto_Syntax b])
         (ct.Coalesce "" [Proto_Package a; Proto_Package b])
         opts
         (ct.Unique (Proto_Imports a ++ Proto_Imports b))
         (Proto_Enums a ++ Proto_Enums b)
         (Proto_Messages a ++ Proto_Messages b)
         (Proto_Services a ++ Proto_Services b)).

Record TypeMapping : Type := Build_TypeMapping {
  TypeMapping_Proto : string;
  TypeMapping_Import : string }.

Definition defaultTypeMappings : gmap string TypeMapping :=
  list_to_map [
    ("string", Build_TypeMapping "string" ""); ("bool", Build_TypeMapping "bool" "");
    ("int", Build_TypeMapping "int64" ""); ("int8", Build_TypeMapping "int32" "");
    ("int16", Build_TypeMapping "int32" "");
    ("int32", Build_TypeMapping "int32" ""); ("int64", Build_TypeMapping "int64" "");
    ("uint", Build_TypeMapping "uint64" ""); ("uint8", Build_TypeMapping "uint32" "");
    ("uint16", Build_TypeMapping "uint32" "");
    ("uint32", Build_TypeMapping "uint32" ""); ("uint64", Build_TypeMapping "uint64" "");
    ("float32", Build_TypeMapping "float" ""); ("float64", Build_TypeMapping "double" "");
    ("byte", Build_TypeMapping "uint32" ""); ("rune", Build_TypeMapping "int32" "");
    ("[]byte", Build_TypeMapping "bytes" "");
    ("time.Time",
      Build_TypeMapping "google.protobuf.Timestamp" "google/protobuf/timestamp.proto");
    ("time.Duration",
      Build_TypeMapping "google.protobuf.Duration" "google/protobuf/duration.proto");
    ("error", Build_TypeMapping "string" "");
    ("any", Build_TypeMapping "google.protobuf.Any" "google/protobuf/any.proto") ].

Record TransformOptions : Type := Build_TransformOptions {
  TransformOptions_PackageName : string;
  TransformOptions_GoPackage : string;
  TransformOptions_TypeMappings : gmap string TypeMapping;
  TransformOptions_IncludePrivate : bool;
  TransformOptions_ServiceSuffix : string }.

Definition DefaultOptions : TransformOptions :=
  Build_TransformOptions "" "" defaultTypeMappings false "Service".

Record Transformer : Type := Build_Transformer {
  opts : TransformOptions;
  knownTypes : gmap string bool }.

Definition NewTransformer (opts : TransformOptions) : Transformer :=
  Build_Transformer opts ∅.

(** *** Names *)

Definition toProtoPackage (goPath : string) : string :=
  let parts := gostrings.Split goPath "/" in
  let fix cut (ps : list string) : option (list string) :=
    match ps with
    | [] => None
    | p :: r =>
        if bool_decide (p = "github.com") || bool_decide (p = "gitlab.com")
           || bool_decide (p = "bitbucket.org")
        then Some r else cut r
    end in
  let parts := default parts (cut parts) in
  gostrings.ReplaceAll (gostrings.Join parts ".") "-" "_".

(** The loop of [toSnakeCase] from a position of [s]: [first] says that the
    index is 0, [rest] starts at the next byte.  The loop ranges over the
    runes of [s], which are its bytes when [s] is ASCII; the look-ahead
    [unicode.IsLower(rune(s[i+1]))] is on a byte in the code too. *)
Fixpoint toSnakeCase_loop (s : string) (first prevLower : bool) : string :=
  match s with
  | EmptyString => EmptyString
  | String r rest =>
      if gounicode.IsUpper r then
        let nextIsLower :=
          match rest with
          | String c _ => gounicode.IsLower c
          | EmptyString => false
          end in
        let low := String (gounicode.ToLower r) (toSnakeCase_loop rest false false) in
        if negb first && (prevLower || (nextIsLower && negb prevLower && negb first))
        then String "_" low else low
      else String r (toSnakeCase_loop rest false true)
  end.

Definition toSnakeCase (s : string) : string := toSnakeCase_loop s true false.

Definition toEnumValueName (typeName valueName : string) : string :=
  let upperTypeName := gostrings.ToUpper (toSnakeCase typeName) in
  let upperValueName := gostrings.ToUpper (toSnakeCase valueName) in
  if gostrings.HasPrefix upperValueName upperTypeName then upperValueName
  else upperTypeName +:+ "_" +:+ upperValueName.

Definition filterNonTagComments (comments : list string) : list string :=
  ct.Filter comments (fun c => negb (gostrings.HasPrefix (gostrings.TrimSpace c) "+")).

Definition isBasicProtoType (t : string) : bool :=
  bool_decide (t ∈ ["string"; "bool"; "bytes"; "int32"; "int64"; "uint32"; "uint64";
                    "sint32"; "sint64"; "fixed32"; "fixed64"; "sfixed32"; "sfixed64";
                    "float"; "double"]).

(** *** The wire-tag annotation *)

(** The longest run of bytes other than the quote, and what follows it. *)
Fixpoint span_unquoted (s : string) : string * string :=
  match s with
  | EmptyString => (EmptyString, EmptyString)
  | String c r =>
      if Ascii.eqb c quote then (EmptyString, s)
      else let '(body, after) := span_unquoted r in (String c body, after)
  end.

(** A match of the pattern [protobuf:Q([^Q]+)Q], with Q the double quote,
    that starts at the first byte of [s]: its group.  The group is greedy
    and cannot contain Q, so it is the whole run up to the next Q. *)
Definition match_here (s : string) : option string :=
  match gostrings.strip_prefix ("protobuf:" +:+ String quote EmptyString) s with
  | None => None
  | Some r =>
      match span_unquoted r with
      | (String c body, String _ _) => Some (String c body)
      | _ => None
      end
  end.

(** [re.FindStringSubmatch(s)]: the group of the leftmost match ([None]
    for fewer than two submatches). *)
Fixpoint FindStringSubmatch (s : string) : option string :=
  match match_here s with
  | Some body => Some body
  | None =>
      match s with
      | EmptyString => None
      | String _ r => FindStringSubmatch r
      end
  end.

Definition parseProtobufTag (tag : string) : option ProtoField :=
  if decide (tag = "") then None
  else
    let tag := gostrings.Trim tag "`" in
    match FindStringSubmatch tag with
    | None => None
    | Some body =>
        let parts := gostrings.Split body "," in
        if (length parts <? 3)%nat then None
        else
          let field := Build_ProtoField "" "" (gofmt.Sscanf_d (default "" (parts !! 1%nat)))
                         false false "" "" [] in
          let field :=
            foldl (fun field part =>
                     let field :=
                       if gostrings.HasPrefix part "name="
                       then Build_ProtoField (gostrings.TrimPrefix part "name=")
                              (ProtoField_Type field) (ProtoField_Number field)
                              (ProtoField_Repeated field) (ProtoField_Optional field)
                              (ProtoField_MapKey field) (ProtoField_MapValue field)
                              (ProtoField_Comments field)
                       else field in
                     let field :=
                       if decide (part = "rep")
                       then Build_ProtoField (ProtoField_Name field)
                              (ProtoField_Type field) (ProtoField_Number field)
                              true (ProtoField_Optional field)
                              (ProtoField_MapKey field) (ProtoField_MapValue field)
                              (ProtoField_Comments field)
                       else field in
                     if decide (part = "opt")
                     then Build_ProtoField (ProtoField_Name field)
                            (ProtoField_Type field) (ProtoField_Number field)
                            (ProtoField_Repeated field) true
                            (ProtoField_MapKey field) (ProtoField_MapValue field)
                            (ProtoField_Comments field)
                     else field)
                  field (drop 2 parts) in
          let type :=
            let p0 := default "" (parts !! 0%nat) in
            if decide (p0 = "bytes") then "bytes"
            else if decide (p0 = "varint") then "int64"
            else if decide (p0 = "fixed64") then "fixed64"
            else if decide (p0 = "fixed32") then "fixed32"
            else ProtoField_Type field in
          Some (Build_ProtoField (ProtoField_Name field) type (ProtoField_Number field)
                  (ProtoField_Repeated field) (ProtoField_Optional field)
                  (ProtoField_MapKey field) (ProtoField_MapValue field)
                  (ProtoField_Comments field))
    end.

(** *** The type mapping resolver *)

(** The named results of [transformType]. *)
Record Resolved : Type := Build_Resolved {
  protoType : string;
  imports : list string;
  repeated : bool;
  isMap : bool;
  mapKey : string;
  mapValue : string }.

Definition resolved (protoType : string) (imports : list string) : Resolved :=
  Build_Resolved protoType imports false false "" "".

Definition resolveMapping (mapping : TypeMapping) : Resolved :=
  resolved (TypeMapping_Proto mapping)
           (if decide (TypeMapping_Import mapping = "") then []
            else [TypeMapping_Import mapping]).

Definition anyType : Resolved :=
  resolved "google.protobuf.Any" ["google/protobuf/any.proto"].

Fixpoint transformType (t : Transformer) (goType : GoType)
    (enumLookup typeParamsLookup : gmap string bool) : Resolved :=
  match goType with
  | BasicType Name =>
      match TransformOptions_TypeMappings (opts t) !! Name with
      | Some mapping => resolveMapping mapping
      | None => resolved Name []
      end
  | PointerType Elem => transformType t Elem enumLookup typeParamsLookup
  | SliceType Elem =>
      let other :=
        let inner := transformType t Elem enumLookup typeParamsLookup in
        Build_Resolved (protoType inner) (imports inner) true false "" "" in
      match Elem with
      | BasicType Name => if decide (Name = "byte") then resolved "bytes" [] else other
      | _ => other
      end
  | ArrayType Elem _ =>
      let inner := transformType t Elem enumLookup typeParamsLookup in
      Build_Resolved (protoType inner) (imports inner) true false "" ""
  | MapType Key Value =>
      let key := transformType t Key enumLookup typeParamsLookup in
      let value := transformType t Value enumLookup typeParamsLookup in
      Build_Resolved ("map<" +:+ protoType key +:+ ", " +:+ protoType value +:+ ">")
        (imports key ++ imports value) false true (protoType key) (protoType value)
  | NamedType Package Name =>
      let fullName := NamedType_String Package Name in
      if flag enumLookup Name then resolved Name []
      else
        match TransformOptions_TypeMappings (opts t) !! fullName with
        | Some mapping => resolveMapping mapping
        | None =>
            if bool_decide (Package = "time") && bool_decide (Name = "Time")
            then resolved "google.protobuf.Timestamp" ["google/protobuf/timestamp.proto"]
            else if bool_decide (Package = "time") && bool_decide (Name = "Duration")
            then resolved "google.protobuf.Duration" ["google/protobuf/duration.proto"]
            else if flag typeParamsLookup Name then anyType
            else resolved Name []
        end
  | InterfaceType _ => anyType
  | _ => anyType
  end.

(** *** Structs *)

Definition isPointerType (goType : GoType) : bool :=
  match goType with PointerType _ => true | _ => false end.

Definition transformField (t : Transformer) (f : GoField) (num : Z)
    (enumLookup typeParamsLookup : gmap string bool) : ProtoField * list string :=
  match parseProtobufTag (GoField_Tag f) with
  | Some tag => (tag, [])
  | None =>
      let r := transformType t (GoField_Type f) enumLookup typeParamsLookup in
      let optional := isPointerType (GoField_Type f) && isBasicProtoType (protoType r) in
      (Build_ProtoField (toSnakeCase (GoField_Name f)) (protoType r) num
         (repeated r) optional (mapKey r) (mapValue r)
         (filterNonTagComments (GoField_Comments f)),
       imports r)
  end.

(** The variables the field loop of [transformStruct] updates. *)
Record FieldScan : Type := Build_FieldScan {
  msgFields : list ProtoField;
  scanImports : list string;
  fieldNum : Z }.

Definition transformStruct_field (t : Transformer)
    (enumLookup typeParamsLookup : gmap string bool)
    (st : FieldScan) (f : GoField) : FieldScan :=
  if negb (GoField_Exported f) && negb (TransformOptions_IncludePrivate (opts t)) then st
  else if GoField_Embedded f then st
  else
    let '(protoField, fieldImports) :=
      transformField t f (fieldNum st) enumLookup typeParamsLookup in
    if decide (ProtoField_Name protoField = "") then st
    else Build_FieldScan (msgFields st ++ [protoField])
           (scanImports st ++ fieldImports) (wrap64 (fieldNum st + 1)).

(** [len(s.Name) > 0 && unicode.IsLower(rune(s.Name[0]))]. *)
Definition startsLower (name : string) : bool :=
  match name with
  | String c _ => gounicode.IsLower c
  | EmptyString => false
  end.

Definition transformStruct (t : Transformer) (s : GoStruct)
    (enumLookup : gmap string bool) : Proto :=
  if decide (at_key (GoStruct_Tags s) "go2proto" = "false") then ct.Empty ProtoMonoid
  else if startsLower (GoStruct_Name s) then ct.Empty ProtoMonoid
  else
    let typeParamsLookup :=
      foldl (fun lookup tp => <[tp := true]> lookup) (∅ : gmap string bool)
            (GoStruct_TypeParams s) in
    let st := foldl (transformStruct_field t enumLookup typeParamsLookup)
                    (Build_FieldScan [] [] 1) (GoStruct_Fields s) in
    let msg := Build_ProtoMessage (GoStruct_Name s) (msgFields st) [] []
                 (filterNonTagComments (GoStruct_Comments s)) in
    Build_Proto "" "" ∅ (ct.Unique (scanImports st)) [] [msg] [].

(** *** Enums *)

Definition buildEnumLookup (t : Transformer) (pkg : GoPackage) : gmap string bool :=
  let lookup :=
    foldl (fun lookup cg =>
             if (2 <=? length (GoConstGroup_Values cg))%nat
             then <[GoConstGroup_TypeName cg := true]> lookup else lookup)
          (∅ : gmap string bool) (GoPackage_Consts pkg) in
  foldl (fun lookup alias =>
           if decide (at_key (GoAlias_Tags alias) "go2proto:enum" = "true")
           then <[GoAlias_Name alias := true]> lookup else lookup)
        lookup (GoPackage_Aliases pkg).

(** The enum built from one constant group in [transformEnums]. *)
Definition enumOf (cg : GoConstGroup) : ProtoEnum :=
  Build_ProtoEnum (GoConstGroup_TypeName cg)
    (foldl (fun values cv =>
              values ++ [Build_ProtoEnumValue
                           (toEnumValueName (GoConstGroup_TypeName cg) (GoConstValue_Name cv))
                           (GoConstValue_Value cv) (GoConstValue_Comments cv)])
           [] (GoConstGroup_Values cg))
    [].

Definition transformEnums (t : Transformer) (pkg : GoPackage)
    (enumLookup : gmap string bool) : Proto :=
  let enums :=
    foldl (fun enums cg =>
             if negb (flag enumLookup (GoConstGroup_TypeName cg)) then enums
             else enums ++ [enumOf cg])
          [] (GoPackage_Consts pkg) in
  Build_Proto "" "" ∅ [] enums [] [].

(** *** Services *)

(** [fmt.Sprintf("%d", n)]. *)
Definition itoa (n : Z) : string := NilZero.string_of_int (Z.to_int n).

(** The body of the loop of [generateRequestMessage] and of
    [generateResponseMessage], which differ in the fallback name only
    ([arg] or [result]): the field appended at index [i]. *)
Definition envelopeField (t : Transformer) (fallback : string) (i : nat) (p : GoParam)
    : ProtoField :=
  let r := transformType t (GoParam_Type p) ∅ ∅ in
  let name :=
    if decide (GoParam_Name p = "") then fallback +:+ itoa (wrap64 (Z.of_nat i + 1))
    else GoParam_Name p in
  Build_ProtoField (toSnakeCase name) (protoType r) (wrap64 (Z.of_nat i + 1)) (repeated r)
    false (if isMap r then mapKey r else "") (if isMap r then mapValue r else "") [].

Definition generateRequestMessage (t : Transformer) (methodName : string)
    (params : list GoParam) : ProtoMessage :=
  Build_ProtoMessage (methodName +:+ "Request") (imap (envelopeField t "arg") params)
    [] [] [].

Definition generateResponseMessage (t : Transformer) (methodName : string)
    (results : list GoParam) : ProtoMessage :=
  Build_ProtoMessage (methodName +:+ "Response") (imap (envelopeField t "result") results)
    [] [] [].

Definition notContext (p : GoParam) : bool :=
  match GoParam_Type p with
  | NamedType Package Name =>
      negb (bool_decide (Package = "context") && bool_decide (Name = "Context"))
  | _ => true
  end.

Definition notError (p : GoParam) : bool :=
  match GoParam_Type p with
  | BasicType Name => negb (bool_decide (Name = "error"))
  | _ => true
  end.

(** What [transformMethod] returns. *)
Record MethodResult : Type := Build_MethodResult {
  rpc : ProtoRPC;
  reqMsg : option ProtoMessage;
  respMsg : option ProtoMessage;
  methodImports : list string }.

Definition transformMethod (t : Transformer) (m : GoMethod) (serviceName : string)
    : MethodResult :=
  let params := ct.Filter (GoMethod_Params m) notContext in
  let '(inputType, reqMsg, imports) :=
    match params with
    | [p] =>
        match GoParam_Type p with
        | NamedType _ Name => (Name, None, [])
        | _ =>
            let reqMsg := generateRequestMessage t (GoMethod_Name m) params in
            (ProtoMessage_Name reqMsg, Some reqMsg, [])
        end
    | _ :: _ :: _ =>
        let reqMsg := generateRequestMessage t (GoMethod_Name m) params in
        (ProtoMessage_Name reqMsg, Some reqMsg, [])
    | [] => ("google.protobuf.Empty", None, ["google/protobuf/empty.proto"])
    end in
  let results := ct.Filter (GoMethod_Results m) notError in
  let '(outputType, respMsg, imports) :=
    match results with
    | [r] =>
        let resultType :=
          match GoParam_Type r with
          | PointerType Elem => Elem
          | resultType => resultType
          end in
        match resultType with
        | NamedType _ Name => (Name, None, imports)
        | _ =>
            let respMsg := generateResponseMessage t (GoMethod_Name m) results in
            (ProtoMessage_Name respMsg, Some respMsg, imports)
        end
    | _ :: _ :: _ =>
        let respMsg := generateResponseMessage t (GoMethod_Name m) results in
        (ProtoMessage_Name respMsg, Some respMsg, imports)
    | [] => ("google.protobuf.Empty", None, imports ++ ["google/protobuf/empty.proto"])
    end in
  Build_MethodResult
    (Build_ProtoRPC (GoMethod_Name m) inputType outputType false false [])
    reqMsg respMsg imports.

(** The variables the method loop of [transformInterface] updates. *)
Record MethodScan : Type := Build_MethodScan {
  serviceMethods : list ProtoRPC;
  scanMessages : list ProtoMessage;
  methodScanImports : list string }.

Definition transformInterface_method (t : Transformer) (serviceName : string)
    (st : MethodScan) (m : GoMethod) : MethodScan :=
  let r := transformMethod t m serviceName in
  let messages := scanMessages st in
  let messages := match reqMsg r with Some msg => messages ++ [msg] | None => messages end in
  let messages := match respMsg r with Some msg => messages ++ [msg] | None => messages end in
  Build_MethodScan (serviceMethods st ++ [rpc r]) messages
    (methodScanImports st ++ methodImports r).

Definition transformInterface (t : Transformer) (i : GoInterface) : Proto :=
  if negb (bool_decide (at_key (GoInterface_Tags i) "go2proto:service" = "true"))
     && negb (bool_decide (at_key (GoInterface_Tags i) "go2proto" = "service"))
  then ct.Empty ProtoMonoid
  else
    let serviceName := GoInterface_Name i in
    let st := foldl (transformInterface_method t serviceName)
                    (Build_MethodScan [] [] []) (GoInterface_Methods i) in
    let service := Build_ProtoService serviceName (serviceMethods st)
                     (filterNonTagComments (GoInterface_Comments i)) in
    Build_Proto "" "" ∅ (ct.Unique (methodScanImports st)) [] (scanMessages st) [service].

(** *** Packages *)

(** The fragment [base] of [transformPackage]. *)
Definition basePackage (t : Transformer) (pkg : GoPackage) : Proto :=
  let protoPackage :=
    if decide (TransformOptions_PackageName (opts t) = "")
    then toProtoPackage (GoPackage_Path pkg)
    else TransformOptions_PackageName (opts t) in
  let goPackage :=
    if decide (TransformOptions_GoPackage (opts t) = "")
    then GoPackage_Path pkg
    else TransformOptions_GoPackage (opts t) in
  Build_Proto "proto3" protoPackage {[ "go_package" := goPackage ]} [] [] [] [].

Definition transformPackage (t : Transformer) (pkg : GoPackage) : Proto :=
  let enumLookup := buildEnumLookup t pkg in
  let base := basePackage t pkg in
  let enums := transformEnums t pkg enumLookup in
  let messages :=
    ct.FoldMap (GoPackage_Structs pkg) ProtoMonoid
               (fun s => transformStruct t s enumLookup) in
  let services :=
    ct.FoldMap (GoPackage_Interfaces pkg) ProtoMonoid (fun i => transformInterface t i) in
  ct.Concat ProtoMonoid [base; enums; messages; services].

Definition Transform (t : Transformer) (pkgs : list GoPackage) : Proto :=
  ct.FoldMap pkgs ProtoMonoid (transformPackage t).

End transformer.

(** ** Package generator *)
Module generator.
Import transformer.

Record Code : Type := Build_Code { Lines : list string }.

Definition CodeMonoid : ct.Monoid Code :=
  ct.Build_Monoid (Build_Code []) (fun a b => Build_Code (Lines a ++ Lines b)).

Definition Line (s : string) : Code := Build_Code [s].

Definition Blank : Code := Line "".

Definition Indent (c : Code) : Code :=
  Build_Code (map (fun line => if decide (line = "") then "" else "  " +:+ line) (Lines c)).

Definition Comment (s : string) : Code :=
  if decide (s = "") then ct.Empty CodeMonoid else Line ("// " +:+ s).

(** [Code.String]. *)
Definition Code_String (c : Code) : string :=
  gostrings.Join (Lines c) (String newline EmptyString).

(** A string between double quotes, as the verbs ["%s"] of the formats
    print it. *)
Definition quoted (s : string) : string := String quote s +:+ String quote EmptyString.

Definition renderHeader (p : Proto) : Code :=
  let syntax := if decide (Proto_Syntax p = "") then "proto3" else Proto_Syntax p in
  Line ("syntax = " +:+ quoted syntax +:+ ";").

Definition renderPackage (p : Proto) : Code :=
  if decide (Proto_Package p = "") then ct.Empty CodeMonoid
  else Line ("package " +:+ Proto_Package p +:+ ";").

(** The line of one option; [value] is [p.Options[k]]. *)
Definition optionLine (options : gmap string string) (k : string) : Code :=
  Line ("option " +:+ k +:+ " = " +:+ quoted (at_key options k) +:+ ";").

(** [renderOptions] once the keys are collected in [keys]. *)
Definition renderOptions_from (options : gmap string string) (keys : list string) : Code :=
  let keys := gostrings.sort_Strings keys in
  let lines := ct.FoldMap keys CodeMonoid (optionLine options) in
  ct.Concat CodeMonoid [lines; Blank].

Definition renderOptions (p : Proto) : Code :=
  if decide (Proto_Options p = ∅) then ct.Empty CodeMonoid
  else renderOptions_from (Proto_Options p) (fst <$> map_to_list (Proto_Options p)).

(** A run of [renderOptions]: [for k := range p.Options] collects the keys
    in any order. *)
Inductive renderOptions_run (p : Proto) : Code -> Prop :=
  | renderOptions_run_empty :
      Proto_Options p = ∅ -> renderOptions_run p (ct.Empty CodeMonoid)
  | renderOptions_run_keys (keys : list string) :
      Proto_Options p ≠ ∅ ->
      keys ≡ₚ fst <$> map_to_list (Proto_Options p) ->
      renderOptions_run p (renderOptions_from (Proto_Options p) keys).

Definition importLine (imp : string) : Code := Line ("import " +:+ quoted imp +:+ ";").

Definition renderImports (p : Proto) : Code :=
  match Proto_Imports p with
  | [] => ct.Empty CodeMonoid
  | _ =>
      let imports := gostrings.sort_Strings (Proto_Imports p) in
      let lines := ct.FoldMap imports CodeMonoid importLine in
      ct.Concat CodeMonoid [lines; Blank]
  end.

(** The comment lines inside a block. *)
Definition innerComment (c : string) : Code := Line ("  // " +:+ c).

Definition renderEnumValue (v : ProtoEnumValue) : Code :=
  let valueComments := ct.FoldMap (ProtoEnumValue_Comments v) CodeMonoid innerComment in
  let valueLine :=
    Line ("  " +:+ ProtoEnumValue_Name v +:+ " = " +:+ itoa (ProtoEnumValue_Number v) +:+ ";") in
  ct.Concat CodeMonoid [valueComments; valueLine].

Definition renderEnum (e : ProtoEnum) : Code :=
  let comments := ct.FoldMap (ProtoEnum_Comments e) CodeMonoid Comment in
  let values := ct.FoldMap (ProtoEnum_Values e) CodeMonoid renderEnumValue in
  ct.Concat CodeMonoid
    [comments; Line ("enum " +:+ ProtoEnum_Name e +:+ " {"); values; Line "}"; Blank].

Definition renderEnums (p : Proto) : Code :=
  match Proto_Enums p with
  | [] => ct.Empty CodeMonoid
  | _ => ct.FoldMap (Proto_Enums p) CodeMonoid renderEnum
  end.

Definition renderField (f : ProtoField) : Code :=
  let comments := ct.FoldMap (ProtoField_Comments f) CodeMonoid innerComment in
  let fieldLine :=
    if negb (bool_decide (ProtoField_MapKey f = ""))
       && negb (bool_decide (ProtoField_MapValue f = ""))
    then "  map<" +:+ ProtoField_MapKey f +:+ ", " +:+ ProtoField_MapValue f +:+ "> "
         +:+ ProtoField_Name f +:+ " = " +:+ itoa (ProtoField_Number f) +:+ ";"
    else
      let prefix :=
        if ProtoField_Repeated f then "repeated "
        else if ProtoField_Optional f then "optional "
        else "" in
      "  " +:+ prefix +:+ ProtoField_Type f +:+ " " +:+ ProtoField_Name f +:+ " = "
      +:+ itoa (ProtoField_Number f) +:+ ";" in
  ct.Concat CodeMonoid [comments; Line fieldLine].

Fixpoint renderMessage (m : ProtoMessage) : Code :=
  match m with
  | Build_ProtoMessage Name Fields Nested Enums Comments =>
      let comments := ct.FoldMap Comments CodeMonoid Comment in
      let fields := ct.FoldMap Fields CodeMonoid renderField in
      let nestedEnums := ct.FoldMap Enums CodeMonoid (fun e => Indent (renderEnum e)) in
      let nestedMessages :=
        ct.FoldMap Nested CodeMonoid (fun nested => Indent (renderMessage nested)) in
      ct.Concat CodeMonoid
        [comments; Line ("message " +:+ Name +:+ " {");
         nestedEnums; nestedMessages; fields; Line "}"; Blank]
  end.

Definition renderMessages (p : Proto) : Code :=
  match Proto_Messages p with
  | [] => ct.Empty CodeMonoid
  | _ => ct.FoldMap (Proto_Messages p) CodeMonoid renderMessage
  end.

Definition renderRPC (r : ProtoRPC) : Code :=
  let comments := ct.FoldMap (ProtoRPC_Comments r) CodeMonoid innerComment in
  let inputType :=
    if ProtoRPC_ClientStreaming r then "stream " +:+ ProtoRPC_InputType r
    else ProtoRPC_InputType r in
  let outputType :=
    if ProtoRPC_ServerStreaming r then "stream " +:+ ProtoRPC_OutputType r
    else ProtoRPC_OutputType r in
  let rpcLine :=
    "  rpc " +:+ ProtoRPC_Name r +:+ "(" +:+ inputType +:+ ") returns (" +:+ outputType
    +:+ ");" in
  ct.Concat CodeMonoid [comments; Line rpcLine].

Definition renderService (s : ProtoService) : Code :=
  let comments := ct.FoldMap (ProtoService_Comments s) CodeMonoid Comment in
  let methods := ct.FoldMap (ProtoService_Methods s) CodeMonoid renderRPC in
  ct.Concat CodeMonoid
    [comments; Line ("service " +:+ ProtoService_Name s +:+ " {"); methods; Line "}"; Blank].

Definition renderServices (p : Proto) : Code :=
  match Proto_Services p with
  | [] => ct.Empty CodeMonoid
  | _ => ct.FoldMap (Proto_Services p) CodeMonoid renderService
  end.

(** The code [Generate] joins into its result. *)
Definition generated (p : Proto) : Code :=
  ct.Concat CodeMonoid
    [renderHeader p; Blank; renderPackage p; Blank; renderOptions p; renderImports p;
     renderEnums p; renderMessages p; renderServices p].

Definition Generate (p : Proto) : string := Code_String (generated p).

End generator.

(** ** Package main: the files [run] writes

    The command line comes as [Flags] and the packages come parsed.  The
    operating system comes as an [OS]: it decides whether a call of
    [os.MkdirAll] or [os.WriteFile] succeeds.  The functions return the
    files written so far, in order, and the error they end with, if any;
    what they print is left out.  A file is written at
    [filepath.Join(outDir, filename)], of which the two arguments are kept
    apart. *)

Module main.
Import parser transformer.

Record Flags : Type := Build_Flags {
  outDir : string;
  protoPackage : string;
  goPackage : string;
  includePrivate : bool;
  oneFile : bool;
  fileName : string }.

(** One call of [os.WriteFile]. *)
Record Written : Type := Build_Written {
  Written_Dir : string;
  Written_Name : string;
  Written_Content : string }.

(** Whether [os.MkdirAll(dir, 0755)] returns [nil], and whether
    [os.WriteFile] does, which may depend on the calls that returned [nil]
    before it.  A call that fails is not among the files written, whatever
    it leaves on the disk. *)
Record OS : Type := Build_OS {
  MkdirAll : string -> bool;
  WriteFile : list Written -> Written -> bool }.

(** The errors of [run]. *)
Inductive Error : Type :=
  | NoPackagesFound
  | MkdirFailed (dir : string)
  | WriteFailed (file : Written).

Definition generateSingleFile (os : OS) (fl : Flags) (pkgs : list GoPackage)
    (trans : Transformer) : list Written * option Error :=
  let proto := Transform trans pkgs in
  let content := generator.Generate proto in
  let filename :=
    if decide (fileName fl = "") then
      if negb (bool_decide (Proto_Package proto = ""))
      then gostrings.ReplaceAll (Proto_Package proto) "." "_" +:+ ".proto"
      else "generated.proto"
    else fileName fl in
  let file := Build_Written (outDir fl) filename content in
  if WriteFile os [] file then ([file], None) else ([], Some (WriteFailed file)).

(** The loop of [generatePerPackage] from the package [pkgs] starts with,
    after the files [written]: a failed write ends it. *)
Fixpoint generatePerPackage_from (os : OS) (fl : Flags) (trans : Transformer)
    (written : list Written) (pkgs : list GoPackage) : list Written * option Error :=
  match pkgs with
  | [] => (written, None)
  | pkg :: rest =>
      match GoPackage_Structs pkg, GoPackage_Interfaces pkg with
      | [], [] => generatePerPackage_from os fl trans written rest
      | _, _ =>
          let proto := Transform trans [pkg] in
          match Proto_Messages proto, Proto_Services proto, Proto_Enums proto with
          | [], [], [] => generatePerPackage_from os fl trans written rest
          | _, _, _ =>
              let file :=
                Build_Written (outDir fl) (GoPackage_Name pkg +:+ ".proto")
                  (generator.Generate proto) in
              if WriteFile os written file
              then generatePerPackage_from os fl trans (written ++ [file]) rest
              else (written, Some (WriteFailed file))
          end
      end
  end.

Definition generatePerPackage (os : OS) (fl : Flags) (pkgs : list GoPackage)
    (trans : Transformer) : list Written * option Error :=
  generatePerPackage_from os fl trans [] pkgs.

(** [run] once the packages are parsed. *)
Definition run (os : OS) (fl : Flags) (pkgs : list GoPackage)
    : list Written * option Error :=
  match pkgs with
  | [] => ([], Some NoPackagesFound)
  | _ =>
      if negb (MkdirAll os (outDir fl)) then ([], Some (MkdirFailed (outDir fl)))
      else
        let opts :=
          Build_TransformOptions (protoPackage fl) (goPackage fl)
            (TransformOptions_TypeMappings DefaultOptions) (includePrivate fl)
            (TransformOptions_ServiceSuffix DefaultOptions) in
        let trans := NewTransformer opts in
        if oneFile fl then generateSingleFile os fl pkgs trans
        else generatePerPackage os fl pkgs trans
  end.

End main.

(** ** Runs of the engine under any map iteration order

    The only [range] over a map inside the engine is the pair of copy loops of
    [ProtoMonoid.Append].  A run fixes, for each execution of such a loop, the
    order in which the entries of the map are visited. *)
Module runs.
Import parser transformer.

(** An order in which [range src] may visit the entries of [src]. *)
Definition visits (src : gmap string string) (order : list (string * string)) : Prop :=
  order ≡ₚ map_to_list src.

(** [opts[k] = v] for the entries in the order visited. *)
Definition copy_visited (order : list (string * string)) (opts : gmap string string)
    : gmap string string :=
  foldl (fun opts kv => <[kv.1 := kv.2]> opts) opts order.

Inductive Append_run (a b : Proto) : Proto -> Prop :=
  | Append_run_intro (oa ob : list (string * string)) :
      visits (Proto_Options a) oa ->
      visits (Proto_Options b) ob ->
      Append_run a b
        (Build_Proto
           (ct.Coalesce "" [Proto_Syntax a; Proto_Syntax b])
           (ct.Coalesce "" [Proto_Package a; Proto_Package b])
           (copy_visited ob (copy_visited oa ∅))
           (ct.Unique (Proto_Imports a ++ Proto_Imports b))
           (Proto_Enums a ++ Proto_Enums b)
           (Proto_Messages a ++ Proto_Messages b)
           (Proto_Services a ++ Proto_Services b)).

(** The loop shared by [ct.Concat] and [ct.FoldMap] at [ProtoMonoid]:
    [result = Append(result, f(x))] for each [x], where [f] may itself run
    [Append]. *)
Inductive fold_run {A : Type} (f : A -> Proto -> Prop) : Proto -> list A -> Proto -> Prop :=
  | fold_run_nil (result : Proto) : fold_run f result [] result
  | fold_run_cons (result : Proto) (x : A) (xs : list A) (fx result' final : Proto) :
      f x fx ->
      Append_run result fx result' ->
      fold_run f result' xs final ->
      fold_run f result (x :: xs) final.

Definition Concat_run (xs : list Proto) (final : Proto) : Prop :=
  fold_run (fun x fx => fx = x) (ct.Empty ProtoMonoid) xs final.

Definition FoldMap_run {A : Type} (xs : list A) (f : A -> Proto -> Prop) (final : Proto)
    : Prop :=
  fold_run f (ct.Empty ProtoMonoid) xs final.

Inductive transformPackage_run (t : Transformer) (pkg : GoPackage) : Proto -> Prop :=
  | transformPackage_run_intro (messages services final : Proto) :
      let enumLookup := buildEnumLookup t pkg in
      FoldMap_run (GoPackage_Structs pkg)
        (fun s fs => fs = transformStruct t s enumLookup) messages ->
      FoldMap_run (GoPackage_Interfaces pkg)
        (fun i fi => fi = transformInterface t i) services ->
      Concat_run [basePackage t pkg; transformEnums t pkg enumLookup; messages; services]
        final ->
      transformPackage_run t pkg final.

Definition Transform_run (t : Transformer) (pkgs : list GoPackage) (final : Proto) : Prop :=
  FoldMap_run pkgs (transformPackage_run t) final.

(** Two IR values that agree up to the order of their import lists. *)
Definition same_up_to_imports (p q : Proto) : Prop :=
  Proto_Syntax p = Proto_Syntax q /\
  Proto_Package p = Proto_Package q /\
  Proto_Options p = Proto_Options q /\
  Proto_Imports p ≡ₚ Proto_Imports q /\
  Proto_Enums p = Proto_Enums q /\
  Proto_Messages p = Proto_Messages q /\
  Proto_Services p = Proto_Services q.

End runs.

(** ** Specification-side definitions used by the statements *)
Module facts.
Import parser transformer.

(** *** Composition *)

(** [ProtoMonoid.Append]. *)
Definition Append := ct.Append ProtoMonoid.

(** [ProtoMonoid.Empty()]. *)
Definition Empty := ct.Empty ProtoMonoid.

(** The fragment carries the syntax marker of [Empty] and lists no import
    twice. *)
Definition normal (x : Proto) : Prop :=
  Proto_Syntax x = "proto3" /\ NoDup (Proto_Imports x).

(** A fragment keeps every scalar it has set when [b] is merged into it. *)
Definition first_set_wins (a b : Proto) : Prop :=
  (Proto_Syntax a ≠ "" -> Proto_Syntax (Append a b) = Proto_Syntax a) /\
  (Proto_Package a ≠ "" -> Proto_Package (Append a b) = Proto_Package a) /\
  (forall k v, Proto_Options a !! k = Some v -> Proto_Options (Append a b) !! k = Some v).

(** The keys a [seen] map of [ct.Unique] marks. *)
Definition flagged `{Countable A} (seen : gmap A bool) : gset A :=
  dom (filter (fun kv => kv.2 = true) seen).

(** First occurrences of the elements outside [seen], in order. *)
Fixpoint dedup `{Countable A} (seen : gset A) (xs : list A) : list A :=
  match xs with
  | [] => []
  | x :: r => if decide (x ∈ seen) then dedup seen r else x :: dedup ({[x]} ∪ seen) r
  end.

(** The [base] fragments of two packages, as [transformPackage] builds them. *)
Definition base_users : Proto :=
  basePackage (NewTransformer DefaultOptions)
    (Build_GoPackage "example.com/shop/users" "users" [] [] [] []).

(** The same for a second package. *)
Definition base_orders : Proto :=
  basePackage (NewTransformer DefaultOptions)
    (Build_GoPackage "example.com/shop/orders" "orders" [] [] [] []).

(** A package with the constant group of the README's [Status]. *)
Definition status_package : GoPackage :=
  Build_GoPackage "example.com/models" "models" [] [] []
    [Build_GoConstGroup "Status"
       [Build_GoConstValue "StatusUnknown" 0 [];
        Build_GoConstValue "StatusActive" 1 [];
        Build_GoConstValue "StatusInactive" 2 []]].

(** The fragment [enums] of [transformPackage] for that package. *)
Definition status_enums : Proto :=
  let t := NewTransformer DefaultOptions in
  transformEnums t status_package (buildEnumLookup t status_package).

(** *** Structs *)

(** The field reaches [transformField]: it is not skipped for being
    unexported or embedded. *)
Definition considered (t : Transformer) (f : GoField) : bool :=
  negb (negb (GoField_Exported f) && negb (TransformOptions_IncludePrivate (opts t)))
  && negb (GoField_Embedded f).

(** The field is emitted from its wire-tag annotation. *)
Definition tagOverrides (t : Transformer) (f : GoField) : bool :=
  considered t f &&
  match parseProtobufTag (GoField_Tag f) with
  | Some tag => negb (bool_decide (ProtoField_Name tag = ""))
  | None => false
  end.

(** The field numbers of a message, in order. *)
Definition numbers (m : ProtoMessage) : list Z :=
  ProtoField_Number <$> ProtoMessage_Fields m.

(** The numbers of the fields are 1, 2, ..., N in this order. *)
Definition dense_numbers (m : ProtoMessage) : Prop :=
  numbers m = seqZ 1 (Z.of_nat (length (ProtoMessage_Fields m))).

(** The same field without its tag. *)
Definition untagged (f : GoField) : GoField :=
  Build_GoField (GoField_Name f) (GoField_Type f) "" (GoField_Embedded f)
    (GoField_Comments f) (GoField_Exported f).

(** The field loop of [transformStruct] treats [f] as it treats the same
    field without a tag. *)
Definition annotation_ignored (t : Transformer) (f : GoField) : Prop :=
  forall st enumLookup typeParamsLookup,
    transformStruct_field t enumLookup typeParamsLookup st f =
    transformStruct_field t enumLookup typeParamsLookup st (untagged f).

(** The struct tag [`protobuf:"body"`] as [go/ast] hands it over. *)
Definition protobuf_tag (body : string) : string :=
  "`protobuf:" +:+ String quote body +:+ String quote "`".

(** [type Stats struct] with the given fields. *)
Definition struct_of (fields : list GoField) : GoStruct :=
  Build_GoStruct "Stats" fields [] ∅ [].

(** [type Account struct { ID string `protobuf:"bytes,5,opt,name=id"`;
    Email string }]. *)
Definition account : GoStruct :=
  Build_GoStruct "Account"
    [Build_GoField "ID" (BasicType "string") (protobuf_tag "bytes,5,opt,name=id")
       false [] true;
     Build_GoField "Email" (BasicType "string") "" false [] true]
    [] ∅ [].

(** [Count int `protobuf:"varint,abc,opt"`]: no number, no name. *)
Definition count_without_name : GoField :=
  Build_GoField "Count" (BasicType "int") (protobuf_tag "varint,abc,opt") false [] true.

(** [Count int `protobuf:"varint,abc,opt,name=count"`]: no number. *)
Definition count_without_number : GoField :=
  Build_GoField "Count" (BasicType "int") (protobuf_tag "varint,abc,opt,name=count")
    false [] true.

(** [Count int `protobuf:"varint,2"`]: fewer than three parts. *)
Definition count_two_parts : GoField :=
  Build_GoField "Count" (BasicType "int") (protobuf_tag "varint,2") false [] true.

(** The string has an upper-case R, as the names of the envelopes do. *)
Fixpoint has_R (s : string) : bool :=
  match s with
  | EmptyString => false
  | String c r => Ascii.eqb c "R" || has_R r
  end.

(** *** Services *)

(** [GetUser(ctx context.Context, id string)] with the results [*User] and
    [error]. *)
Definition GetUser : GoMethod :=
  Build_GoMethod "GetUser"
    [Build_GoParam "ctx" (NamedType "context" "Context");
     Build_GoParam "id" (BasicType "string")]
    [Build_GoParam "" (PointerType (NamedType "" "User"));
     Build_GoParam "" (BasicType "error")].

(** [Schedule(ctx context.Context, at time.Time, every time.Duration)] with
    the results [time.Time], [bool] and [error], in a service interface. *)
Definition Scheduler : GoInterface :=
  Build_GoInterface "Scheduler"
    [Build_GoMethod "Schedule"
       [Build_GoParam "ctx" (NamedType "context" "Context");
        Build_GoParam "at" (NamedType "time" "Time");
        Build_GoParam "every" (NamedType "time" "Duration")]
       [Build_GoParam "" (NamedType "time" "Time");
        Build_GoParam "" (BasicType "bool");
        Build_GoParam "" (BasicType "error")]]
    ["+go2proto:service"] {[ "go2proto:service" := "true" ]}.

(** The package of the README: [User], [Status] and [UserService]. *)
Definition models : GoPackage :=
  Build_GoPackage "github.com/example/models" "models"
    [Build_GoStruct "User"
       [Build_GoField "ID" (BasicType "string") "" false [] true;
        Build_GoField "Email" (BasicType "string") "" false [] true;
        Build_GoField "Status" (NamedType "" "Status") "" false [] true;
        Build_GoField "CreatedAt" (NamedType "time" "Time") "" false [] true]
       ["User represents a user."] ∅ []]
    [Build_GoInterface "UserService" [GetUser]
       ["+go2proto:service"; "UserService defines user operations."]
       {[ "go2proto:service" := "true" ]}]
    []
    [Build_GoConstGroup "Status"
       [Build_GoConstValue "StatusUnknown" 0 [];
        Build_GoConstValue "StatusActive" 1 [];
        Build_GoConstValue "StatusInactive" 2 []]].

(** *** Enums *)



(** The first value recorded for the type [T], if any. *)
Definition first_value (groups : gmap string GoConstGroup) (T : string)
    : option GoConstValue :=
  groups !! T ≫= fun g => head (GoConstGroup_Values g).


(** [const ( StatusUnknown Status = iota; StatusActive; StatusInactive )],
    the block of the README. *)
Definition readme_block : list Spec :=
  [IsValueSpec (Build_ValueSpec ["StatusUnknown"] (Some (Ident "Status")) []);
   IsValueSpec (Build_ValueSpec ["StatusActive"] None []);
   IsValueSpec (Build_ValueSpec ["StatusInactive"] None [])].

(** The package [extractPackage] builds from the block of the README. *)
Definition readme_block_package : GoPackage :=
  Build_GoPackage "example.com/models" "models" [] [] []
    (ct.Filter (snd <$> map_to_list (extractConsts readme_block ∅)) has_values).



(** *** Strings *)

(** Every byte of the string satisfies [P]. *)
Fixpoint all_bytes (P : ascii -> bool) (s : string) : bool :=
  match s with
  | EmptyString => true
  | String c r => P c && all_bytes P r
  end.

(** The byte [c] occurs in the string. *)
Definition contains (c : ascii) (s : string) : bool :=
  negb (all_bytes (fun b => negb (Ascii.eqb b c)) s).

(** No upper-case ASCII letter, no lower-case ASCII letter. *)
Definition no_upper (s : string) : bool :=
  all_bytes (fun c => negb (gounicode.IsUpper c)) s.

Definition no_lower (s : string) : bool :=
  all_bytes (fun c => negb (gounicode.between 97 122 c)) s.

(** The path with dots for slashes and underscores for hyphens. *)
Definition dotted (path : string) : string :=
  gostrings.ReplaceAll (gostrings.ReplaceAll path "/" ".") "-" "_".

(** The code hosts [toProtoPackage] cuts off. *)
Definition code_hosts : list string := ["github.com"; "gitlab.com"; "bitbucket.org"].

(** The scalar type of a wire type, as the [switch] of [parseProtobufTag]
    assigns it. *)
Definition wireType (wiretype : string) : string :=
  if decide (wiretype = "bytes") then "bytes"
  else if decide (wiretype = "varint") then "int64"
  else if decide (wiretype = "fixed64") then "fixed64"
  else if decide (wiretype = "fixed32") then "fixed32"
  else "".

(** *** Structs, once more *)

(** The name under which [transformField] emits the field. *)
Definition emittedName (f : GoField) : string :=
  match parseProtobufTag (GoField_Tag f) with
  | Some tag => ProtoField_Name tag
  | None => toSnakeCase (GoField_Name f)
  end.

Definition nonempty (s : string) : bool := negb (bool_decide (s = "")).

(** The lookup [transformStruct] builds from the type parameters. *)
Definition typeParamsLookupOf (s : GoStruct) : gmap string bool :=
  foldl (fun lookup tp => <[tp := true]> lookup) (∅ : gmap string bool)
        (GoStruct_TypeParams s).

(** The field is emitted by resolver inference. *)
Definition inferred (t : Transformer) (f : GoField) : bool :=
  considered t f
  && match parseProtobufTag (GoField_Tag f) with Some _ => false | None => true end
  && nonempty (GoField_Name f).

(** *** Enums and services, once more *)

(** The type name is looked up as an enum: a constant group of two values or
    more bears it, or an alias tagged as an enum. *)
Definition isEnumType (pkg : GoPackage) (name : string) : bool :=
  existsb (fun cg => bool_decide (GoConstGroup_TypeName cg = name)
                     && (2 <=? length (GoConstGroup_Values cg))%nat)
          (GoPackage_Consts pkg)
  || existsb (fun alias =>
                bool_decide (GoAlias_Name alias = name)
                && bool_decide (at_key (GoAlias_Tags alias) "go2proto:enum" = "true"))
             (GoPackage_Aliases pkg).

(** The interface bears one of the two service tags. *)
Definition isService (i : GoInterface) : bool :=
  bool_decide (at_key (GoInterface_Tags i) "go2proto:service" = "true")
  || bool_decide (at_key (GoInterface_Tags i) "go2proto" = "service").

(** The parameters and results an RPC is built from. *)
Definition rpcParams (m : GoMethod) : list GoParam :=
  ct.Filter (GoMethod_Params m) notContext.

Definition rpcResults (m : GoMethod) : list GoParam :=
  ct.Filter (GoMethod_Results m) notError.

(** The envelope messages of a method, request first. *)
Definition envelopes (r : MethodResult) : list ProtoMessage :=
  option_list (reqMsg r) ++ option_list (respMsg r).

(** The comment line is a directive. *)
Definition isTagLine (c : string) : bool :=
  gostrings.HasPrefix (gostrings.TrimSpace c) "+".

(** *** Constant blocks, once more *)

(** The spec names its type by an identifier. *)
Definition typed (spec : Spec) : bool :=
  match spec with
  | IsValueSpec vs =>
      match ValueSpec_Type vs with Some (Ident _) => true | _ => false end
  | OtherSpec => false
  end.

(** The spec leaves the current type [T] of the scan as it is. *)
Definition continues (T : string) (spec : Spec) : bool :=
  match spec with
  | IsValueSpec vs =>
      match ValueSpec_Type vs with
      | Some (Ident name) => bool_decide (name = T)
      | _ => true
      end
  | OtherSpec => true
  end.

(** The names of a block, in source order. *)
Definition block_names (specs : list Spec) : list string :=
  mjoin ((fun spec => match spec with
                      | IsValueSpec vs => ValueSpec_Names vs
                      | OtherSpec => []
                      end) <$> specs).

(** The exported names of a list with their positions, counted from
    [start]. *)
Definition positions (start : nat) (names : list string) : list (string * Z) :=
  omap id (imap (fun k name =>
                   if IsExported name then Some (name, Z.of_nat (start + k)) else None)
                names).

(** *** Generated files *)

(** The code of [Generate] around a given options block. *)
Definition generated_with (p : Proto) (options : generator.Code) : generator.Code :=
  ct.Concat generator.CodeMonoid
    [generator.renderHeader p; generator.Blank; generator.renderPackage p; generator.Blank;
     options; generator.renderImports p; generator.renderEnums p;
     generator.renderMessages p; generator.renderServices p].

(** A run of [Generate]: the keys of the options are collected in any
    order. *)
Definition Generate_run (p : Proto) (out : string) : Prop :=
  exists options,
    generator.renderOptions_run p options /\
    out = generator.Code_String (generated_with p options).

(** *** Files *)

(** The package declares a struct or an interface. *)
Definition hasTypes (pkg : GoPackage) : bool :=
  match GoPackage_Structs pkg, GoPackage_Interfaces pkg with
  | [], [] => false
  | _, _ => true
  end.

(** The fragment of the package alone has a message, a service or an
    enum. *)
Definition hasOutput (trans : Transformer) (pkg : GoPackage) : bool :=
  match Proto_Messages (Transform trans [pkg]), Proto_Services (Transform trans [pkg]),
        Proto_Enums (Transform trans [pkg]) with
  | [], [], [] => false
  | _, _, _ => true
  end.

(** The file [generatePerPackage] writes for a package. *)
Definition fileOf (fl : main.Flags) (trans : Transformer) (pkg : GoPackage) : main.Written :=
  main.Build_Written (main.outDir fl) (GoPackage_Name pkg +:+ ".proto")
    (generator.Generate (Transform trans [pkg])).

(** Every byte is below 0x80. *)
Definition is_ascii (s : string) : bool :=
  all_bytes (fun c => (gounicode.code c <? 128)%N) s.

(** The first byte, if any, is below 0x80: the first rune is that byte. *)
Definition ascii_initial (s : string) : bool :=
  match s with
  | String c _ => (gounicode.code c <? 128)%N
  | EmptyString => true
  end.

(** The source fields of a struct of which [transformStruct] emits a field,
    in declaration order. *)
Definition emitted (t : Transformer) (s : GoStruct) : list GoField :=
  ct.Filter (ct.Filter (GoStruct_Fields s) (considered t))
            (fun f => nonempty (emittedName f)).

(** The number of the field emitted at the index [k] for the source field
    [f]. *)
Definition numberAt (k : nat) (f : GoField) : Z :=
  match parseProtobufTag (GoField_Tag f) with
  | Some tag => ProtoField_Number tag
  | None => Z.of_nat k + 1
  end.

End facts.

(** * Properties *)

Import parser transformer runs facts.

(** ** Machine integers *)

Lemma wrap64_small (z : Z) : - 2 ^ 63 <= z < 2 ^ 63 -> wrap64 z = z.
Proof.
  intros Hz. unfold wrap64.
  rewrite Z.mod_small by lia. lia.
Qed.

(** ** Maps: the copy loops of [Append] *)

Section copy_loops.
Implicit Types (src opts : gmap string string) (order : list (string * string)).

Lemma foldr_insert_union order opts :
  foldr (fun kv m => <[kv.1 := kv.2]> m) opts order = list_to_map order ∪ opts.
Proof.
  induction order as [|[k v] order IH]; simpl.
  - by rewrite (left_id_L ∅ (∪)).
  - by rewrite IH, insert_union_l.
Qed.

Lemma copy_visited_reverse order opts :
  copy_visited order opts = foldr (fun kv m => <[kv.1 := kv.2]> m) opts (reverse order).
Proof.
  revert opts. induction order as [|kv order IH]; intros opts; [done|].
  rewrite reverse_cons, foldr_app. simpl. apply IH.
Qed.

Lemma copy_visited_union src order opts :
  visits src order -> copy_visited order opts = src ∪ opts.
Proof.
  intros Hvisit. rewrite copy_visited_reverse, foldr_insert_union.
  f_equal. rewrite <- (list_to_map_to_list src).
  apply list_to_map_proper.
  - rewrite reverse_Permutation, Hvisit. apply NoDup_fst_map_to_list.
  - by rewrite reverse_Permutation.
Qed.

Lemma copy_entries_union src opts : copy_entries src opts = src ∪ opts.
Proof.
  unfold copy_entries. rewrite map_fold_foldr.
  rewrite <- (list_to_map_to_list src) at 2.
  rewrite <- foldr_insert_union.
  induction (map_to_list src) as [|[k v] l IH]; simpl; [done|]. by rewrite IH.
Qed.

Lemma visits_canonical src : visits src (map_to_list src).
Proof. unfold visits. reflexivity. Qed.

End copy_loops.

(** ** [ct.Unique] keeps first occurrences *)

Section unique.
Context {A : Type} `{!EqDecision A, !Countable A}.
Implicit Types (seen : gmap A bool) (s : gset A) (xs ys : list A).

Lemma elem_of_flagged seen x : x ∈ flagged seen <-> seen !! x = Some true.
Proof.
  unfold flagged. rewrite elem_of_dom. split.
  - intros [b Hb]. apply map_lookup_filter_Some in Hb as [Hx Hb]. simpl in Hb. by subst.
  - intros Hx. exists true. by apply map_lookup_filter_Some.
Qed.

Lemma flagged_empty : flagged (∅ : gmap A bool) = ∅.
Proof. unfold flagged. by rewrite map_filter_empty, dom_empty_L. Qed.

Lemma flagged_insert seen x : flagged (<[x := true]> seen) = {[x]} ∪ flagged seen.
Proof.
  apply set_eq. intros y.
  rewrite elem_of_union, elem_of_singleton, !elem_of_flagged.
  destruct (decide (x = y)) as [->|Hne].
  - rewrite lookup_insert_eq. naive_solver.
  - rewrite lookup_insert_ne by done. naive_solver.
Qed.

Lemma Unique_loop_dedup seen xs : ct.Unique_loop seen xs = dedup (flagged seen) xs.
Proof.
  revert seen. induction xs as [|x xs IH]; intros seen; simpl; [done|].
  destruct (decide (x ∈ flagged seen)) as [Hin|Hout].
  - apply elem_of_flagged in Hin as Hx. rewrite Hx. simpl. apply IH.
  - assert (default false (seen !! x) = false) as ->.
    { destruct (seen !! x) as [[]|] eqn:Hx; try done.
      exfalso. apply Hout. by apply elem_of_flagged. }
    by rewrite IH, flagged_insert.
Qed.

Lemma Unique_dedup xs : ct.Unique xs = dedup ∅ xs.
Proof. unfold ct.Unique. by rewrite Unique_loop_dedup, flagged_empty. Qed.

Lemma dedup_app s xs ys :
  dedup s (xs ++ ys) = dedup s xs ++ dedup (list_to_set xs ∪ s) ys.
Proof.
  revert s. induction xs as [|x xs IH]; intros s; simpl.
  - by rewrite (left_id_L ∅ (∪)).
  - case_decide as Hx.
    + rewrite IH. do 2 f_equal. set_solver.
    + simpl. rewrite IH. do 3 f_equal. set_solver.
Qed.

Lemma dedup_dedup s s' xs : s ⊆ s' -> dedup s' (dedup s xs) = dedup s' xs.
Proof.
  revert s s'. induction xs as [|x xs IH]; intros s s' Hsub; simpl; [done|].
  destruct (decide (x ∈ s)) as [Hs|Hs].
  - rewrite decide_True by set_solver. by apply IH.
  - simpl. destruct (decide (x ∈ s')) as [Hs'|Hs'].
    + apply IH. set_solver.
    + f_equal. apply IH. set_solver.
Qed.

Lemma elem_of_dedup s xs x : x ∈ dedup s xs <-> x ∈ xs /\ x ∉ s.
Proof.
  revert s. induction xs as [|y xs IH]; intros s; simpl.
  - set_solver.
  - case_decide as Hy.
    + rewrite IH. set_solver.
    + rewrite elem_of_cons, IH. destruct (decide (x = y)); set_solver.
Qed.

Lemma NoDup_dedup s xs : NoDup (dedup s xs).
Proof.
  revert s. induction xs as [|y xs IH]; intros s; simpl.
  - constructor.
  - case_decide; [apply IH|]. constructor; [|apply IH].
    rewrite elem_of_dedup. set_solver.
Qed.

Lemma dedup_NoDup s xs : NoDup xs -> (forall x, x ∈ xs -> x ∉ s) -> dedup s xs = xs.
Proof.
  revert s. induction xs as [|y xs IH]; intros s Hnd Hs; simpl; [done|].
  apply NoDup_cons in Hnd as [Hy Hnd].
  rewrite decide_False by set_solver.
  f_equal. apply IH; [done|]. set_solver.
Qed.

(** Deduplication of a concatenation does not depend on the grouping. *)
Lemma Unique_assoc xs ys zs :
  ct.Unique (ct.Unique (xs ++ ys) ++ zs) = ct.Unique (xs ++ ct.Unique (ys ++ zs)).
Proof.
  assert (forall s l, (list_to_set (dedup s l) : gset A) ∪ s = list_to_set l ∪ s) as Hset.
  { intros s l. apply set_eq. intros x.
    rewrite !elem_of_union, !elem_of_list_to_set, elem_of_dedup.
    destruct (decide (x ∈ s)); naive_solver. }
  rewrite !Unique_dedup.
  rewrite (dedup_app ∅ (dedup ∅ (xs ++ ys)) zs), (dedup_app ∅ xs (dedup ∅ (ys ++ zs))).
  rewrite (dedup_dedup ∅ ∅ (xs ++ ys)) by done.
  rewrite (dedup_dedup ∅ (list_to_set xs ∪ ∅) (ys ++ zs)) by set_solver.
  rewrite (dedup_app ∅ xs ys), (dedup_app (list_to_set xs ∪ ∅) ys zs), <- app_assoc.
  do 3 f_equal.
  rewrite <- (dedup_app ∅ xs ys), Hset, list_to_set_app_L. set_solver.
Qed.

End unique.

(** ** The composition of fragments *)

Section composition.
Implicit Types (a b c x : Proto).

Lemma Coalesce_pair (u v : string) :
  ct.Coalesce "" [u; v] = if decide (u = "") then v else u.
Proof. simpl. repeat case_decide; congruence. Qed.

Lemma Append_eq a b :
  Append a b =
  Build_Proto
    (if decide (Proto_Syntax a = "") then Proto_Syntax b else Proto_Syntax a)
    (if decide (Proto_Package a = "") then Proto_Package b else Proto_Package a)
    (Proto_Options b ∪ Proto_Options a)
    (ct.Unique (Proto_Imports a ++ Proto_Imports b))
    (Proto_Enums a ++ Proto_Enums b)
    (Proto_Messages a ++ Proto_Messages b)
    (Proto_Services a ++ Proto_Services b).
Proof.
  unfold Append. cbn [ct.Append ProtoMonoid].
  rewrite !Coalesce_pair, !copy_entries_union.
  by rewrite (right_id_L ∅ (∪)).
Qed.

(** Whatever order the copy loops visit the maps in, a run of [Append]
    ends in the value of the functional model. *)
Lemma Append_run_eq a b r : Append_run a b r -> r = Append a b.
Proof.
  intros [oa ob Hoa Hob]. rewrite Append_eq.
  rewrite !Coalesce_pair.
  rewrite (copy_visited_union _ _ _ Hob), (copy_visited_union _ _ _ Hoa).
  by rewrite (right_id_L ∅ (∪)).
Qed.

Lemma Append_run_total a b : Append_run a b (Append a b).
Proof.
  unfold Append. cbn [ct.Append ProtoMonoid].
  pose proof (Append_run_intro a b _ _ (visits_canonical (Proto_Options a))
                (visits_canonical (Proto_Options b))) as Hrun.
  rewrite (copy_visited_union (Proto_Options b)) in Hrun by apply visits_canonical.
  rewrite (copy_visited_union (Proto_Options a)) in Hrun by apply visits_canonical.
  by rewrite !copy_entries_union.
Qed.

Lemma Append_assoc a b c : Append (Append a b) c = Append a (Append b c).
Proof.
  rewrite !Append_eq. cbn [Proto_Syntax Proto_Package Proto_Options Proto_Imports
                           Proto_Enums Proto_Messages Proto_Services].
  f_equal.
  - repeat case_decide; congruence.
  - repeat case_decide; congruence.
  - by rewrite (assoc_L (∪)).
  - apply Unique_assoc.
  - by rewrite app_assoc.
  - by rewrite app_assoc.
  - by rewrite app_assoc.
Qed.

(** [Empty] is neutral on the fragments that already carry its syntax
    marker and a duplicate-free import list. *)
Lemma Append_Empty_l x :
  Proto_Syntax x = "proto3" -> NoDup (Proto_Imports x) -> Append Empty x = x.
Proof.
  intros Hsyn Hnd. rewrite Append_eq. destruct x as [syn pkg o imp en ms sv].
  cbn in *. subst syn. f_equal.
  - by rewrite (right_id_L ∅ (∪)).
  - rewrite Unique_loop_dedup, flagged_empty. apply dedup_NoDup; [done|set_solver].
Qed.

Lemma Append_Empty_r x :
  Proto_Syntax x = "proto3" -> NoDup (Proto_Imports x) -> Append x Empty = x.
Proof.
  intros Hsyn Hnd. rewrite Append_eq. destruct x as [syn pkg o imp en ms sv].
  cbn in *. subst syn. rewrite !app_nil_r. f_equal.
  - by case_decide.
  - by rewrite (left_id_L ∅ (∪)).
  - rewrite Unique_loop_dedup, flagged_empty. apply dedup_NoDup; [done|set_solver].
Qed.

End composition.

(** C1 (as stated, refuted): merging the base fragment of a second package
    into that of a first one replaces the [go_package] option the first one
    had set. *)
Lemma later_option_overrides :
  Proto_Options base_users !! "go_package" = Some "example.com/shop/users" /\
  Proto_Options (Append base_users base_orders) !! "go_package"
    = Some "example.com/shop/orders" /\
  ~ first_set_wins base_users base_orders.
Proof.
  split; [reflexivity|]. split; [vm_compute; reflexivity|].
  intros (_ & _ & Hopt).
  specialize (Hopt "go_package" "example.com/shop/users" eq_refl).
  vm_compute in Hopt. discriminate Hopt.
Qed.

(** C1 (amended): in [Append a b] the syntax marker and the package name are
    the first non-empty ones of [a] and [b], and every option is taken from
    [b] when [b] has the key and from [a] otherwise. *)
Theorem Append_scalars (a b : Proto) :
  Proto_Syntax (Append a b)
    = (if decide (Proto_Syntax a = "") then Proto_Syntax b else Proto_Syntax a) /\
  Proto_Package (Append a b)
    = (if decide (Proto_Package a = "") then Proto_Package b else Proto_Package a) /\
  forall k, Proto_Options (Append a b) !! k
            = match Proto_Options b !! k with
              | Some v => Some v
              | None => Proto_Options a !! k
              end.
Proof.
  rewrite Append_eq. cbn. split; [done|]. split; [done|].
  intros k. rewrite lookup_union.
  destruct (Proto_Options b !! k), (Proto_Options a !! k); done.
Qed.

(** Folds start from [Empty], so their results carry its syntax marker and a
    duplicate-free import list; on such fragments a further [Empty] is
    absorbed, and regrouping a fold changes nothing. *)
Section regrouping.
Implicit Types (a b x y acc : Proto) (xs ys : list Proto).

Lemma Append_normal a b :
  Proto_Syntax a = "proto3" -> normal (Append a b).
Proof.
  intros Hsyn. rewrite Append_eq. split; cbn.
  - by rewrite Hsyn.
  - rewrite Unique_dedup. apply NoDup_dedup.
Qed.

Lemma Empty_normal : normal Empty.
Proof. split; [done|constructor]. Qed.

Lemma Append_absorb y x :
  Proto_Syntax y = "proto3" -> Append y (Append Empty x) = Append y x.
Proof.
  intros Hsyn. rewrite !Append_eq.
  cbn [Proto_Syntax Proto_Package Proto_Options Proto_Imports Proto_Enums
       Proto_Messages Proto_Services Empty ct.Empty ProtoMonoid app].
  rewrite Hsyn. f_equal.
  - by rewrite (right_id_L ∅ (∪)).
  - rewrite !Unique_dedup, !dedup_app. f_equal. apply dedup_dedup. set_solver.
Qed.

Lemma foldl_Append_normal acc xs :
  Proto_Syntax acc = "proto3" ->
  Proto_Syntax (foldl Append acc xs) = "proto3".
Proof.
  revert acc. induction xs as [|x xs IH]; intros acc Hacc; [done|].
  cbn [foldl]. apply IH. by apply Append_normal.
Qed.

Lemma Concat_foldl xs : ct.Concat ProtoMonoid xs = foldl Append Empty xs.
Proof. reflexivity. Qed.

Lemma Concat_normal xs : normal (ct.Concat ProtoMonoid xs).
Proof.
  rewrite Concat_foldl.
  destruct xs as [|x xs _] using rev_ind; [apply Empty_normal|].
  rewrite foldl_app. cbn [foldl]. apply Append_normal. by apply foldl_Append_normal.
Qed.

Lemma foldl_Append_Concat acc xs :
  normal acc -> foldl Append acc xs = Append acc (ct.Concat ProtoMonoid xs).
Proof.
  rewrite Concat_foldl. revert acc.
  induction xs as [|x xs IH]; intros acc [Hsyn Hnd]; cbn [foldl].
  - by rewrite Append_Empty_r.
  - rewrite (IH (Append acc x)) by by apply Append_normal.
    rewrite (IH (Append Empty x)) by by apply Append_normal.
    by rewrite <- Append_assoc, Append_absorb.
Qed.

Lemma Concat_app xs ys :
  ct.Concat ProtoMonoid (xs ++ ys)
  = Append (ct.Concat ProtoMonoid xs) (ct.Concat ProtoMonoid ys).
Proof.
  rewrite <- foldl_Append_Concat by apply Concat_normal.
  by rewrite !Concat_foldl, foldl_app.
Qed.

Lemma Concat_regroup (xss : list (list Proto)) :
  ct.Concat ProtoMonoid (ct.Concat ProtoMonoid <$> xss) = ct.Concat ProtoMonoid (mjoin xss).
Proof.
  induction xss as [|xs xss IH]; [done|].
  rewrite fmap_cons. change (mjoin (xs :: xss)) with (xs ++ mjoin xss).
  rewrite Concat_app, <- IH.
  rewrite <- (foldl_Append_Concat _ (ct.Concat ProtoMonoid <$> xss)) by apply Concat_normal.
  rewrite (Concat_foldl (_ :: _)). cbn [foldl].
  destruct (Concat_normal xs) as [Hsyn Hnd]. by rewrite Append_Empty_l.
Qed.

End regrouping.

(** C2 (the code departs from the monoid law of its docstring): [Empty] is
    no identity of [Append] on every fragment.  The enum fragment of a
    package carries no syntax marker; merged with [Empty], on either side,
    it carries [proto3]. *)
Lemma Empty_not_identity :
  Proto_Syntax status_enums = "" /\
  Proto_Syntax (Append Empty status_enums) = "proto3" /\
  Proto_Syntax (Append status_enums Empty) = "proto3" /\
  Append Empty status_enums ≠ status_enums /\
  Append status_enums Empty ≠ status_enums.
Proof.
  repeat split; try (vm_compute; reflexivity).
  - intros Heq. apply (f_equal Proto_Syntax) in Heq. vm_compute in Heq. discriminate.
  - intros Heq. apply (f_equal Proto_Syntax) in Heq. vm_compute in Heq. discriminate.
Qed.

(** X30: [Append] is associative; [Empty] is a two-sided identity on the
    fragments that carry the syntax marker [proto3] and a duplicate-free
    import list, as every result of a fold does; and a fold of folds is the
    fold of the concatenated list, so the grouping of a fold does not change
    the IR. *)
Theorem Append_monoid_laws :
  (forall a b c, Append (Append a b) c = Append a (Append b c)) /\
  (forall x, normal x -> Append Empty x = x /\ Append x Empty = x) /\
  (forall xs, normal (ct.Concat ProtoMonoid xs)) /\
  (forall xss : list (list Proto),
     ct.Concat ProtoMonoid (ct.Concat ProtoMonoid <$> xss)
     = ct.Concat ProtoMonoid (mjoin xss)).
Proof.
  split; [apply Append_assoc|]. split; [|split; [apply Concat_normal|apply Concat_regroup]].
  intros x [Hsyn Hnd]. split; [by apply Append_Empty_l|by apply Append_Empty_r].
Qed.

Lemma Append_monoid_laws_witness :
  normal base_users /\
  Append Empty base_users = base_users /\ Append base_users Empty = base_users.
Proof.
  assert (normal base_users) as Hnormal by (split; [reflexivity|constructor]).
  split; [exact Hnormal|].
  exact (proj1 (proj2 Append_monoid_laws) base_users Hnormal).
Defined.

(** ** Structs: field numbering *)

Section field_numbers.
Variable t : Transformer.
Variables enumLookup typeParamsLookup : gmap string bool.

Local Abbreviation step := (transformStruct_field t enumLookup typeParamsLookup).

Lemma transformField_inferred f num :
  parseProtobufTag (GoField_Tag f) = None ->
  transformField t f num enumLookup typeParamsLookup =
  (let r := transformType t (GoField_Type f) enumLookup typeParamsLookup in
   (Build_ProtoField (toSnakeCase (GoField_Name f)) (protoType r) num (repeated r)
      (isPointerType (GoField_Type f) && isBasicProtoType (protoType r))
      (mapKey r) (mapValue r) (filterNonTagComments (GoField_Comments f)),
    imports r)).
Proof. intros Htag. unfold transformField. by rewrite Htag. Qed.

(** One iteration either leaves the scan as it is or appends one field. *)
Lemma transformStruct_field_cases st f :
  step st f = st \/
  exists pf imps,
    transformField t f (fieldNum st) enumLookup typeParamsLookup = (pf, imps) /\
    considered t f = true /\ ProtoField_Name pf ≠ "" /\
    step st f = Build_FieldScan (msgFields st ++ [pf]) (scanImports st ++ imps)
                  (wrap64 (fieldNum st + 1)).
Proof.
  unfold step, transformStruct_field, considered.
  destruct (negb (GoField_Exported f) && negb _); [by left|].
  destruct (GoField_Embedded f); [by left|].
  destruct (transformField _ _ _ _ _) as [pf imps].
  case_decide; [by left|]. right. by exists pf, imps.
Qed.

Lemma field_scan_dense fields st :
  (forall f, f ∈ fields -> tagOverrides t f = false) ->
  ProtoField_Number <$> msgFields st = seqZ 1 (Z.of_nat (length (msgFields st))) ->
  fieldNum st = Z.of_nat (length (msgFields st)) + 1 ->
  Z.of_nat (length (msgFields st)) + Z.of_nat (length fields) < 2 ^ 63 - 1 ->
  let st' := foldl step st fields in
  ProtoField_Number <$> msgFields st' = seqZ 1 (Z.of_nat (length (msgFields st'))).
Proof.
  revert st. induction fields as [|f fields IH]; intros st Htags Hnum Hnext Hlen; [done|].
  cbn [foldl]. cbn [length] in Hlen.
  assert (forall g, g ∈ fields -> tagOverrides t g = false) as Htags'
    by (intros g Hg; apply Htags; by right).
  destruct (transformStruct_field_cases st f) as [->|(pf & imps & Hpf & Hcons & Hname & ->)].
  { apply IH; [done..|lia]. }
  assert (ProtoField_Number pf = fieldNum st) as Hpfnum.
  { unfold transformField in Hpf.
    destruct (parseProtobufTag (GoField_Tag f)) as [tag|] eqn:Htag.
    - exfalso. injection Hpf as <- _.
      specialize (Htags f (list_elem_of_here _ _)). unfold tagOverrides in Htags.
      rewrite Hcons, Htag in Htags. cbn in Htags.
      apply negb_false_iff, bool_decide_eq_true in Htags. done.
    - by injection Hpf as <- _. }
  apply IH; cbn [msgFields fieldNum]; [done| | |].
  - rewrite fmap_app, length_app, Hnum. cbn [fmap list_fmap length].
    rewrite Nat2Z.inj_add, seqZ_app by lia.
    rewrite Hpfnum, Hnext. f_equal.
    change (Z.of_nat 1) with 1. rewrite seqZ_cons, seqZ_nil by lia. f_equal. lia.
  - rewrite length_app. cbn [length]. rewrite wrap64_small by lia. lia.
  - rewrite length_app. cbn [length]. lia.
Qed.

End field_numbers.

(** C3 (as stated, refuted): a field whose wire-tag annotation names the
    number 5 is emitted with that number, and the field after it with 2. *)
Lemma tagged_field_keeps_its_number :
  exists m, Proto_Messages (transformStruct (NewTransformer DefaultOptions) account ∅) = [m]
            /\ numbers m = [5; 2] /\ ~ dense_numbers m.
Proof.
  eexists. split; [vm_compute; reflexivity|]. split; [reflexivity|].
  unfold dense_numbers. vm_compute. discriminate.
Qed.


(** ** Structs: wire-tag annotations *)

Lemma parseProtobufTag_None (tag : string) :
  parseProtobufTag tag = None <->
  tag = "" \/
  FindStringSubmatch (gostrings.Trim tag "`") = None \/
  exists body, FindStringSubmatch (gostrings.Trim tag "`") = Some body /\
               (length (gostrings.Split body ",") < 3)%nat.
Proof.
  unfold parseProtobufTag. case_decide as Htag; [naive_solver|].
  destruct (FindStringSubmatch _) as [body|]; [|naive_solver].
  destruct (length (gostrings.Split body ",") <? 3)%nat eqn:Hlen.
  - apply Nat.ltb_lt in Hlen. naive_solver.
  - apply Nat.ltb_ge in Hlen. split; [done|].
    intros [?|[?|(body' & [= <-] & ?)]]; [done..|lia].
Qed.

(** C5 (as stated, refuted): an annotation with three parts but neither a
    number nor a name is not ignored.  The field is dropped, where the same
    field without a tag is emitted as [int64 count = 1]; with a name and no
    number it is emitted from the annotation, with the number 0. *)
Lemma nameless_annotation_drops_field :
  (exists tag, parseProtobufTag (GoField_Tag count_without_name) = Some tag
               /\ ProtoField_Name tag = "" /\ ProtoField_Number tag = 0) /\
  ~ annotation_ignored (NewTransformer DefaultOptions) count_without_name /\
  (ProtoMessage_Fields <$>
     Proto_Messages (transformStruct (NewTransformer DefaultOptions)
                       (struct_of [count_without_name]) ∅)) = [[]] /\
  (ProtoMessage_Fields <$>
     Proto_Messages (transformStruct (NewTransformer DefaultOptions)
                       (struct_of [untagged count_without_name]) ∅))
    = [[Build_ProtoField "count" "int64" 1 false false "" "" []]] /\
  (ProtoMessage_Fields <$>
     Proto_Messages (transformStruct (NewTransformer DefaultOptions)
                       (struct_of [count_without_number]) ∅))
    = [[Build_ProtoField "count" "int64" 0 false true "" "" []]].
Proof.
  split; [eexists; split; [vm_compute; reflexivity|split; reflexivity]|].
  split; [|repeat split; vm_compute; reflexivity].
  intros Hign. specialize (Hign (Build_FieldScan [] [] 1) ∅ ∅).
  vm_compute in Hign. discriminate Hign.
Qed.

(** C5 (amended): an annotation the tag parser rejects (no [protobuf] key
    with a non-empty quoted value, or fewer than three comma-separated parts)
    is ignored: the field is emitted by resolver inference with the number
    the loop has reached, and the struct yields the fragment it yields
    without that tag. *)
Theorem rejected_annotation_ignored (t : Transformer) (f : GoField) :
  parseProtobufTag (GoField_Tag f) = None ->
  (forall num enumLookup typeParamsLookup,
     transformField t f num enumLookup typeParamsLookup
       = transformField t (untagged f) num enumLookup typeParamsLookup /\
     ProtoField_Number (transformField t f num enumLookup typeParamsLookup).1 = num /\
     ProtoField_Type (transformField t f num enumLookup typeParamsLookup).1
       = protoType (transformType t (GoField_Type f) enumLookup typeParamsLookup)) /\
  annotation_ignored t f /\
  (forall name before after comments tags typeParams enumLookup,
     transformStruct t
       (Build_GoStruct name (before ++ f :: after) comments tags typeParams) enumLookup
     = transformStruct t
         (Build_GoStruct name (before ++ untagged f :: after) comments tags typeParams)
         enumLookup).
Proof.
  intros Htag.
  assert (forall num el tp,
            transformField t f num el tp = transformField t (untagged f) num el tp) as Hfield.
  { intros num el tp. rewrite (transformField_inferred t el tp f num Htag).
    rewrite (transformField_inferred t el tp (untagged f) num) by done.
    by destruct f. }
  assert (annotation_ignored t f) as Hign.
  { intros st el tp. unfold transformStruct_field. rewrite Hfield. by destruct f. }
  split; [|split; [done|]].
  - intros num el tp. split; [apply Hfield|].
    by rewrite (transformField_inferred t el tp f num Htag).
  - intros name before after comments tags typeParams el.
    unfold transformStruct. cbn [GoStruct_Tags GoStruct_Name GoStruct_Fields
                                  GoStruct_TypeParams GoStruct_Comments].
    rewrite !foldl_app. cbn [foldl]. by rewrite Hign.
Qed.

Lemma rejected_annotation_ignored_witness :
  parseProtobufTag (GoField_Tag count_two_parts) = None /\
  transformStruct (NewTransformer DefaultOptions) (struct_of [count_two_parts]) ∅
  = transformStruct (NewTransformer DefaultOptions)
      (struct_of [untagged count_two_parts]) ∅.
Proof.
  split; [vm_compute; reflexivity|].
  apply (proj2 (proj2 (rejected_annotation_ignored (NewTransformer DefaultOptions)
                         count_two_parts ltac:(vm_compute; reflexivity)))
           "Stats" [] [] [] ∅ [] ∅).
Defined.

(** ** Structs: byte slices and pointers *)

(** C8 (as stated, refuted): a field of the type slice of [byte] with the
    wire-tag annotation [varint,1,rep,name=data] is emitted as a repeated
    [int64]; and a slice whose element type is written [uint8] resolves to
    a repeated [uint32]. *)
Lemma tagged_byte_slice_is_repeated :
  GoField_Type (Build_GoField "Data" (SliceType (BasicType "byte"))
                  (protobuf_tag "varint,1,rep,name=data") false [] true)
  = SliceType (BasicType "byte") /\
  Proto_Messages
    (transformStruct (NewTransformer DefaultOptions)
       (struct_of [Build_GoField "Data" (SliceType (BasicType "byte"))
                     (protobuf_tag "varint,1,rep,name=data") false [] true]) ∅)
  = [Build_ProtoMessage "Stats" [Build_ProtoField "data" "int64" 1 true false "" "" []]
       [] [] []] /\
  transformType (NewTransformer DefaultOptions) (SliceType (BasicType "uint8")) ∅ ∅
  = Build_Resolved "uint32" [] true false "" "".
Proof. vm_compute. done. Qed.

(** C8 (amended): the resolver maps a slice whose element type is written
    [byte] to [bytes] without the repeated flag, in every context, and a
    field of that type emitted by inference carries this type and no
    repeated flag; a field emitted from its wire-tag annotation is the
    field of the annotation, type and label included. *)
Theorem byte_slice_is_bytes (t : Transformer) (f : GoField) (num : Z)
    (enumLookup typeParamsLookup : gmap string bool) :
  GoField_Type f = SliceType (BasicType "byte") ->
  transformType t (GoField_Type f) enumLookup typeParamsLookup = resolved "bytes" [] /\
  (parseProtobufTag (GoField_Tag f) = None ->
   ProtoField_Type (transformField t f num enumLookup typeParamsLookup).1 = "bytes" /\
   ProtoField_Repeated (transformField t f num enumLookup typeParamsLookup).1 = false) /\
  (forall tag,
     parseProtobufTag (GoField_Tag f) = Some tag ->
     transformField t f num enumLookup typeParamsLookup = (tag, [])).
Proof.
  intros Htype. split; [|split].
  - by rewrite Htype.
  - intros Htag. rewrite (transformField_inferred t _ _ f num Htag).
    by rewrite Htype.
  - intros tag Htag. unfold transformField. by rewrite Htag.
Qed.

Lemma byte_slice_is_bytes_witness :
  (transformField (NewTransformer DefaultOptions)
     (Build_GoField "Payload" (SliceType (BasicType "byte")) "" false [] true) 1 ∅ ∅).1
  = Build_ProtoField "payload" "bytes" 1 false false "" "" [] /\
  ProtoField_Repeated
    (transformField (NewTransformer DefaultOptions)
       (Build_GoField "Payload" (SliceType (BasicType "byte")) "" false [] true) 1 ∅ ∅).1
  = false.
Proof.
  split; [vm_compute; reflexivity|].
  apply (proj1 (proj2 (byte_slice_is_bytes (NewTransformer DefaultOptions)
                         (Build_GoField "Payload" (SliceType (BasicType "byte")) "" false []
                            true)
                         1 ∅ ∅ eq_refl))).
  vm_compute. reflexivity.
Defined.


(** The messages of a fold are those of its fragments, in order. *)
Section messages_of_folds.

Lemma Proto_Messages_Append (a b : Proto) :
  Proto_Messages (Append a b) = Proto_Messages a ++ Proto_Messages b.
Proof. by rewrite Append_eq. Qed.

Lemma Proto_Messages_foldl {A : Type} (f : A -> Proto) (xs : list A) (init : Proto) :
  Proto_Messages (foldl (fun result x => ct.Append ProtoMonoid result (f x)) init xs)
  = Proto_Messages init ++ mjoin ((fun x => Proto_Messages (f x)) <$> xs).
Proof.
  revert init. induction xs as [|x xs IH]; intros init; cbn [foldl].
  - rewrite fmap_nil. symmetry. apply app_nil_r.
  - rewrite IH, fmap_cons. fold (Append init (f x)).
    rewrite Proto_Messages_Append, <- app_assoc. reflexivity.
Qed.

Lemma Proto_Messages_FoldMap {A : Type} (f : A -> Proto) (xs : list A) :
  Proto_Messages (ct.FoldMap xs ProtoMonoid f)
  = mjoin ((fun x => Proto_Messages (f x)) <$> xs).
Proof. unfold ct.FoldMap. by rewrite Proto_Messages_foldl. Qed.

Lemma Proto_Messages_Concat (xs : list Proto) :
  Proto_Messages (ct.Concat ProtoMonoid xs) = mjoin (Proto_Messages <$> xs).
Proof. unfold ct.Concat. by rewrite (Proto_Messages_foldl (fun x => x)). Qed.

End messages_of_folds.

(** No message the engine emits is named like a scalar type. *)
Section message_names.
Variable t : Transformer.

Lemma isBasicProtoType_shape (x : string) :
  isBasicProtoType x = true -> startsLower x = true /\ has_R x = false.
Proof.
  unfold isBasicProtoType. intros Hx. apply bool_decide_eq_true in Hx.
  repeat (apply elem_of_cons in Hx as [->|Hx]; [by split|]).
  by apply elem_of_nil in Hx.
Qed.

Lemma has_R_app (a b : string) : has_R (a +:+ b) = has_R a || has_R b.
Proof. induction a as [|c a IH]; simpl; [done|]. by rewrite IH, orb_assoc. Qed.

Lemma envelope_not_basic (methodName suffix : string) :
  has_R suffix = true -> isBasicProtoType (methodName +:+ suffix) = false.
Proof.
  intros Hsuffix. destruct (isBasicProtoType _) eqn:Hbasic; [|done].
  apply isBasicProtoType_shape in Hbasic as [_ HR].
  rewrite has_R_app, Hsuffix, orb_true_r in HR. done.
Qed.

Lemma transformStruct_names s enumLookup m :
  m ∈ Proto_Messages (transformStruct t s enumLookup) ->
  isBasicProtoType (ProtoMessage_Name m) = false.
Proof.
  unfold transformStruct. case_decide; [by intros ?%elem_of_nil|].
  destruct (startsLower (GoStruct_Name s)) eqn:Hlower; [by intros ?%elem_of_nil|].
  cbn [Proto_Messages]. intros ->%list_elem_of_singleton. cbn [ProtoMessage_Name].
  destruct (isBasicProtoType _) eqn:Hbasic; [|done].
  apply isBasicProtoType_shape in Hbasic as [Hl _]. congruence.
Qed.

Lemma transformMethod_names m serviceName msg :
  reqMsg (transformMethod t m serviceName) = Some msg \/
  respMsg (transformMethod t m serviceName) = Some msg ->
  isBasicProtoType (ProtoMessage_Name msg) = false.
Proof.
  unfold transformMethod.
  destruct (ct.Filter (GoMethod_Params m) notContext) as [|p [|p' params]];
    destruct (ct.Filter (GoMethod_Results m) notError) as [|r [|r' results]];
    repeat match goal with
      | |- context [match GoParam_Type ?x with _ => _ end] => destruct (GoParam_Type x)
      | |- context [match ?e with
                    | BasicType _ => _ | PointerType _ => _ | SliceType _ => _
                    | ArrayType _ _ => _ | MapType _ _ => _ | NamedType _ _ => _
                    | InterfaceType _ => _ | StructType _ => _ | ChanType _ _ => _
                    | FuncType _ _ => _ end] => destruct e
      end;
    cbn [reqMsg respMsg]; intros [Hmsg|Hmsg]; try discriminate Hmsg;
    injection Hmsg as <-; by apply envelope_not_basic.
Qed.

Lemma transformInterface_names i m :
  m ∈ Proto_Messages (transformInterface t i) ->
  isBasicProtoType (ProtoMessage_Name m) = false.
Proof.
  unfold transformInterface. destruct (negb _ && negb _); [by intros ?%elem_of_nil|].
  cbn [Proto_Messages].
  assert (forall methods st,
            (forall x, x ∈ scanMessages st -> isBasicProtoType (ProtoMessage_Name x) = false) ->
            forall x, x ∈ scanMessages
                            (foldl (transformInterface_method t (GoInterface_Name i)) st methods) ->
                      isBasicProtoType (ProtoMessage_Name x) = false) as Hfold.
  { induction methods as [|m' methods IH]; intros st Hst; [done|].
    cbn [foldl]. apply IH. unfold transformInterface_method. cbn [scanMessages].
    intros x Hx.
    destruct (reqMsg _) as [req|] eqn:Hreq, (respMsg _) as [resp|] eqn:Hresp;
      repeat (apply elem_of_app in Hx as [Hx|Hx]);
      try (apply list_elem_of_singleton in Hx as ->);
      eauto using transformMethod_names. }
  apply Hfold. cbn. by intros x ?%elem_of_nil.
Qed.

Lemma transformPackage_names pkg m :
  m ∈ Proto_Messages (transformPackage t pkg) ->
  isBasicProtoType (ProtoMessage_Name m) = false.
Proof.
  unfold transformPackage. rewrite Proto_Messages_Concat.
  rewrite !fmap_cons, fmap_nil, !Proto_Messages_FoldMap.
  intros (ms & Hm & Hms)%list_elem_of_join.
  repeat (apply elem_of_cons in Hms as [->|Hms]); [by apply elem_of_nil in Hm..| | |];
    [| |by apply elem_of_nil in Hms].
  - apply list_elem_of_join in Hm as (ms & Hm & Hms).
    apply list_elem_of_fmap in Hms as (s & -> & _). eauto using transformStruct_names.
  - apply list_elem_of_join in Hm as (ms & Hm & Hms).
    apply list_elem_of_fmap in Hms as (i & -> & _). eauto using transformInterface_names.
Qed.

Lemma Transform_names pkgs m :
  m ∈ Proto_Messages (Transform t pkgs) ->
  isBasicProtoType (ProtoMessage_Name m) = false.
Proof.
  unfold Transform. rewrite Proto_Messages_FoldMap.
  intros (ms & Hm & Hms)%list_elem_of_join.
  apply list_elem_of_fmap in Hms as (pkg & -> & _). eauto using transformPackage_names.
Qed.

End message_names.

(** C6: a pointer field emitted by inference carries the type the resolver
    gives for it and is optional exactly when that type is a scalar; it is
    not optional when that type is the name of a message the engine emits. *)
Theorem pointer_optional_iff_scalar (t : Transformer) (f : GoField) (num : Z)
    (enumLookup typeParamsLookup : gmap string bool) :
  isPointerType (GoField_Type f) = true ->
  parseProtobufTag (GoField_Tag f) = None ->
  let pf := (transformField t f num enumLookup typeParamsLookup).1 in
  ProtoField_Type pf = protoType (transformType t (GoField_Type f) enumLookup typeParamsLookup) /\
  (ProtoField_Optional pf = true <-> isBasicProtoType (ProtoField_Type pf) = true) /\
  (forall t' pkgs m,
     m ∈ Proto_Messages (Transform t' pkgs) ->
     ProtoField_Type pf = ProtoMessage_Name m ->
     ProtoField_Optional pf = false).
Proof.
  intros Hptr Htag pf. subst pf.
  rewrite (transformField_inferred t _ _ f num Htag).
  cbn [fst ProtoField_Type ProtoField_Optional]. rewrite Hptr. cbn [andb].
  split; [done|]. split; [done|].
  intros t' pkgs m Hm ->. by eapply Transform_names.
Qed.

Lemma pointer_optional_iff_scalar_witness :
  ProtoField_Optional
    (transformField (NewTransformer DefaultOptions)
       (Build_GoField "Nick" (PointerType (BasicType "string")) "" false [] true) 1 ∅ ∅).1
  = true /\
  ProtoField_Optional
    (transformField (NewTransformer DefaultOptions)
       (Build_GoField "Owner" (PointerType (NamedType "" "User")) "" false [] true) 2 ∅ ∅).1
  = false.
Proof.
  split.
  - apply (proj1 (proj2 (pointer_optional_iff_scalar (NewTransformer DefaultOptions)
                           (Build_GoField "Nick" (PointerType (BasicType "string")) ""
                              false [] true) 1 ∅ ∅ eq_refl eq_refl))).
    vm_compute. reflexivity.
  - vm_compute. reflexivity.
Defined.

(** ** Services *)

(** C7: for [GetUser(ctx context.Context, id string)] with the results
    [*User] and [error], under the default type mappings, the context
    parameter and the error result are dropped, [GetUserRequest] is
    synthesized with the single field [id] numbered 1, and the result [*User]
    is reused as [User]: no response message, no import. *)
Theorem GetUser_rpc (packageName goPackage serviceSuffix serviceName : string)
    (includePrivate : bool) (known : gmap string bool) :
  transformMethod
    (Build_Transformer
       (Build_TransformOptions packageName goPackage defaultTypeMappings includePrivate
          serviceSuffix) known)
    GetUser serviceName
  = Build_MethodResult
      (Build_ProtoRPC "GetUser" "GetUserRequest" "User" false false [])
      (Some (Build_ProtoMessage "GetUserRequest"
               [Build_ProtoField "id" "string" 1 false false "" "" []] [] [] []))
      None [].
Proof. vm_compute. reflexivity. Qed.

Section envelopes.
Variable t : Transformer.

Lemma envelopeField_type fallback params k p :
  params !! k = Some p ->
  exists fld, imap (envelopeField t fallback) params !! k = Some fld /\
              ProtoField_Type fld = protoType (transformType t (GoParam_Type p) ∅ ∅) /\
              ProtoField_Number fld = wrap64 (Z.of_nat k + 1).
Proof.
  intros Hp. eexists. rewrite list_lookup_imap, Hp. cbn. split; [reflexivity|]. done.
Qed.

Lemma transformMethod_imports m serviceName imp :
  imp ∈ methodImports (transformMethod t m serviceName) ->
  imp = "google/protobuf/empty.proto".
Proof.
  unfold transformMethod.
  destruct (ct.Filter (GoMethod_Params m) notContext) as [|p [|p' params]];
    destruct (ct.Filter (GoMethod_Results m) notError) as [|r [|r' results]];
    repeat match goal with
      | |- context [match GoParam_Type ?x with _ => _ end] => destruct (GoParam_Type x)
      | |- context [match ?e with
                    | BasicType _ => _ | PointerType _ => _ | SliceType _ => _
                    | ArrayType _ _ => _ | MapType _ _ => _ | NamedType _ _ => _
                    | InterfaceType _ => _ | StructType _ => _ | ChanType _ _ => _
                    | FuncType _ _ => _ end] => destruct e
      end;
    cbn [methodImports app]; intros Himp;
    repeat (apply elem_of_cons in Himp as [->|Himp]; [reflexivity|]);
    by apply elem_of_nil in Himp.
Qed.

Lemma transformInterface_imports i imp :
  imp ∈ Proto_Imports (transformInterface t i) -> imp = "google/protobuf/empty.proto".
Proof.
  unfold transformInterface. destruct (negb _ && negb _); [by intros ?%elem_of_nil|].
  cbn [Proto_Imports]. rewrite Unique_dedup, elem_of_dedup. intros [Himp _]. revert Himp.
  assert (forall methods st,
            (forall x, x ∈ methodScanImports st -> x = "google/protobuf/empty.proto") ->
            forall x, x ∈ methodScanImports
                            (foldl (transformInterface_method t (GoInterface_Name i)) st methods) ->
                      x = "google/protobuf/empty.proto") as Hfold.
  { induction methods as [|m methods IH]; intros st Hst; [done|].
    cbn [foldl]. apply IH. unfold transformInterface_method. cbn [methodScanImports].
    intros x [Hx|Hx]%elem_of_app; eauto using transformMethod_imports. }
  apply Hfold. cbn. by intros x ?%elem_of_nil.
Qed.

End envelopes.

(** C10: every field of a synthesized request or response message has the
    type the resolver gives for the parameter or result under empty enum and
    generic-parameter contexts, and neither a method nor the fragment of its
    interface carries any import but that of the empty message: the imports of
    the resolved types are discarded. *)
Theorem envelope_imports_discarded (t : Transformer) :
  (forall methodName params k p,
     params !! k = Some p ->
     exists fld,
       ProtoMessage_Fields (generateRequestMessage t methodName params) !! k = Some fld /\
       ProtoField_Type fld = protoType (transformType t (GoParam_Type p) ∅ ∅)) /\
  (forall methodName results k r,
     results !! k = Some r ->
     exists fld,
       ProtoMessage_Fields (generateResponseMessage t methodName results) !! k = Some fld /\
       ProtoField_Type fld = protoType (transformType t (GoParam_Type r) ∅ ∅)) /\
  (forall m serviceName imp,
     imp ∈ methodImports (transformMethod t m serviceName) ->
     imp = "google/protobuf/empty.proto") /\
  (forall i imp,
     imp ∈ Proto_Imports (transformInterface t i) -> imp = "google/protobuf/empty.proto").
Proof.
  split; [|split; [|split]].
  - intros methodName params k p Hp.
    destruct (envelopeField_type t "arg" params k p Hp) as (fld & ? & ? & _). by exists fld.
  - intros methodName results k r Hr.
    destruct (envelopeField_type t "result" results k r Hr) as (fld & ? & ? & _). by exists fld.
  - apply transformMethod_imports.
  - apply transformInterface_imports.
Qed.

Lemma envelope_imports_discarded_witness :
  (ProtoField_Type <$>
     mjoin (ProtoMessage_Fields <$>
              Proto_Messages (transformInterface (NewTransformer DefaultOptions) Scheduler)))
  = ["google.protobuf.Timestamp"; "google.protobuf.Duration";
     "google.protobuf.Timestamp"; "bool"] /\
  Proto_Imports (transformInterface (NewTransformer DefaultOptions) Scheduler) = [] /\
  "google/protobuf/timestamp.proto"
    ∉ Proto_Imports (transformInterface (NewTransformer DefaultOptions) Scheduler).
Proof.
  split; [vm_compute; reflexivity|]. split; [vm_compute; reflexivity|].
  intros Himp.
  apply (proj2 (proj2 (proj2 (envelope_imports_discarded (NewTransformer DefaultOptions))))) in Himp.
  discriminate Himp.
Defined.

(** The embedding on the package of the README: the messages, their fields,
    the enum, the service and the import the README lists. *)
Example readme_example :
  let p := Transform (NewTransformer DefaultOptions) [models] in
  Proto_Package p = "example.models" /\
  Proto_Imports p = ["google/protobuf/timestamp.proto"] /\
  (fun e => (ProtoEnum_Name e,
             (fun v => (ProtoEnumValue_Name v, ProtoEnumValue_Number v))
               <$> ProtoEnum_Values e)) <$> Proto_Enums p
  = [("Status", [("STATUS_UNKNOWN", 0); ("STATUS_ACTIVE", 1); ("STATUS_INACTIVE", 2)])] /\
  (fun m => (ProtoMessage_Name m,
             (fun f => (ProtoField_Type f, ProtoField_Name f, ProtoField_Number f))
               <$> ProtoMessage_Fields m)) <$> Proto_Messages p
  = [("User", [("string", "id", 1); ("string", "email", 2); ("Status", "status", 3);
               ("google.protobuf.Timestamp", "created_at", 4)]);
     ("GetUserRequest", [("string", "id", 1)])] /\
  (fun s => (ProtoService_Name s,
             (fun r => (ProtoRPC_Name r, ProtoRPC_InputType r, ProtoRPC_OutputType r))
               <$> ProtoService_Methods s)) <$> Proto_Services p
  = [("UserService", [("GetUser", "GetUserRequest", "User")])].
Proof. vm_compute. repeat split. Qed.

(** ** Runs of the engine *)

Section determinism.
Variable t : Transformer.

Lemma fold_run_eq {A : Type} (f : A -> Proto -> Prop) (g : A -> Proto) xs init final :
  (forall x fx, f x fx -> fx = g x) ->
  fold_run f init xs final ->
  final = foldl (fun result x => ct.Append ProtoMonoid result (g x)) init xs.
Proof.
  intros Hf Hrun. induction Hrun as [|result x xs fx result' final Hfx Happ _ IH]; [done|].
  cbn [foldl]. apply Hf in Hfx as ->. apply Append_run_eq in Happ as ->. exact IH.
Qed.

Lemma fold_run_total {A : Type} (f : A -> Proto -> Prop) (g : A -> Proto) xs init :
  (forall x, f x (g x)) ->
  fold_run f init xs (foldl (fun result x => ct.Append ProtoMonoid result (g x)) init xs).
Proof.
  intros Hf. revert init. induction xs as [|x xs IH]; intros init; [constructor|].
  cbn [foldl]. econstructor; [apply Hf|apply Append_run_total|apply IH].
Qed.

Lemma transformPackage_run_eq pkg final :
  transformPackage_run t pkg final -> final = transformPackage t pkg.
Proof.
  intros [messages services final' enumLookup Hmsgs Hsvcs Hfinal].
  apply (fold_run_eq _ (fun s => transformStruct t s enumLookup)) in Hmsgs; [|done].
  apply (fold_run_eq _ (fun i => transformInterface t i)) in Hsvcs; [|done].
  apply (fold_run_eq _ (fun x => x)) in Hfinal; [|done].
  by subst.
Qed.

Lemma transformPackage_run_total pkg : transformPackage_run t pkg (transformPackage t pkg).
Proof.
  econstructor.
  - apply (fold_run_total _ (fun s => transformStruct t s (buildEnumLookup t pkg))). done.
  - apply (fold_run_total _ (fun i => transformInterface t i)). done.
  - apply (fold_run_total _ (fun x => x)). done.
Qed.

(** Every run ends in the value of the functional model, and there is one. *)
Lemma Transform_run_eq pkgs final : Transform_run t pkgs final -> final = Transform t pkgs.
Proof. apply fold_run_eq. apply transformPackage_run_eq. Qed.

Lemma Transform_run_total pkgs : Transform_run t pkgs (Transform t pkgs).
Proof. apply fold_run_total. apply transformPackage_run_total. Qed.

End determinism.

(** C9: two runs of the engine on the same packages with the same options,
    whatever order each of them visits its maps in, end in IR values with the
    same syntax, package, options, enums, messages and services, and with the
    same imports up to their order. *)
Theorem Transform_deterministic (t : Transformer) (pkgs : list GoPackage) (p q : Proto) :
  Transform_run t pkgs p -> Transform_run t pkgs q -> same_up_to_imports p q.
Proof.
  intros ->%Transform_run_eq ->%Transform_run_eq.
  unfold same_up_to_imports. by repeat split.
Qed.

Lemma Transform_deterministic_witness :
  Transform_run (NewTransformer DefaultOptions) [models]
    (Transform (NewTransformer DefaultOptions) [models]) /\
  same_up_to_imports (Transform (NewTransformer DefaultOptions) [models])
                     (Transform (NewTransformer DefaultOptions) [models]).
Proof.
  split; [apply Transform_run_total|].
  apply (Transform_deterministic (NewTransformer DefaultOptions) [models]);
    apply Transform_run_total.
Defined.

(** ** Enums: the constant-group scan *)

Section const_scan.
Implicit Types (st : ConstScan) (groups : gmap string GoConstGroup)
               (values : list GoConstValue) (names : list string).

(** The loop over the names only appends values. *)
Lemma extractNames_appends doc names i values :
  exists suffix, (extractNames doc names i values).2 = values ++ suffix.
Proof.
  unfold extractNames. revert i values.
  induction names as [|n names IH]; intros i values; cbn [foldl].
  - exists []. by rewrite app_nil_r.
  - destruct (negb (IsExported n)).
    + apply IH.
    + destruct (IH (wrap64 (i + 1)) (values ++ [Build_GoConstValue n i doc])) as [suffix ->].
      eexists. by rewrite <- app_assoc.
Qed.

(** Unexported names advance the counter and record nothing. *)
Lemma extractNames_unexported doc names i values :
  Forall (fun n => IsExported n = false) names ->
  0 <= i -> i + Z.of_nat (length names) < 2 ^ 63 ->
  extractNames doc names i values = (i + Z.of_nat (length names), values).
Proof.
  unfold extractNames. revert i.
  induction names as [|n names IH]; intros i Hnames Hi Hlen; cbn [foldl length].
  - f_equal. lia.
  - apply Forall_cons in Hnames as [Hn Hnames]. cbn [length] in Hlen.
    rewrite Hn. cbn [negb]. rewrite wrap64_small by lia.
    rewrite IH by (done || lia). f_equal. lia.
Qed.

Lemma extractNames_app doc names1 names2 i values :
  extractNames doc (names1 ++ names2) i values
  = extractNames doc names2 (extractNames doc names1 i values).1
                             (extractNames doc names1 i values).2.
Proof.
  unfold extractNames. rewrite foldl_app.
  by destruct (foldl _ (i, values) names1).
Qed.

(** The first value recorded by a spec whose first exported name follows
    [unexported]. *)
Lemma extractNames_first doc unexported name names :
  Forall (fun n => IsExported n = false) unexported ->
  IsExported name = true ->
  Z.of_nat (length unexported) < 2 ^ 63 ->
  head (extractNames doc (unexported ++ name :: names) 0 []).2
  = Some (Build_GoConstValue name (Z.of_nat (length unexported)) doc).
Proof.
  intros Hunexp Hname Hlen.
  rewrite extractNames_app.
  rewrite (extractNames_unexported doc unexported 0 []) by (assumption || lia).
  cbn [fst snd]. unfold extractNames. cbn [foldl]. rewrite Hname. cbn [negb app].
  destruct (extractNames_appends doc names (wrap64 (0 + Z.of_nat (length unexported) + 1))
              [Build_GoConstValue name (0 + Z.of_nat (length unexported)) doc])
    as [suffix Hsuffix].
  unfold extractNames in Hsuffix. rewrite Hsuffix. cbn. do 2 f_equal.
Qed.


(** A recorded first value stays first. *)
Lemma extractSpec_first_value st spec T v :
  first_value (groups st) T = Some v -> first_value (groups (extractSpec st spec)) T = Some v.
Proof.
  intros Hfirst. destruct spec as [vs|]; [|done]. unfold extractSpec.
  set (st1 := match ValueSpec_Type vs with Some (Ident _) => _ | _ => st end).
  assert (groups st1 = groups st) as Hgroups.
  { subst st1. destruct (ValueSpec_Type vs) as [[name|]|]; [|done..]. by case_decide. }
  case_decide; [by rewrite Hgroups|].
  destruct (extractNames _ _ _ _) as [iota' values'] eqn:Hnames. cbn [groups].
  unfold first_value in *. rewrite lookup_insert. case_decide as Hk.
  - subst T. rewrite Hgroups in *. cbn [mbind option_bind GoConstGroup_Values].
    destruct (groups st !! currentType st1) as [g0|] eqn:Hg0; [|done].
    cbn [mbind option_bind] in Hfirst.
    destruct (extractNames_appends (ValueSpec_Doc vs) (ValueSpec_Names vs) (iotaValue st1)
                (GoConstGroup_Values g0)) as [suffix Hsuffix].
    rewrite Hnames in Hsuffix. cbn [snd] in Hsuffix. subst values'.
    destruct (GoConstGroup_Values g0); [done|]. exact Hfirst.
  - by rewrite Hgroups.
Qed.


Lemma foldl_extractSpec_first_value specs st T v :
  first_value (groups st) T = Some v ->
  first_value (groups (foldl extractSpec st specs)) T = Some v.
Proof.
  revert st. induction specs as [|spec specs IH]; intros st Hfirst; [done|].
  cbn [foldl]. by apply IH, extractSpec_first_value.
Qed.





(** A block that opens with a spec of type [T], for which nothing is
    recorded yet, records as first value of [T] the first exported name of
    that spec, numbered by the unexported names before it. *)
Lemma extractConsts_opening T unexported name names doc rest groups :
  T ≠ "" ->
  (forall g, groups !! T = Some g -> GoConstGroup_Values g = []) ->
  Forall (fun n => IsExported n = false) unexported ->
  IsExported name = true ->
  Z.of_nat (length unexported) < 2 ^ 63 ->
  first_value
    (extractConsts
       (IsValueSpec (Build_ValueSpec (unexported ++ name :: names) (Some (Ident T)) doc)
          :: rest) groups) T
  = Some (Build_GoConstValue name (Z.of_nat (length unexported)) doc).
Proof.
  intros HT Hfresh Hunexp Hname Hlen.
  unfold extractConsts. cbn [foldl]. apply foldl_extractSpec_first_value.
  unfold extractSpec. cbn [ValueSpec_Type ValueSpec_Names ValueSpec_Doc currentType].
  rewrite (decide_False (P := "" = T)) by congruence. cbn [currentType parser.groups iotaValue].
  rewrite (decide_False (P := T = "")) by congruence.
  assert (GoConstGroup_Values
            match groups !! T with
            | Some g => g
            | None => Build_GoConstGroup T []
            end = []) as ->.
  { destruct (groups !! T) as [g|] eqn:Hg; [by apply Hfresh|done]. }
  pose proof (extractNames_first doc unexported name names Hunexp Hname Hlen) as Hhead.
  destruct (extractNames _ _ _ _) as [iota' values']. cbn [snd] in Hhead.
  cbn [parser.groups]. unfold first_value. by rewrite lookup_insert_eq.
Qed.

End const_scan.

Section enums.
Variable t : Transformer.

Lemma foldl_snoc_fmap {A B : Type} (h : A -> B) (xs : list A) (init : list B) :
  foldl (fun acc x => acc ++ [h x]) init xs = init ++ (h <$> xs).
Proof.
  revert init. induction xs as [|x xs IH]; intros init; cbn [foldl].
  - by rewrite fmap_nil, app_nil_r.
  - by rewrite IH, fmap_cons, <- app_assoc.
Qed.



Lemma elem_of_Filter {A : Type} (xs : list A) (pred : A -> bool) (x : A) :
  x ∈ ct.Filter xs pred <-> x ∈ xs /\ pred x = true.
Proof.
  induction xs as [|y xs IH]; cbn [ct.Filter].
  - split; [by intros ?%elem_of_nil|by intros [?%elem_of_nil _]].
  - destruct (pred y) eqn:Hy; rewrite ?elem_of_cons, IH, ?elem_of_cons.
    + split; [intros [->|[? ?]]; auto|intros [[->|?] ?]; auto].
    + split; [intros [? ?]; auto|intros [[->|?] ?]; [congruence|auto]].
Qed.


End enums.




(** * Further properties of the code *)

(** ** Package ct *)

Section ct_laws.
Context {A B : Type}.

Lemma foldl_Map (m : ct.Monoid B) (f : A -> B) (xs : list A) (init : B) :
  foldl (fun result x => ct.Append m result (f x)) init xs
  = foldl (fun result y => ct.Append m result y) init (ct.Map xs f).
Proof.
  revert init. induction xs as [|x xs IH]; intros init; [done|].
  cbn [foldl ct.Map map]. apply IH.
Qed.

Lemma foldl_indexed (m : ct.Monoid B) (f : A -> B) (xs : list A) (i : nat) (init : B) :
  (foldl (fun '(i, result) x => (S i, ct.Append m result (f x))) (i, init) xs).2
  = foldl (fun result x => ct.Append m result (f x)) init xs.
Proof.
  revert i init. induction xs as [|x xs IH]; intros i init; [done|].
  cbn [foldl]. apply IH.
Qed.

(** X1: [FoldMap] is [Map] followed by [Concat], for every monoid record (no
    law is needed), and [FoldMapIndexed] with a function that ignores the
    index is [FoldMap]. *)
Theorem FoldMap_fusion (xs : list A) (m : ct.Monoid B) (f : A -> B) :
  ct.FoldMap xs m f = ct.Concat m (ct.Map xs f) /\
  ct.FoldMapIndexed xs m (fun _ x => f x) = ct.FoldMap xs m f.
Proof.
  split.
  - unfold ct.FoldMap, ct.Concat. apply foldl_Map.
  - unfold ct.FoldMapIndexed, ct.FoldMap. apply foldl_indexed.
Qed.

End ct_laws.

Section unique_spec.
Context {A : Type} `{!EqDecision A, !Countable A}.

Lemma dedup_sublist (s : gset A) (xs : list A) : dedup s xs `sublist_of` xs.
Proof.
  revert s. induction xs as [|x xs IH]; intros s; simpl; [done|].
  case_decide; [by apply sublist_cons|by apply sublist_skip].
Qed.

(** X2: [Unique] keeps the first occurrences, in their order: an element
    put at the end of the list is dropped when it occurs before and kept at
    the end otherwise, which with the empty list determines the result.  So
    the result is a duplicate-free sublist of the argument with the same
    elements, which is the argument itself when that has no duplicates, and
    [Unique] is idempotent. *)
Theorem Unique_first_occurrences (xs : list A) :
  ct.Unique (@nil A) = [] /\
  (forall x, ct.Unique (xs ++ [x])
             = if decide (x ∈ xs) then ct.Unique xs else ct.Unique xs ++ [x]) /\
  NoDup (ct.Unique xs) /\
  ct.Unique xs `sublist_of` xs /\
  (forall x, x ∈ ct.Unique xs <-> x ∈ xs) /\
  (NoDup xs -> ct.Unique xs = xs) /\
  ct.Unique (ct.Unique xs) = ct.Unique xs.
Proof.
  split; [done|]. split.
  { intros x. rewrite !Unique_dedup, dedup_app. cbn [dedup].
    destruct (decide (x ∈ xs)) as [Hx|Hx].
    - rewrite decide_True by set_solver. apply app_nil_r.
    - by rewrite decide_False by set_solver. }
  rewrite !Unique_dedup. repeat split.
  - apply NoDup_dedup.
  - apply dedup_sublist.
  - by intros [? _]%elem_of_dedup.
  - intros Hx. apply elem_of_dedup. set_solver.
  - intros Hnd. apply dedup_NoDup; [done|set_solver].
  - apply dedup_NoDup; [apply NoDup_dedup|set_solver].
Qed.

End unique_spec.

Lemma Unique_first_occurrences_witness :
  ct.Unique ["a.proto"; "b.proto"; "a.proto"] = ct.Unique ["a.proto"; "b.proto"] /\
  ct.Unique ["a.proto"; "b.proto"] = ["a.proto"; "b.proto"].
Proof.
  split.
  - rewrite (proj1 (proj2 (Unique_first_occurrences ["a.proto"; "b.proto"])) "a.proto"
               : ct.Unique ["a.proto"; "b.proto"; "a.proto"] = _).
    apply decide_True. left.
  - apply (proj1 (proj2 (proj2 (proj2 (proj2 (proj2
             (Unique_first_occurrences ["a.proto"; "b.proto"]))))))).
    repeat constructor; set_solver.
Defined.

(** X3: [Coalesce] returns the first value that differs from the zero value,
    and the zero value when there is none. *)
Theorem Coalesce_first_nonzero {A : Type} `{!EqDecision A} (zero : A)
    (zeros : list A) (v : A) (rest : list A) :
  Forall (fun z => z = zero) zeros ->
  (v ≠ zero -> ct.Coalesce zero (zeros ++ v :: rest) = v) /\
  ct.Coalesce zero zeros = zero.
Proof.
  intros Hzeros. induction Hzeros as [|z zeros -> _ [IH1 IH2]]; cbn.
  - split; [|done]. intros Hv. by rewrite decide_False.
  - rewrite !(decide_True (P := zero = zero)) by done. by split.
Qed.

Lemma Coalesce_first_nonzero_witness :
  ct.Coalesce "" [""; ""; "proto3"; "proto2"] = "proto3" /\ ct.Coalesce "" [""; ""] = "".
Proof.
  split.
  - apply (proj1 (Coalesce_first_nonzero "" [""; ""] "proto3" ["proto2"]
                    ltac:(repeat constructor))).
    discriminate.
  - reflexivity.
Defined.

(** ** Names *)

Section bytes.
Implicit Types (s : string) (c : ascii).

Lemma all_bytes_app (P : ascii -> bool) s1 s2 :
  all_bytes P (s1 +:+ s2) = all_bytes P s1 && all_bytes P s2.
Proof. induction s1 as [|c s1 IH]; simpl; [done|]. by rewrite IH, andb_assoc. Qed.

Lemma contains_cons c b s : contains c (String b s) = Ascii.eqb b c || contains c s.
Proof. unfold contains. simpl. by rewrite negb_andb, negb_involutive. Qed.

Lemma contains_app c s1 s2 : contains c (s1 +:+ s2) = contains c s1 || contains c s2.
Proof. unfold contains. by rewrite all_bytes_app, negb_andb. Qed.

Lemma ToLower_not_upper c : gounicode.IsUpper (gounicode.ToLower c) = false.
Proof. destruct c as [[] [] [] [] [] [] [] []]; reflexivity. Qed.

Lemma ToLower_id c : gounicode.IsUpper c = false -> gounicode.ToLower c = c.
Proof. unfold gounicode.ToLower. by intros ->. Qed.

Lemma ToUpper_not_lower c : gounicode.between 97 122 (gounicode.ToUpper c) = false.
Proof. destruct c as [[] [] [] [] [] [] [] []]; reflexivity. Qed.

Lemma strip_prefix_app (p s : string) : gostrings.strip_prefix p (p +:+ s) = Some s.
Proof. induction p as [|c p IH]; simpl; [by destruct s|]. by rewrite Ascii.eqb_refl. Qed.

End bytes.

Section snake_case.

Lemma toSnakeCase_loop_no_upper (s : string) (first prevLower : bool) :
  no_upper (toSnakeCase_loop s first prevLower) = true.
Proof.
  revert first prevLower. induction s as [|r rest IH]; intros first prevLower; [done|].
  cbn [toSnakeCase_loop]. destruct (gounicode.IsUpper r) eqn:Hr.
  - destruct (negb first && _); unfold no_upper; cbn [all_bytes];
      rewrite ToLower_not_upper; cbn; apply IH.
  - unfold no_upper. cbn [all_bytes]. rewrite Hr. cbn. apply IH.
Qed.

Lemma toSnakeCase_loop_fixed (s : string) (first prevLower : bool) :
  no_upper s = true -> toSnakeCase_loop s first prevLower = s.
Proof.
  revert first prevLower. induction s as [|r rest IH]; intros first prevLower Hs; [done|].
  unfold no_upper in Hs. cbn [all_bytes] in Hs. apply andb_true_iff in Hs as [Hr Hrest].
  apply negb_true_iff in Hr. cbn [toSnakeCase_loop]. rewrite Hr. f_equal. by apply IH.
Qed.

Lemma toSnakeCase_head (c : ascii) (rest : string) :
  toSnakeCase (String c rest)
  = String (gounicode.ToLower c)
      (toSnakeCase_loop rest false (negb (gounicode.IsUpper c))).
Proof.
  unfold toSnakeCase. cbn [toSnakeCase_loop]. destruct (gounicode.IsUpper c) eqn:Hc.
  - reflexivity.
  - by rewrite ToLower_id.
Qed.

End snake_case.

(** X4: on an ASCII string, where runes are bytes, [toSnakeCase] leaves no
    upper-case letter, changes nothing in a string that has none (so it is
    idempotent), starts its result with the lower-cased first byte (never
    with an underscore of its own), and yields the empty string for the
    empty string only. *)
Theorem toSnakeCase_lower (s : string) :
  is_ascii s = true ->
  no_upper (toSnakeCase s) = true /\
  (no_upper s = true -> toSnakeCase s = s) /\
  toSnakeCase (toSnakeCase s) = toSnakeCase s /\
  (forall c rest, s = String c rest ->
     exists tail, toSnakeCase s = String (gounicode.ToLower c) tail) /\
  (toSnakeCase s = "" <-> s = "").
Proof.
  intros _.
  assert (no_upper (toSnakeCase s) = true) as Hlow by apply toSnakeCase_loop_no_upper.
  split; [done|]. split; [apply toSnakeCase_loop_fixed|].
  split; [by apply toSnakeCase_loop_fixed|]. split.
  - intros c rest ->. rewrite toSnakeCase_head. by eexists.
  - split; [|by intros ->]. destruct s as [|c rest]; [done|].
    by rewrite toSnakeCase_head.
Qed.

Lemma toSnakeCase_lower_witness :
  toSnakeCase "created_at" = "created_at" /\ toSnakeCase "CreatedAt" = "created_at".
Proof.
  split; [|reflexivity].
  apply (proj1 (proj2 (toSnakeCase_lower "created_at" eq_refl))). reflexivity.
Defined.

(** X5: the name [toEnumValueName] gives an enum value always starts with the
    upper-snake name of the enum type and has no lower-case ASCII letter. *)
Theorem toEnumValueName_prefixed (typeName valueName : string) :
  gostrings.HasPrefix (toEnumValueName typeName valueName)
    (gostrings.ToUpper (toSnakeCase typeName)) = true /\
  no_lower (toEnumValueName typeName valueName) = true.
Proof.
  assert (forall s, no_lower (gostrings.ToUpper s) = true) as Hupper.
  { induction s as [|c s IH]; [done|]. unfold no_lower, gostrings.ToUpper in *.
    cbn [gostrings.map_bytes all_bytes]. by rewrite ToUpper_not_lower, IH. }
  unfold toEnumValueName.
  destruct (gostrings.HasPrefix (gostrings.ToUpper (toSnakeCase valueName)) _) eqn:Hpre.
  - split; [exact Hpre|apply Hupper].
  - split.
    + unfold gostrings.HasPrefix. by rewrite strip_prefix_app.
    + unfold no_lower in *. by rewrite !all_bytes_app, !Hupper.
Qed.

Section proto_package.
Implicit Types (s path : string) (c sep : ascii) (parts : list string).

Lemma Split_nonempty s sep : gostrings.Split s sep ≠ [].
Proof.
  destruct s as [|c r]; [done|]. cbn [gostrings.Split].
  destruct (Ascii.eqb c sep); [done|]. by destruct (gostrings.Split r sep).
Qed.

Lemma Split_parts s sep :
  Forall (fun part => contains sep part = false) (gostrings.Split s sep).
Proof.
  induction s as [|c r IH]; cbn [gostrings.Split]; [by repeat constructor|].
  destruct (Ascii.eqb c sep) eqn:Hc; [by constructor|].
  destruct (gostrings.Split r sep) as [|part parts]; [by repeat constructor; rewrite contains_cons, Hc|].
  apply Forall_cons in IH as [Hpart Hparts]. constructor; [|done].
  by rewrite contains_cons, Hc.
Qed.

Lemma Split_app_sep s1 s2 sep :
  contains sep s1 = false ->
  gostrings.Split (s1 +:+ String sep s2) sep = s1 :: gostrings.Split s2 sep.
Proof.
  induction s1 as [|c r IH]; intros Hs1; simpl.
  - by rewrite Ascii.eqb_refl.
  - rewrite contains_cons in Hs1. apply orb_false_iff in Hs1 as [Hc Hr].
    rewrite Hc. by rewrite IH.
Qed.

Lemma Join_cons part parts (sep : string) :
  parts ≠ [] ->
  gostrings.Join (part :: parts) sep = part +:+ sep +:+ gostrings.Join parts sep.
Proof. by destruct parts. Qed.

Lemma Join_Split s sep (new : ascii) :
  gostrings.Join (gostrings.Split s sep) (String new EmptyString)
  = gostrings.ReplaceAll s sep new.
Proof.
  induction s as [|c r IH]; [done|]. cbn [gostrings.Split].
  unfold gostrings.ReplaceAll in *. cbn [gostrings.map_bytes].
  destruct (Ascii.eqb c sep) eqn:Hc.
  - rewrite Join_cons by apply Split_nonempty. by rewrite IH.
  - pose proof (Split_nonempty r sep) as Hne.
    destruct (gostrings.Split r sep) as [|part parts]; [done|].
    rewrite <- IH. by destruct parts.
Qed.

Lemma Join_clean parts (sep : string) c :
  Forall (fun part => contains c part = false) parts ->
  contains c sep = false ->
  contains c (gostrings.Join parts sep) = false.
Proof.
  intros Hparts Hsep. induction Hparts as [|part parts Hpart Hparts IH]; [done|].
  destruct parts as [|part' parts]; [done|].
  rewrite Join_cons by done. by rewrite !contains_app, Hpart, Hsep, IH.
Qed.

Lemma ReplaceAll_gone s (old new : ascii) :
  old ≠ new -> contains old (gostrings.ReplaceAll s old new) = false.
Proof.
  intros Hne. induction s as [|c r IH]; [done|].
  unfold gostrings.ReplaceAll in *. cbn [gostrings.map_bytes].
  rewrite contains_cons, IH, orb_false_r.
  destruct (Ascii.eqb c old) eqn:Hc; [|done].
  apply Ascii.eqb_neq. congruence.
Qed.

Lemma ReplaceAll_clean s (old new : ascii) c :
  c ≠ new -> contains c s = false -> contains c (gostrings.ReplaceAll s old new) = false.
Proof.
  intros Hne. induction s as [|b r IH]; [done|].
  unfold gostrings.ReplaceAll in *. cbn [gostrings.map_bytes].
  rewrite !contains_cons. intros [Hb Hr]%orb_false_iff. rewrite IH, orb_false_r by done.
  destruct (Ascii.eqb b old); [|done]. apply Ascii.eqb_neq. congruence.
Qed.

(** The parts [toProtoPackage] joins: those after the first code host, or all
    of them. *)
Lemma toProtoPackage_parts path :
  exists parts,
    toProtoPackage path
      = gostrings.ReplaceAll (gostrings.Join parts ".") "-" "_" /\
    parts `suffix_of` gostrings.Split path "/" /\
    ((forall part, part ∈ gostrings.Split path "/" -> part ∉ code_hosts) ->
     parts = gostrings.Split path "/") /\
    (forall host rest, host ∈ code_hosts ->
       gostrings.Split path "/" = host :: rest -> parts = rest).
Proof.
  unfold toProtoPackage.
  match goal with |- context [default _ (?f _)] => set (cut := f) end.
  assert (forall ps, match cut ps with
                     | Some r => exists pre host, ps = pre ++ host :: r /\ host ∈ code_hosts
                                                  /\ forall p, p ∈ pre -> p ∉ code_hosts
                     | None => forall p, p ∈ ps -> p ∉ code_hosts
                     end) as Hcut.
  { induction ps as [|p ps IH]; cbn [cut]; [by intros ? ?%elem_of_nil|].
    destruct (bool_decide (p = "github.com") || bool_decide (p = "gitlab.com")
              || bool_decide (p = "bitbucket.org")) eqn:Hp.
    - exists [], p. split; [done|]. split; [|by intros ? ?%elem_of_nil].
      unfold code_hosts. rewrite !orb_true_iff, !bool_decide_eq_true in Hp. set_solver.
    - assert (p ∉ code_hosts) as Hphost.
      { unfold code_hosts. rewrite !orb_false_iff, !bool_decide_eq_false in Hp. set_solver. }
      destruct (cut ps) as [r|].
      + destruct IH as (pre & host & -> & Hhost & Hpre).
        exists (p :: pre), host. split; [done|]. split; [done|].
        intros q [->|Hq]%elem_of_cons; auto.
      + intros q [->|Hq]%elem_of_cons; auto. }
  specialize (Hcut (gostrings.Split path "/")).
  destruct (cut (gostrings.Split path "/")) as [r|] eqn:Hr; cbn [default].
  - destruct Hcut as (pre & host & Hsplit & Hhost & Hpre).
    exists r. split; [done|]. split; [|split].
    + rewrite Hsplit. exists (pre ++ [host]). by rewrite <- app_assoc.
    + intros Hnone. exfalso. apply (Hnone host); [|done]. rewrite Hsplit. set_solver.
    + intros host' rest Hhost' Hsplit'. rewrite Hsplit' in Hsplit.
      destruct pre as [|p pre]; [by injection Hsplit as _ ->|].
      injection Hsplit as -> _. exfalso. apply (Hpre p); [left|done].
  - exists (gostrings.Split path "/"). split; [done|]. split; [done|]. split; [done|].
    intros host rest Hhost Hsplit. exfalso. apply (Hcut host); [|done].
    rewrite Hsplit. left.
Qed.

End proto_package.

(** X6: the package name [toProtoPackage] derives from an import path has
    neither a slash nor a hyphen; it is the path with dots for slashes and
    underscores for hyphens when no path element is a code host, and the
    rest of the path, treated so, when the path starts with a code host. *)
Theorem toProtoPackage_dotted (path : string) :
  contains "/" (toProtoPackage path) = false /\
  contains "-" (toProtoPackage path) = false /\
  ((forall part, part ∈ gostrings.Split path "/" -> part ∉ code_hosts) ->
   toProtoPackage path = dotted path) /\
  (forall host rest, host ∈ code_hosts -> path = host +:+ "/" +:+ rest ->
     toProtoPackage path = dotted rest).
Proof.
  destruct (toProtoPackage_parts path) as (parts & -> & Hsuffix & Hnone & Hhost).
  split; [|split; [|split]].
  - apply ReplaceAll_clean; [done|]. apply Join_clean; [|done].
    destruct Hsuffix as [pre Hsplit].
    pose proof (Split_parts path "/") as Hparts. rewrite Hsplit in Hparts.
    by apply Forall_app in Hparts as [_ ?].
  - by apply ReplaceAll_gone.
  - intros Hno. rewrite (Hnone Hno). unfold dotted. by rewrite (Join_Split path "/" ".").
  - intros host rest Hin ->. unfold dotted. rewrite <- (Join_Split rest "/" ".").
    do 2 f_equal.
    apply (Hhost host); [done|]. apply Split_app_sep.
    unfold code_hosts in Hin.
    repeat (apply elem_of_cons in Hin as [->|Hin]; [reflexivity|]).
    by apply elem_of_nil in Hin.
Qed.

Lemma toProtoPackage_dotted_witness :
  toProtoPackage "github.com/acme/user-api/v1" = "acme.user_api.v1" /\
  toProtoPackage "example.org/user-api" = "example.org.user_api".
Proof.
  split.
  - apply (proj2 (proj2 (proj2 (toProtoPackage_dotted "github.com/acme/user-api/v1")))
             "github.com" "acme/user-api/v1"); [left|reflexivity].
  - reflexivity.
Defined.

(** ** The wire-tag annotation *)

Section wire_tag.
Implicit Types (s body : string) (c : ascii).

Lemma TrimRightFunc_snoc (f : ascii -> bool) s (q c : ascii) :
  f q = false -> f c = true ->
  gostrings.TrimRightFunc f (s +:+ String q (String c EmptyString)) = s +:+ String q EmptyString.
Proof.
  intros Hq Hc. induction s as [|a s IH]; simpl.
  - by rewrite Hc, Hq.
  - rewrite IH. by destruct s.
Qed.

Lemma Trim_protobuf_tag body :
  gostrings.Trim (protobuf_tag body) "`"
  = "protobuf:" +:+ String quote body +:+ String quote EmptyString.
Proof.
  unfold gostrings.Trim, protobuf_tag.
  change (gostrings.TrimLeftFunc (Ascii.eqb "`") ("`protobuf:" +:+ String quote body +:+ String quote "`"))
    with (("protobuf:" +:+ String quote body) +:+ String quote "`").
  by rewrite TrimRightFunc_snoc.
Qed.

Lemma span_unquoted_app body rest :
  contains quote body = false ->
  span_unquoted (body +:+ String quote rest) = (body, String quote rest).
Proof.
  induction body as [|c body IH]; intros Hbody; [done|].
  rewrite contains_cons in Hbody. apply orb_false_iff in Hbody as [Hc Hbody].
  simpl. rewrite Hc. by rewrite IH.
Qed.

Lemma FindStringSubmatch_protobuf body rest :
  body ≠ "" -> contains quote body = false ->
  FindStringSubmatch ("protobuf:" +:+ String quote body +:+ String quote rest) = Some body.
Proof.
  intros Hne Hbody.
  assert (match_here ("protobuf:" +:+ String quote body +:+ String quote rest) = Some body)
    as Hhere.
  { unfold match_here.
    change ("protobuf:" +:+ String quote body +:+ String quote rest)
      with (("protobuf:" +:+ String quote EmptyString) +:+ (body +:+ String quote rest)).
    rewrite strip_prefix_app, span_unquoted_app by done. by destruct body. }
  remember ("protobuf:" +:+ String quote body +:+ String quote rest) as s eqn:Hs.
  destruct s; cbn [FindStringSubmatch]; by rewrite Hhere.
Qed.

Lemma Split_none s (sep : ascii) : contains sep s = false -> gostrings.Split s sep = [s].
Proof.
  induction s as [|c s IH]; intros Hs; [done|]. cbn [gostrings.Split].
  rewrite contains_cons in Hs. apply orb_false_iff in Hs as [Hc Hs].
  by rewrite Hc, IH.
Qed.

(** The option loop of [parseProtobufTag] touches the name and the two
    flags only. *)
Lemma tag_options_untouched (parts : list string) (field : ProtoField) :
  let field' :=
    foldl (fun field part =>
             let field :=
               if gostrings.HasPrefix part "name="
               then Build_ProtoField (gostrings.TrimPrefix part "name=")
                      (ProtoField_Type field) (ProtoField_Number field)
                      (ProtoField_Repeated field) (ProtoField_Optional field)
                      (ProtoField_MapKey field) (ProtoField_MapValue field)
                      (ProtoField_Comments field)
               else field in
             let field :=
               if decide (part = "rep")
               then Build_ProtoField (ProtoField_Name field)
                      (ProtoField_Type field) (ProtoField_Number field)
                      true (ProtoField_Optional field)
                      (ProtoField_MapKey field) (ProtoField_MapValue field)
                      (ProtoField_Comments field)
               else field in
             if decide (part = "opt")
             then Build_ProtoField (ProtoField_Name field)
                    (ProtoField_Type field) (ProtoField_Number field)
                    (ProtoField_Repeated field) true
                    (ProtoField_MapKey field) (ProtoField_MapValue field)
                    (ProtoField_Comments field)
             else field)
          field parts in
  ProtoField_Type field' = ProtoField_Type field /\
  ProtoField_Number field' = ProtoField_Number field /\
  ProtoField_MapKey field' = ProtoField_MapKey field /\
  ProtoField_MapValue field' = ProtoField_MapValue field /\
  ProtoField_Comments field' = ProtoField_Comments field.
Proof.
  revert field. induction parts as [|part parts IH]; intros field; [done|].
  cbn [foldl]. cbn zeta in IH.
  match goal with |- context [foldl _ ?f0 parts] => specialize (IH f0) end.
  destruct IH as (-> & -> & -> & -> & ->).
  destruct (gostrings.HasPrefix part "name="); repeat case_decide; done.
Qed.

Lemma Sscanf_d_range s : - 2 ^ 63 <= gofmt.Sscanf_d s < 2 ^ 63.
Proof.
  unfold gofmt.Sscanf_d. destruct (gofmt.SkipSpace s) as [s1|]; [|lia].
  destruct (match s1 with String _ _ => _ | EmptyString => _ end) as [neg s2].
  unfold gofmt.ParseInt. destruct (gofmt.scanNumber s2); cbn [default]; [lia|].
  destruct (gofmt.digits_value 0 _) as [n|]; cbn [default]; [|lia].
  destruct (_ && _) eqn:Hrange; cbn [default]; [|lia].
  apply andb_true_iff in Hrange as [?%Z.leb_le ?%Z.ltb_lt]. unfold id. lia.
Qed.

End wire_tag.

Lemma digits_clean (c : ascii) (s : string) :
  gofmt.isDigit c = false -> all_bytes gofmt.isDigit s = true -> contains c s = false.
Proof.
  intros Hc. induction s as [|d s IH]; [done|]. cbn [all_bytes].
  intros [Hd Hs]%andb_true_iff. rewrite contains_cons, IH, orb_false_r by done.
  apply Ascii.eqb_neq. intros ->. congruence.
Qed.

(** X7: a tag of the form protoc writes, [protobuf:"wiretype,number,label,
    name=N,proto3"] between backquotes with the number in decimal digits, is
    parsed into the field named [N] with the scanned number, the scalar type
    of the wire type, and the repeated or optional flag of the label. *)
Theorem parseProtobufTag_protoc (wiretype number label name : string) :
  contains "," wiretype = false -> contains quote wiretype = false ->
  all_bytes gofmt.isDigit number = true ->
  contains "," label = false -> contains quote label = false ->
  gostrings.HasPrefix label "name=" = false ->
  contains "," name = false -> contains quote name = false ->
  parseProtobufTag
    (protobuf_tag (wiretype +:+ "," +:+ number +:+ "," +:+ label +:+ ",name=" +:+ name
                   +:+ ",proto3"))
  = Some (Build_ProtoField name (wireType wiretype) (gofmt.Sscanf_d number)
            (bool_decide (label = "rep")) (bool_decide (label = "opt")) "" "" []).
Proof.
  intros Hwt1 Hwt2 Hdigits Hlab1 Hlab2 Hlab3 Hname1 Hname2.
  assert (contains "," number = false) as Hnum1 by (by apply digits_clean).
  assert (contains quote number = false) as Hnum2 by (by apply digits_clean).
  change (wiretype +:+ "," +:+ number +:+ "," +:+ label +:+ ",name=" +:+ name +:+ ",proto3")
    with (wiretype +:+ String "," (number +:+ String "," (label +:+
            String "," (("name=" +:+ name) +:+ String "," "proto3")))).
  unfold parseProtobufTag. rewrite decide_False by done.
  rewrite Trim_protobuf_tag, FindStringSubmatch_protobuf.
  2:{ by destruct wiretype. }
  2:{ repeat (rewrite contains_app || rewrite contains_cons).
      rewrite Hwt2, Hnum2, Hlab2, Hname2. reflexivity. }
  rewrite (Split_app_sep wiretype) by done.
  rewrite (Split_app_sep number) by done.
  rewrite (Split_app_sep label) by done.
  rewrite (Split_app_sep ("name=" +:+ name)) by (by rewrite contains_app, Hname1).
  rewrite (Split_none "proto3") by done.
  set (step := fun (field : ProtoField) (part : string) => _).
  assert (forall field n, contains "," n = false ->
            step field ("name=" +:+ n)
            = Build_ProtoField n (ProtoField_Type field) (ProtoField_Number field)
                (ProtoField_Repeated field) (ProtoField_Optional field)
                (ProtoField_MapKey field) (ProtoField_MapValue field)
                (ProtoField_Comments field)) as Hstep_name.
  { intros field n _. subst step. cbn beta.
    change (gostrings.HasPrefix ("name=" +:+ n) "name=") with true. cbn iota.
    rewrite (decide_False (P := "name=" +:+ n = "rep")) by done.
    rewrite (decide_False (P := "name=" +:+ n = "opt")) by done.
    unfold gostrings.TrimPrefix. by rewrite strip_prefix_app. }
  assert (forall field part, gostrings.HasPrefix part "name=" = false ->
            step field part
            = Build_ProtoField (ProtoField_Name field) (ProtoField_Type field)
                (ProtoField_Number field)
                (bool_decide (part = "rep") || ProtoField_Repeated field)
                (bool_decide (part = "opt") || ProtoField_Optional field)
                (ProtoField_MapKey field) (ProtoField_MapValue field)
                (ProtoField_Comments field)) as Hstep_label.
  { intros [] part Hpart. subst step. cbn beta. rewrite Hpart.
    destruct (decide (part = "rep")) as [->|Hrep].
    - rewrite (decide_False (P := "rep" = "opt")) by done. done.
    - rewrite bool_decide_eq_false_2 by done.
      destruct (decide (part = "opt")) as [->|Hopt]; [done|].
      by rewrite bool_decide_eq_false_2 by done. }
  change (length [wiretype; number; label; "name=" +:+ name; "proto3"] <? 3)%nat with false.
  cbv iota. cbn [drop lookup list_lookup default foldl].
  rewrite (Hstep_label _ label) by done.
  rewrite Hstep_name by done.
  rewrite (Hstep_label _ "proto3") by done.
  clear Hstep_name Hstep_label step.
  cbn. rewrite !orb_false_r. reflexivity.
Qed.

Lemma parseProtobufTag_protoc_witness :
  parseProtobufTag (protobuf_tag "bytes,1,opt,name=id,proto3")
  = Some (Build_ProtoField "id" "bytes" 1 false true "" "" []).
Proof.
  exact (parseProtobufTag_protoc "bytes" "1" "opt" "id"
           eq_refl eq_refl eq_refl eq_refl eq_refl eq_refl eq_refl eq_refl).
Defined.

(** X8: whatever [parseProtobufTag] accepts is a plain scalar field: one of
    four scalar types or no type, no map key or value, no comment, and a
    number within the 64-bit range. *)
Theorem parseProtobufTag_plain (tag : string) (field : ProtoField) :
  parseProtobufTag tag = Some field ->
  ProtoField_Type field ∈ [""; "bytes"; "int64"; "fixed64"; "fixed32"] /\
  ProtoField_MapKey field = "" /\ ProtoField_MapValue field = "" /\
  ProtoField_Comments field = [] /\
  - 2 ^ 63 <= ProtoField_Number field < 2 ^ 63.
Proof.
  unfold parseProtobufTag. case_decide; [done|].
  destruct (FindStringSubmatch _) as [body|]; [|done].
  destruct (length _ <? 3)%nat; [done|]. intros [= <-].
  match goal with |- context [foldl ?f ?f0 ?ps] =>
    destruct (tag_options_untouched ps f0) as (Htype & Hnum & Hkey & Hval & Hcom)
  end.
  cbn zeta in *. cbn [ProtoField_Type ProtoField_MapKey ProtoField_MapValue
                      ProtoField_Comments ProtoField_Number] in *.
  rewrite Hnum, Hkey, Hval, Hcom, Htype.
  split; [|by auto using Sscanf_d_range].
  repeat case_decide; set_solver.
Qed.

Lemma parseProtobufTag_plain_witness :
  ProtoField_Comments
    (default (Build_ProtoField "" "" 0 false false "" "" ["unparsed"])
       (parseProtobufTag (protobuf_tag "varint,5,rep,name=ids"))) = [].
Proof.
  destruct (parseProtobufTag (protobuf_tag "varint,5,rep,name=ids")) as [field|] eqn:Htag;
    [|vm_compute in Htag; discriminate Htag].
  exact (proj1 (proj2 (proj2 (proj2 (parseProtobufTag_plain _ _ Htag))))).
Defined.

(** ** Structs: names, imports and map fields *)

Section struct_fields.
Variable t : Transformer.
Variables enumLookup typeParamsLookup : gmap string bool.

Local Abbreviation step := (transformStruct_field t enumLookup typeParamsLookup).

Lemma transformField_name f num :
  ProtoField_Name (transformField t f num enumLookup typeParamsLookup).1 = emittedName f.
Proof. unfold transformField, emittedName. by destruct (parseProtobufTag _). Qed.

Lemma nonempty_toSnakeCase s : nonempty (toSnakeCase s) = nonempty s.
Proof.
  destruct s as [|c rest]; [done|]. by rewrite toSnakeCase_head.
Qed.

Lemma step_names st f :
  ProtoField_Name <$> msgFields (step st f)
  = (ProtoField_Name <$> msgFields st)
    ++ (if considered t f && nonempty (emittedName f) then [emittedName f] else []).
Proof.
  unfold transformStruct_field, considered.
  destruct (negb (GoField_Exported f) && negb _); cbn [negb andb]; [by rewrite app_nil_r|].
  destruct (GoField_Embedded f); cbn [negb andb]; [by rewrite app_nil_r|].
  pose proof (transformField_name f (fieldNum st)) as Hname.
  destruct (transformField _ _ _ _ _) as [pf imps]. cbn [fst] in Hname.
  unfold nonempty. rewrite <- Hname.
  case_decide as Hpf.
  - rewrite bool_decide_eq_true_2 by done. cbn [negb]. by rewrite app_nil_r.
  - rewrite bool_decide_eq_false_2 by done. cbn [negb msgFields]. by rewrite fmap_app.
Qed.

Lemma field_scan_names fields st :
  ProtoField_Name <$> msgFields (foldl step st fields)
  = (ProtoField_Name <$> msgFields st)
    ++ ct.Filter (emittedName <$> ct.Filter fields (considered t)) nonempty.
Proof.
  revert st. induction fields as [|f fields IH]; intros st; cbn [foldl ct.Filter].
  - by rewrite fmap_nil, app_nil_r.
  - rewrite IH, step_names, <- app_assoc. f_equal.
    destruct (considered t f); cbn [andb]; [|done].
    rewrite fmap_cons. cbn [ct.Filter]. by destruct (nonempty (emittedName f)).
Qed.

Lemma field_scan_imports fields st imp :
  imp ∈ scanImports (foldl step st fields) <->
  imp ∈ scanImports st \/
  exists f, f ∈ fields /\ inferred t f = true /\
            imp ∈ imports (transformType t (GoField_Type f) enumLookup typeParamsLookup).
Proof.
  revert st. induction fields as [|f fields IH]; intros st; cbn [foldl].
  - split; [by left|]. intros [?|(f & ?%elem_of_nil & _)]; done.
  - rewrite IH. clear IH.
    assert (imp ∈ scanImports (step st f) <->
            imp ∈ scanImports st \/
            (inferred t f = true /\
             imp ∈ imports (transformType t (GoField_Type f) enumLookup typeParamsLookup)))
      as ->.
    { unfold transformStruct_field, inferred, considered.
      destruct (negb (GoField_Exported f) && negb _); cbn [negb andb]; [naive_solver|].
      destruct (GoField_Embedded f); cbn [negb andb]; [naive_solver|].
      unfold transformField.
      destruct (parseProtobufTag (GoField_Tag f)) as [tag|].
      - case_decide; cbn [scanImports]; rewrite ?app_nil_r; naive_solver.
      - cbn [ProtoField_Name]. rewrite <- nonempty_toSnakeCase. unfold nonempty.
        case_decide as Hname.
        + rewrite bool_decide_eq_true_2 by done. naive_solver.
        + rewrite bool_decide_eq_false_2 by done. cbn [scanImports negb].
          rewrite elem_of_app. naive_solver. }
    split.
    + intros [[?|[? ?]]|(g & ? & ? & ?)]; [by left|right; exists f|right; exists g];
        (split; [set_solver|done]).
    + intros [?|(g & [->|Hg]%elem_of_cons & ? & ?)]; [by left; left|by left; right|].
      right. by exists g.
Qed.

End struct_fields.

(** X9: the fields of the message of a struct are named, in declaration
    order, after the exported (or all, with private fields included) and not
    embedded source fields: by the annotation when it parses, by the
    snake-cased field name otherwise; fields whose name comes out empty are
    left out.  The message bears the name of the struct. *)
Theorem transformStruct_field_names (t : Transformer) (s : GoStruct)
    (enumLookup : gmap string bool) (m : ProtoMessage) :
  m ∈ Proto_Messages (transformStruct t s enumLookup) ->
  ProtoMessage_Name m = GoStruct_Name s /\
  ProtoField_Name <$> ProtoMessage_Fields m
  = ct.Filter (emittedName <$> ct.Filter (GoStruct_Fields s) (considered t)) nonempty.
Proof.
  unfold transformStruct. case_decide; [by intros ?%elem_of_nil|].
  destruct (startsLower _); [by intros ?%elem_of_nil|].
  cbn [Proto_Messages]. intros ->%list_elem_of_singleton.
  cbn [ProtoMessage_Name ProtoMessage_Fields]. split; [done|].
  by rewrite field_scan_names.
Qed.

Lemma transformStruct_field_names_witness :
  (fun m => ProtoField_Name <$> ProtoMessage_Fields m)
    <$> Proto_Messages (transformStruct (NewTransformer DefaultOptions) account ∅)
  = [["id"; "email"]].
Proof.
  assert (exists m, Proto_Messages (transformStruct (NewTransformer DefaultOptions) account ∅)
                    = [m]) as [m Hm] by (eexists; vm_compute; reflexivity).
  rewrite Hm. cbn [fmap list_fmap]. f_equal.
  rewrite (proj2 (transformStruct_field_names (NewTransformer DefaultOptions) account ∅ m
                    ltac:(rewrite Hm; left))).
  vm_compute. reflexivity.
Defined.

(** X10: the fragment of an emitted struct imports exactly what the resolver
    asks for the fields it emits by inference, each import once; a field
    emitted from its annotation adds none. *)
Theorem transformStruct_imports (t : Transformer) (s : GoStruct)
    (enumLookup : gmap string bool) :
  NoDup (Proto_Imports (transformStruct t s enumLookup)) /\
  (Proto_Messages (transformStruct t s enumLookup) ≠ [] ->
   forall imp,
     imp ∈ Proto_Imports (transformStruct t s enumLookup) <->
     exists f, f ∈ GoStruct_Fields s /\ inferred t f = true /\
               imp ∈ imports (transformType t (GoField_Type f) enumLookup
                                (typeParamsLookupOf s))).
Proof.
  unfold transformStruct. case_decide; [split; [constructor|done]|].
  destruct (startsLower _); [split; [constructor|done]|].
  cbn [Proto_Imports Proto_Messages]. rewrite Unique_dedup. split; [apply NoDup_dedup|].
  intros _ imp. rewrite elem_of_dedup.
  rewrite (field_scan_imports t enumLookup (typeParamsLookupOf s)).
  cbn [scanImports]. set_solver.
Qed.

Lemma transformStruct_imports_witness :
  Proto_Imports
    (transformStruct (NewTransformer DefaultOptions)
       (struct_of [Build_GoField "At" (NamedType "time" "Time") "" false [] true;
                   Build_GoField "Until" (PointerType (NamedType "time" "Time")) "" false []
                     true]) ∅)
  = ["google/protobuf/timestamp.proto"] /\
  "google/protobuf/timestamp.proto"
    ∈ Proto_Imports
        (transformStruct (NewTransformer DefaultOptions)
           (struct_of [Build_GoField "At" (NamedType "time" "Time") "" false [] true;
                       Build_GoField "Until" (PointerType (NamedType "time" "Time")) ""
                         false [] true]) ∅).
Proof.
  split; [vm_compute; reflexivity|].
  apply (proj2 (transformStruct_imports (NewTransformer DefaultOptions) _ ∅)).
  - vm_compute. discriminate.
  - exists (Build_GoField "At" (NamedType "time" "Time") "" false [] true).
    split; [left|]. split; [reflexivity|]. vm_compute. left.
Defined.

Section map_fields.
Variable t : Transformer.
Variables enumLookup typeParamsLookup : gmap string bool.

Lemma isBasicProtoType_no_angle (x : string) :
  isBasicProtoType x = true -> contains "<" x = false.
Proof.
  unfold isBasicProtoType. intros Hx. apply bool_decide_eq_true in Hx.
  repeat (apply elem_of_cons in Hx as [->|Hx]; [reflexivity|]).
  by apply elem_of_nil in Hx.
Qed.

Lemma resolveMapping_plain mapping :
  isMap (resolveMapping mapping) = false /\ repeated (resolveMapping mapping) = false /\
  mapKey (resolveMapping mapping) = "" /\ mapValue (resolveMapping mapping) = "".
Proof. done. Qed.

Lemma transformType_map_shape (goType : GoType) :
  let r := transformType t goType enumLookup typeParamsLookup in
  (isMap r = true ->
   repeated r = false /\
   protoType r = "map<" +:+ mapKey r +:+ ", " +:+ mapValue r +:+ ">") /\
  (isMap r = false -> mapKey r = "" /\ mapValue r = "").
Proof.
  induction goType as [name|elem IH|elem IH|elem IH len|key IHk value IHv|pkg name| | | |];
    cbn [transformType]; try (by split).
  - destruct (_ !! name); by split.
  - exact IH.
  - destruct elem; try (by split). case_decide; by split.
  - destruct (flag enumLookup name); [by split|].
    destruct (_ !! NamedType_String pkg name); [by split|].
    repeat (destruct (_ && _); [by split|]).
    destruct (flag typeParamsLookup name); by split.
Qed.

End map_fields.

(** X11: the resolver never marks a type both as a map and as repeated: a
    map result has the type [map<K, V>] of its key and value and no repeated
    flag, any other result has neither key nor value.  So a field emitted by
    inference with a map key is neither repeated nor optional. *)
Theorem map_fields_carry_no_flag (t : Transformer) (f : GoField) (num : Z)
    (enumLookup typeParamsLookup : gmap string bool) :
  let r := transformType t (GoField_Type f) enumLookup typeParamsLookup in
  (isMap r = true ->
   repeated r = false /\
   protoType r = "map<" +:+ mapKey r +:+ ", " +:+ mapValue r +:+ ">") /\
  (isMap r = false -> mapKey r = "" /\ mapValue r = "") /\
  (parseProtobufTag (GoField_Tag f) = None ->
   ProtoField_MapKey (transformField t f num enumLookup typeParamsLookup).1 ≠ "" ->
   ProtoField_Repeated (transformField t f num enumLookup typeParamsLookup).1 = false /\
   ProtoField_Optional (transformField t f num enumLookup typeParamsLookup).1 = false).
Proof.
  intros r.
  destruct (transformType_map_shape t enumLookup typeParamsLookup (GoField_Type f))
    as [Hmap Hplain]. fold r in Hmap, Hplain.
  split; [exact Hmap|]. split; [exact Hplain|].
  intros Htag. rewrite (transformField_inferred t _ _ f num Htag).
  cbn [fst ProtoField_MapKey ProtoField_Repeated ProtoField_Optional]. fold r.
  intros Hkey. destruct (isMap r) eqn:Hr; [|by destruct (Hplain eq_refl)].
  destruct (Hmap eq_refl) as [Hrep Htype]. split; [done|].
  apply andb_false_iff. right.
  destruct (isBasicProtoType (protoType r)) eqn:Hbasic; [|done].
  apply isBasicProtoType_no_angle in Hbasic. by rewrite Htype in Hbasic.
Qed.

Lemma map_fields_carry_no_flag_witness :
  (transformField (NewTransformer DefaultOptions)
     (Build_GoField "Tags"
        (PointerType (MapType (BasicType "string") (SliceType (BasicType "int")))) ""
        false [] true) 1 ∅ ∅).1
  = Build_ProtoField "tags" "map<string, int64>" 1 false false "string" "int64" [] /\
  ProtoField_Repeated
    (transformField (NewTransformer DefaultOptions)
       (Build_GoField "Tags"
          (PointerType (MapType (BasicType "string") (SliceType (BasicType "int")))) ""
          false [] true) 1 ∅ ∅).1 = false.
Proof.
  split; [vm_compute; reflexivity|].
  apply (proj2 (proj2 (map_fields_carry_no_flag (NewTransformer DefaultOptions)
                         (Build_GoField "Tags"
                            (PointerType (MapType (BasicType "string")
                                            (SliceType (BasicType "int")))) ""
                            false [] true) 1 ∅ ∅)) eq_refl).
  vm_compute. discriminate.
Defined.

(** ** The engine as a whole *)

Section folds.
Context {A : Type} (f : A -> Proto).
Implicit Types (xs : list A) (init : Proto).

Local Abbreviation fold := (foldl (fun result x => ct.Append ProtoMonoid result (f x))).

Lemma fold_snoc init xs x : fold init (xs ++ [x]) = Append (fold init xs) (f x).
Proof. by rewrite foldl_app. Qed.

(** A list part of a fold is the concatenation of the parts. *)
Lemma fold_list_part {X : Type} (part : Proto -> list X) init xs :
  (forall a b, part (Append a b) = part a ++ part b) ->
  part (fold init xs) = part init ++ mjoin ((fun x => part (f x)) <$> xs).
Proof.
  intros Hpart. revert init. induction xs as [|x xs IH]; intros init; cbn [foldl].
  - rewrite fmap_nil. symmetry. apply app_nil_r.
  - rewrite IH, fmap_cons. fold (Append init (f x)).
    rewrite Hpart, <- app_assoc. reflexivity.
Qed.

Lemma fold_list_part_empty {X : Type} (part : Proto -> list X) init xs :
  (forall a b, part (Append a b) = part a ++ part b) ->
  (forall x, part (f x) = []) ->
  part (fold init xs) = part init.
Proof.
  intros Hpart Hnil. rewrite fold_list_part by done.
  induction xs as [|x xs IH]; [by rewrite app_nil_r|].
  rewrite fmap_cons. cbn [mjoin list_join]. by rewrite Hnil.
Qed.

Lemma fold_syntax init xs :
  Proto_Syntax init = "proto3" -> Proto_Syntax (fold init xs) = "proto3".
Proof.
  revert init. induction xs as [|x xs IH]; intros init Hinit; [done|].
  cbn [foldl]. apply IH. fold (Append init (f x)). by apply Append_normal.
Qed.

Lemma fold_package init xs :
  Proto_Package (fold init xs)
  = ct.Coalesce "" (Proto_Package init :: ((fun x => Proto_Package (f x)) <$> xs)).
Proof.
  revert init. induction xs as [|x xs IH]; intros init; cbn [foldl].
  - cbn. by case_decide.
  - rewrite IH, fmap_cons. fold (Append init (f x)). rewrite Append_eq.
    cbn [Proto_Package ct.Coalesce]. repeat case_decide; congruence.
Qed.

Lemma fold_options_empty init xs :
  (forall x, x ∈ xs -> Proto_Options (f x) = ∅) ->
  Proto_Options (fold init xs) = Proto_Options init.
Proof.
  revert init. induction xs as [|x xs IH]; intros init Hxs; [done|].
  cbn [foldl]. rewrite IH by (intros; apply Hxs; by right).
  fold (Append init (f x)). rewrite Append_eq. cbn [Proto_Options].
  rewrite Hxs by left. by rewrite (left_id_L ∅ (∪)).
Qed.

Lemma fold_package_empty init xs :
  (forall x, x ∈ xs -> Proto_Package (f x) = "") ->
  Proto_Package (fold init xs) = Proto_Package init.
Proof.
  revert init. induction xs as [|x xs IH]; intros init Hxs; [done|].
  cbn [foldl]. rewrite IH by (intros; apply Hxs; by right).
  fold (Append init (f x)). rewrite Append_eq. cbn [Proto_Package].
  rewrite Hxs by left. by case_decide.
Qed.

Lemma fold_imports init xs imp :
  imp ∈ Proto_Imports (fold init xs) <->
  imp ∈ Proto_Imports init \/ exists x, x ∈ xs /\ imp ∈ Proto_Imports (f x).
Proof.
  revert init. induction xs as [|x xs IH]; intros init; cbn [foldl].
  - split; [by left|]. intros [?|(x & ?%elem_of_nil & _)]; done.
  - rewrite IH. fold (Append init (f x)). rewrite Append_eq. cbn [Proto_Imports].
    rewrite Unique_dedup, elem_of_dedup, elem_of_app. split.
    + intros [[[?|?] _]|(y & ? & ?)]; [by left|right; exists x|right; exists y];
        (split; [set_solver|done]).
    + intros [?|(y & [->|?]%elem_of_cons & ?)]; [left|left|right; by exists y];
        (split; [by auto|set_solver]).
Qed.

Lemma fold_imports_NoDup init xs :
  NoDup (Proto_Imports init) -> NoDup (Proto_Imports (fold init xs)).
Proof.
  destruct xs as [|x xs _] using rev_ind; [done|]. intros _.
  rewrite fold_snoc, Append_eq. cbn [Proto_Imports]. rewrite Unique_dedup. apply NoDup_dedup.
Qed.

End folds.

Section packages.
Variable t : Transformer.

Lemma transformStruct_scalars s enumLookup :
  Proto_Package (transformStruct t s enumLookup) = "" /\
  Proto_Options (transformStruct t s enumLookup) = ∅ /\
  Proto_Enums (transformStruct t s enumLookup) = [] /\
  Proto_Services (transformStruct t s enumLookup) = [].
Proof. unfold transformStruct. case_decide; [done|]. by destruct (startsLower _). Qed.

Lemma transformInterface_scalars i :
  Proto_Package (transformInterface t i) = "" /\
  Proto_Options (transformInterface t i) = ∅ /\
  Proto_Enums (transformInterface t i) = [].
Proof. unfold transformInterface. by destruct (negb _ && negb _). Qed.

(** The four fragments of a package, merged. *)
Lemma transformPackage_parts pkg :
  let enumLookup := buildEnumLookup t pkg in
  Proto_Syntax (transformPackage t pkg) = "proto3" /\
  Proto_Package (transformPackage t pkg) = Proto_Package (basePackage t pkg) /\
  Proto_Options (transformPackage t pkg) = Proto_Options (basePackage t pkg) /\
  Proto_Enums (transformPackage t pkg) = Proto_Enums (transformEnums t pkg enumLookup) /\
  Proto_Messages (transformPackage t pkg)
  = mjoin ((fun s => Proto_Messages (transformStruct t s enumLookup))
             <$> GoPackage_Structs pkg)
    ++ mjoin ((fun i => Proto_Messages (transformInterface t i))
                <$> GoPackage_Interfaces pkg) /\
  Proto_Services (transformPackage t pkg)
  = mjoin ((fun i => Proto_Services (transformInterface t i)) <$> GoPackage_Interfaces pkg).
Proof.
  intros enumLookup. unfold transformPackage, ct.Concat, ct.FoldMap. fold enumLookup.
  set (messages := foldl _ _ (GoPackage_Structs pkg)).
  set (services := foldl _ _ (GoPackage_Interfaces pkg)).
  assert (Proto_Package messages = "" /\ Proto_Options messages = ∅
          /\ Proto_Enums messages = [] /\ Proto_Services messages = []) as (Hmp & Hmo & Hme & Hms).
  { subst messages. split; [|split; [|split]].
    - rewrite fold_package_empty; [done|]. intros s _. apply transformStruct_scalars.
    - rewrite fold_options_empty; [done|]. intros s _. apply transformStruct_scalars.
    - rewrite (fold_list_part_empty _ Proto_Enums); [done| |].
      + intros. by rewrite Append_eq.
      + intros s. apply transformStruct_scalars.
    - rewrite (fold_list_part_empty _ Proto_Services); [done| |].
      + intros. by rewrite Append_eq.
      + intros s. apply transformStruct_scalars. }
  assert (Proto_Package services = "" /\ Proto_Options services = ∅
          /\ Proto_Enums services = []) as (Hsp & Hso & Hse).
  { subst services. split; [|split].
    - rewrite fold_package_empty; [done|]. intros i _. apply transformInterface_scalars.
    - rewrite fold_options_empty; [done|]. intros i _. apply transformInterface_scalars.
    - rewrite (fold_list_part_empty _ Proto_Enums); [done| |].
      + intros. by rewrite Append_eq.
      + intros i. apply transformInterface_scalars. }
  assert (Proto_Messages messages
          = mjoin ((fun s => Proto_Messages (transformStruct t s enumLookup))
                     <$> GoPackage_Structs pkg)) as Hmm.
  { subst messages. by rewrite (fold_list_part _ Proto_Messages)
      by (intros; by rewrite Append_eq). }
  assert (Proto_Messages services
          = mjoin ((fun i => Proto_Messages (transformInterface t i))
                     <$> GoPackage_Interfaces pkg)) as Hsm.
  { subst services. by rewrite (fold_list_part _ Proto_Messages)
      by (intros; by rewrite Append_eq). }
  assert (Proto_Services services
          = mjoin ((fun i => Proto_Services (transformInterface t i))
                     <$> GoPackage_Interfaces pkg)) as Hss.
  { subst services. by rewrite (fold_list_part _ Proto_Services)
      by (intros; by rewrite Append_eq). }
  cbn [foldl]. fold Append. rewrite !Append_eq.
  cbn [Proto_Syntax Proto_Package Proto_Options Proto_Enums Proto_Messages Proto_Services
       ct.Empty ProtoMonoid basePackage transformEnums app].
  rewrite Hmp, Hmo, Hme, Hms, Hsp, Hso, Hse, Hmm, Hsm, Hss.
  rewrite !(left_id_L ∅ (∪)), !(right_id_L ∅ (∪)), !app_nil_r.
  repeat split; repeat case_decide; try done.
Qed.

End packages.

Section engine_scalars.
Variable t : Transformer.

Lemma Transform_syntax pkgs : Proto_Syntax (Transform t pkgs) = "proto3".
Proof. unfold Transform, ct.FoldMap. by apply fold_syntax. Qed.

Lemma Transform_options pkgs :
  Proto_Options (Transform t pkgs)
  = match last pkgs with
    | Some pkg => Proto_Options (basePackage t pkg)
    | None => ∅
    end.
Proof.
  unfold Transform, ct.FoldMap.
  destruct pkgs as [|pkg pkgs _] using rev_ind; [done|].
  rewrite fold_snoc, last_snoc, Append_eq. cbn [Proto_Options].
  destruct (transformPackage_parts t pkg) as (_ & _ & -> & _).
  unfold basePackage. cbn [Proto_Options].
  apply map_eq. intros k. rewrite lookup_union.
  destruct (decide (k = "go_package")) as [->|Hk].
  - rewrite !lookup_singleton_eq. by destruct (_ !! _).
  - rewrite lookup_singleton_ne by done.
    assert (forall ps k', k' ≠ "go_package" ->
              Proto_Options
                (foldl (fun result x => ct.Append ProtoMonoid result (transformPackage t x))
                       (ct.Empty ProtoMonoid) ps) !! k' = None) as Hother.
    { intros ps k' Hk'. induction ps as [|p ps IH] using rev_ind; [done|].
      rewrite fold_snoc, Append_eq. cbn [Proto_Options].
      destruct (transformPackage_parts t p) as (_ & _ & -> & _).
      unfold basePackage. cbn [Proto_Options].
      by rewrite lookup_union, lookup_singleton_ne, IH. }
    by rewrite Hother.
Qed.

Lemma Transform_package pkgs :
  Proto_Package (Transform t pkgs)
  = ct.Coalesce "" ((fun pkg => Proto_Package (basePackage t pkg)) <$> pkgs).
Proof.
  unfold Transform, ct.FoldMap.
  rewrite fold_package. cbn [ct.Coalesce ct.Empty ProtoMonoid Proto_Package].
  rewrite decide_True by done. f_equal.
  apply list_fmap_ext. intros _ pkg _. apply transformPackage_parts.
Qed.

End engine_scalars.

(** X12: the result of the engine always carries the syntax marker [proto3];
    over several packages its package name is the first non-empty one in
    package order, and its options are those of the last package (its
    [go_package]). *)
Theorem Transform_scalars (t : Transformer) (pkgs : list GoPackage) :
  Proto_Syntax (Transform t pkgs) = "proto3" /\
  Proto_Package (Transform t pkgs)
  = ct.Coalesce "" ((fun pkg => Proto_Package (basePackage t pkg)) <$> pkgs) /\
  Proto_Options (Transform t pkgs)
  = match last pkgs with
    | Some pkg => Proto_Options (basePackage t pkg)
    | None => ∅
    end.
Proof.
  split; [apply Transform_syntax|]. split; [apply Transform_package|apply Transform_options].
Qed.

(** X13: the enums, messages and services of the result are those of the
    packages in package order: per package the enums of its constant groups,
    the messages of its structs in declaration order followed by the
    envelopes of its interfaces, and the services of its interfaces. *)
Theorem Transform_lists (t : Transformer) (pkgs : list GoPackage) :
  Proto_Enums (Transform t pkgs)
  = mjoin ((fun pkg => Proto_Enums (transformEnums t pkg (buildEnumLookup t pkg)))
             <$> pkgs) /\
  Proto_Messages (Transform t pkgs)
  = mjoin ((fun pkg =>
              mjoin ((fun s => Proto_Messages (transformStruct t s (buildEnumLookup t pkg)))
                       <$> GoPackage_Structs pkg)
              ++ mjoin ((fun i => Proto_Messages (transformInterface t i))
                          <$> GoPackage_Interfaces pkg))
             <$> pkgs) /\
  Proto_Services (Transform t pkgs)
  = mjoin ((fun pkg =>
              mjoin ((fun i => Proto_Services (transformInterface t i))
                       <$> GoPackage_Interfaces pkg))
             <$> pkgs).
Proof.
  unfold Transform, ct.FoldMap.
  rewrite (fold_list_part _ Proto_Enums) by (intros; by rewrite Append_eq).
  rewrite (fold_list_part _ Proto_Messages) by (intros; by rewrite Append_eq).
  rewrite (fold_list_part _ Proto_Services) by (intros; by rewrite Append_eq).
  cbn [ct.Empty ProtoMonoid Proto_Enums Proto_Messages Proto_Services app].
  repeat split; f_equal; apply list_fmap_ext; intros _ pkg _; apply transformPackage_parts.
Qed.

(** X14: the result lists every import once, and lists exactly the imports
    of the fragments of the structs and interfaces of the packages. *)
Theorem Transform_imports (t : Transformer) (pkgs : list GoPackage) (imp : string) :
  NoDup (Proto_Imports (Transform t pkgs)) /\
  (imp ∈ Proto_Imports (Transform t pkgs) <->
   exists pkg, pkg ∈ pkgs /\
     ((exists s, s ∈ GoPackage_Structs pkg /\
                 imp ∈ Proto_Imports (transformStruct t s (buildEnumLookup t pkg))) \/
      (exists i, i ∈ GoPackage_Interfaces pkg /\
                 imp ∈ Proto_Imports (transformInterface t i)))).
Proof.
  unfold Transform, ct.FoldMap. split; [apply fold_imports_NoDup; constructor|].
  rewrite fold_imports. cbn [ct.Empty ProtoMonoid Proto_Imports].
  assert (forall pkg,
            imp ∈ Proto_Imports (transformPackage t pkg) <->
            (exists s, s ∈ GoPackage_Structs pkg /\
                       imp ∈ Proto_Imports (transformStruct t s (buildEnumLookup t pkg))) \/
            (exists i, i ∈ GoPackage_Interfaces pkg /\
                       imp ∈ Proto_Imports (transformInterface t i))) as Hpkg.
  { intros pkg. unfold transformPackage, ct.Concat, ct.FoldMap.
    rewrite (fold_imports (fun x => x)). cbn [ct.Empty ProtoMonoid Proto_Imports].
    split.
    - intros [?%elem_of_nil|(x & Hx & Himp)]; [done|].
      repeat (apply elem_of_cons in Hx as [->|Hx]).
      + by apply elem_of_nil in Himp.
      + by apply elem_of_nil in Himp.
      + apply fold_imports in Himp as [?%elem_of_nil|?]; [done|by left].
      + apply fold_imports in Himp as [?%elem_of_nil|?]; [done|by right].
      + by apply elem_of_nil in Hx.
    - intros [Hs|Hi]; right.
      + eexists. split; [do 2 right; left|]. apply fold_imports. by right.
      + eexists. split; [do 3 right; left|]. apply fold_imports. by right. }
  split.
  - intros [?%elem_of_nil|(pkg & Hpkgs & Himp)]; [done|]. exists pkg. by rewrite <- Hpkg.
  - intros (pkg & Hpkgs & Himp). right. exists pkg. by rewrite Hpkg.
Qed.

(** ** Enums *)

Section enum_lookup.
Variable t : Transformer.

Lemma flag_insert (lookup : gmap string bool) (k name : string) :
  flag (<[k := true]> lookup) name = bool_decide (k = name) || flag lookup name.
Proof.
  unfold flag. destruct (decide (k = name)) as [->|Hk].
  - by rewrite lookup_insert_eq, bool_decide_eq_true_2.
  - by rewrite lookup_insert_ne, bool_decide_eq_false_2.
Qed.

Lemma buildEnumLookup_flag pkg name :
  flag (buildEnumLookup t pkg) name = isEnumType pkg name.
Proof.
  unfold buildEnumLookup, isEnumType.
  assert (forall aliases lookup,
            flag (foldl (fun lookup alias =>
                           if decide (at_key (GoAlias_Tags alias) "go2proto:enum" = "true")
                           then <[GoAlias_Name alias := true]> lookup else lookup)
                        lookup aliases) name
            = flag lookup name
              || existsb (fun alias =>
                            bool_decide (GoAlias_Name alias = name)
                            && bool_decide (at_key (GoAlias_Tags alias) "go2proto:enum"
                                            = "true")) aliases) as Haliases.
  { induction aliases as [|alias aliases IH]; intros lookup; cbn [foldl existsb].
    - by rewrite orb_false_r.
    - rewrite IH. case_decide as Htag.
      + rewrite flag_insert, (bool_decide_eq_true_2 _ Htag), andb_true_r.
        by destruct (bool_decide _), (flag lookup name).
      + by rewrite (bool_decide_eq_false_2 _ Htag), andb_false_r. }
  assert (forall consts lookup,
            flag (foldl (fun lookup cg =>
                           if (2 <=? length (GoConstGroup_Values cg))%nat
                           then <[GoConstGroup_TypeName cg := true]> lookup else lookup)
                        lookup consts) name
            = flag lookup name
              || existsb (fun cg =>
                            bool_decide (GoConstGroup_TypeName cg = name)
                            && (2 <=? length (GoConstGroup_Values cg))%nat) consts)
    as Hconsts.
  { induction consts as [|cg consts IH]; intros lookup; cbn [foldl existsb].
    - by rewrite orb_false_r.
    - rewrite IH. destruct (2 <=? _)%nat.
      + rewrite flag_insert, andb_true_r.
        by destruct (bool_decide _), (flag lookup name).
      + by rewrite andb_false_r. }
  rewrite Haliases, Hconsts. reflexivity.
Qed.

Lemma transformEnums_filter pkg enumLookup :
  Proto_Enums (transformEnums t pkg enumLookup)
  = enumOf <$> ct.Filter (GoPackage_Consts pkg)
                         (fun cg => flag enumLookup (GoConstGroup_TypeName cg)).
Proof.
  unfold transformEnums. cbn [Proto_Enums].
  assert (forall consts enums,
            foldl (fun enums cg =>
                     if negb (flag enumLookup (GoConstGroup_TypeName cg)) then enums
                     else enums ++ [enumOf cg]) enums consts
            = enums ++ (enumOf <$> ct.Filter consts
                                     (fun cg => flag enumLookup (GoConstGroup_TypeName cg))))
    as Hfold.
  { induction consts as [|cg consts IH]; intros enums; cbn [foldl ct.Filter].
    - by rewrite app_nil_r.
    - rewrite IH. destruct (flag enumLookup _); cbn [negb]; [|done].
      by rewrite fmap_cons, <- app_assoc. }
  by rewrite Hfold.
Qed.

End enum_lookup.

(** X15: a type name is looked up as an enum exactly when a constant group
    of two values or more bears it or an alias is tagged as an enum; one enum
    is emitted for each constant group whose type name is looked up so, in
    the order of the groups, with one value per constant, the numbers kept
    and the names prefixed; and a field of a named type resolves to the enum
    of that name whatever its package qualifier. *)
Theorem enums_emitted (t : Transformer) (pkg : GoPackage) :
  (forall name, flag (buildEnumLookup t pkg) name = isEnumType pkg name) /\
  Proto_Enums (transformEnums t pkg (buildEnumLookup t pkg))
  = enumOf <$> ct.Filter (GoPackage_Consts pkg)
                         (fun cg => isEnumType pkg (GoConstGroup_TypeName cg)) /\
  (forall cg,
     ProtoEnum_Name (enumOf cg) = GoConstGroup_TypeName cg /\
     ProtoEnumValue_Number <$> ProtoEnum_Values (enumOf cg)
     = GoConstValue_Value <$> GoConstGroup_Values cg /\
     ProtoEnumValue_Name <$> ProtoEnum_Values (enumOf cg)
     = (fun cv => toEnumValueName (GoConstGroup_TypeName cg) (GoConstValue_Name cv))
         <$> GoConstGroup_Values cg) /\
  (forall Package Name typeParamsLookup,
     isEnumType pkg Name = true ->
     transformType t (NamedType Package Name) (buildEnumLookup t pkg) typeParamsLookup
     = resolved Name []).
Proof.
  split; [apply buildEnumLookup_flag|]. split; [|split].
  - rewrite transformEnums_filter.
    induction (GoPackage_Consts pkg) as [|cg consts IH]; [done|].
    cbn [ct.Filter]. rewrite buildEnumLookup_flag.
    destruct (isEnumType _ _); [|done]. by rewrite !fmap_cons, IH.
  - intros cg. unfold enumOf. cbn [ProtoEnum_Name ProtoEnum_Values].
    rewrite foldl_snoc_fmap. cbn [app]. rewrite <- !list_fmap_compose. done.
  - intros Package Name typeParamsLookup Henum. cbn [transformType].
    by rewrite buildEnumLookup_flag, Henum.
Qed.

Lemma enums_emitted_witness :
  transformType (NewTransformer DefaultOptions) (NamedType "" "Status")
    (buildEnumLookup (NewTransformer DefaultOptions) models) ∅
  = resolved "Status" [].
Proof.
  apply (proj2 (proj2 (proj2 (enums_emitted (NewTransformer DefaultOptions) models)))).
  vm_compute. reflexivity.
Defined.

(** ** Services *)

Section services.
Variable t : Transformer.

Lemma method_scan serviceName methods st :
  let results := (fun m => transformMethod t m serviceName) <$> methods in
  let final := foldl (transformInterface_method t serviceName) st methods in
  serviceMethods final = serviceMethods st ++ (rpc <$> results) /\
  scanMessages final = scanMessages st ++ mjoin (envelopes <$> results) /\
  methodScanImports final = methodScanImports st ++ mjoin (methodImports <$> results).
Proof.
  revert st. induction methods as [|m methods IH]; intros st; cbn [foldl].
  - cbn. by rewrite !app_nil_r.
  - destruct (IH (transformInterface_method t serviceName st m)) as (-> & -> & ->).
    rewrite !fmap_cons. cbn [mjoin list_join]. unfold transformInterface_method, envelopes.
    cbn [serviceMethods scanMessages methodScanImports].
    destruct (reqMsg _), (respMsg _); cbn [option_list app];
      rewrite <- ?app_assoc; cbn [app]; done.
Qed.

Lemma transformInterface_untagged i :
  isService i = false -> transformInterface t i = ct.Empty ProtoMonoid.
Proof.
  unfold isService, transformInterface. intros [-> ->]%orb_false_iff. reflexivity.
Qed.

Lemma transformInterface_tagged i :
  isService i = true ->
  let results := (fun m => transformMethod t m (GoInterface_Name i)) <$> GoInterface_Methods i in
  transformInterface t i
  = Build_Proto "" "" ∅ (ct.Unique (mjoin (methodImports <$> results))) []
      (mjoin (envelopes <$> results))
      [Build_ProtoService (GoInterface_Name i) (rpc <$> results)
         (filterNonTagComments (GoInterface_Comments i))].
Proof.
  unfold isService, transformInterface. intros Htag.
  destruct (bool_decide _), (bool_decide _); try discriminate Htag; cbn [negb andb];
    destruct (method_scan (GoInterface_Name i) (GoInterface_Methods i)
                (Build_MethodScan [] [] [])) as (-> & -> & ->); reflexivity.
Qed.

Lemma transformMethod_rpc m serviceName :
  let r := rpc (transformMethod t m serviceName) in
  ProtoRPC_Name r = GoMethod_Name m /\
  ProtoRPC_ClientStreaming r = false /\ ProtoRPC_ServerStreaming r = false /\
  ProtoRPC_Comments r = [].
Proof.
  unfold transformMethod.
  destruct (ct.Filter (GoMethod_Params m) notContext) as [|p [|p' params]];
    destruct (ct.Filter (GoMethod_Results m) notError) as [|r [|r' results]];
    repeat match goal with
      | |- context [match GoParam_Type ?x with _ => _ end] => destruct (GoParam_Type x)
      | |- context [match ?e with
                    | BasicType _ => _ | PointerType _ => _ | SliceType _ => _
                    | ArrayType _ _ => _ | MapType _ _ => _ | NamedType _ _ => _
                    | InterfaceType _ => _ | StructType _ => _ | ChanType _ _ => _
                    | FuncType _ _ => _ end] => destruct e
      end; done.
Qed.

End services.

Section rpc_types.
Variable t : Transformer.

Local Ltac destruct_method :=
  unfold transformMethod, rpcParams, rpcResults;
  repeat match goal with
    | |- context [ct.Filter ?xs ?p] =>
        let l := fresh "l" in
        generalize (ct.Filter xs p); intros l; destruct l as [|? [|? ?]]
    end;
  repeat match goal with
    | |- context [match GoParam_Type ?x with _ => _ end] =>
        destruct (GoParam_Type x) eqn:?
    | |- context [match ?e with
                  | BasicType _ => _ | PointerType _ => _ | SliceType _ => _
                  | ArrayType _ _ => _ | MapType _ _ => _ | NamedType _ _ => _
                  | InterfaceType _ => _ | StructType _ => _ | ChanType _ _ => _
                  | FuncType _ _ => _ end] => destruct e
    end.

(** The request side of [transformMethod]. *)
Lemma transformMethod_input m serviceName :
  let r := transformMethod t m serviceName in
  (rpcParams m = [] /\ ProtoRPC_InputType (rpc r) = "google.protobuf.Empty" /\
   reqMsg r = None) \/
  (exists p Package Name,
     rpcParams m = [p] /\ GoParam_Type p = NamedType Package Name /\
     ProtoRPC_InputType (rpc r) = Name /\ reqMsg r = None) \/
  (reqMsg r = Some (generateRequestMessage t (GoMethod_Name m) (rpcParams m)) /\
   ProtoRPC_InputType (rpc r) = GoMethod_Name m +:+ "Request").
Proof.
  destruct_method; cbn;
    first [ left; done
          | right; left; do 3 eexists; repeat split; eauto; done
          | right; right; done ].
Qed.

(** The response side of [transformMethod]. *)
Lemma transformMethod_output m serviceName :
  let r := transformMethod t m serviceName in
  (rpcResults m = [] /\ ProtoRPC_OutputType (rpc r) = "google.protobuf.Empty" /\
   respMsg r = None) \/
  (exists p Package Name,
     rpcResults m = [p] /\
     (GoParam_Type p = NamedType Package Name \/
      GoParam_Type p = PointerType (NamedType Package Name)) /\
     ProtoRPC_OutputType (rpc r) = Name /\ respMsg r = None) \/
  (respMsg r = Some (generateResponseMessage t (GoMethod_Name m) (rpcResults m)) /\
   ProtoRPC_OutputType (rpc r) = GoMethod_Name m +:+ "Response").
Proof.
  destruct_method; cbn;
    first [ left; done
          | right; left; do 3 eexists; split; [done|]; split; [left; eauto; done|done]
          | right; left; do 3 eexists; split; [done|]; split; [right; eauto; done|done]
          | right; right; done ].
Qed.

Lemma transformMethod_empty_import m serviceName :
  "google/protobuf/empty.proto" ∈ methodImports (transformMethod t m serviceName) <->
  rpcParams m = [] \/ rpcResults m = [].
Proof.
  destruct_method; cbn;
    (split; [intros Himp|intros [Hnil|Hnil]]);
    try discriminate Hnil;
    try (repeat (apply elem_of_cons in Himp as [?|Himp]); by apply elem_of_nil in Himp);
    first [ by left | by right | set_solver ].
Qed.

Lemma envelope_members i m msg :
  isService i = true -> m ∈ GoInterface_Methods i ->
  msg ∈ envelopes (transformMethod t m (GoInterface_Name i)) ->
  msg ∈ Proto_Messages (transformInterface t i).
Proof.
  intros Htag Hm Hmsg. rewrite transformInterface_tagged by done. cbn [Proto_Messages].
  apply list_elem_of_join. eexists. split; [exact Hmsg|].
  apply list_elem_of_fmap. eexists. split; [reflexivity|].
  apply list_elem_of_fmap. by eexists.
Qed.

Lemma empty_import_members i :
  "google/protobuf/empty.proto" ∈ Proto_Imports (transformInterface t i) <->
  isService i = true /\
  exists m, m ∈ GoInterface_Methods i /\ (rpcParams m = [] \/ rpcResults m = []).
Proof.
  destruct (isService i) eqn:Htag.
  - rewrite transformInterface_tagged by done. cbn [Proto_Imports].
    rewrite Unique_dedup, elem_of_dedup. split.
    + intros [(imps & Himp & (r & -> & (m & -> & Hm)%list_elem_of_fmap)%list_elem_of_fmap)
                %list_elem_of_join _].
      split; [done|]. exists m. split; [done|]. by apply transformMethod_empty_import in Himp.
    + intros (_ & m & Hm & Hnil). split; [|set_solver].
      apply list_elem_of_join. eexists. split; [by apply transformMethod_empty_import|].
      apply list_elem_of_fmap. eexists. split; [reflexivity|].
      apply list_elem_of_fmap. by eexists.
  - rewrite transformInterface_untagged by done. cbn.
    split; [by intros ?%elem_of_nil|by intros [? _]].
Qed.

End rpc_types.

(** X16: an interface without a service tag contributes nothing; a tagged
    one contributes exactly one service, named after the interface, with one
    RPC per method in declaration order, named after the method and never
    streaming, and the tag lines dropped from its comments. *)
Theorem services_emitted (t : Transformer) (i : GoInterface) :
  (isService i = false -> transformInterface t i = ct.Empty ProtoMonoid) /\
  (isService i = true ->
   exists service,
     Proto_Services (transformInterface t i) = [service] /\
     ProtoService_Name service = GoInterface_Name i /\
     ProtoService_Comments service = filterNonTagComments (GoInterface_Comments i) /\
     ProtoRPC_Name <$> ProtoService_Methods service
     = GoMethod_Name <$> GoInterface_Methods i /\
     Forall (fun r => ProtoRPC_ClientStreaming r = false /\
                      ProtoRPC_ServerStreaming r = false)
            (ProtoService_Methods service)).
Proof.
  split; [apply transformInterface_untagged|].
  intros Htag. rewrite transformInterface_tagged by done. cbn [Proto_Services].
  eexists. split; [reflexivity|]. cbn [ProtoService_Name ProtoService_Comments
                                       ProtoService_Methods].
  split; [done|]. split; [done|]. split.
  - rewrite <- !list_fmap_compose. apply list_fmap_ext.
    intros _ m _. apply transformMethod_rpc.
  - rewrite <- list_fmap_compose. apply Forall_fmap, Forall_forall.
    intros m _. cbn. by destruct (transformMethod_rpc t m (GoInterface_Name i)) as (_ & ? & ? & _).
Qed.

Lemma services_emitted_witness :
  transformInterface (NewTransformer DefaultOptions)
    (Build_GoInterface "Store" [GetUser] ["Store keeps users."] ∅)
  = ct.Empty ProtoMonoid.
Proof.
  apply (proj1 (services_emitted (NewTransformer DefaultOptions)
                  (Build_GoInterface "Store" [GetUser] ["Store keeps users."] ∅))).
  reflexivity.
Defined.

(** X17: no RPC of a service refers to an envelope that is missing.  The
    request type of the RPC of a method is [google.protobuf.Empty] when no
    parameter is left beside the context, the name of the parameter's type
    when the only parameter left is of a named type, and otherwise the name
    of the request envelope of the method, which is among the messages of
    the fragment; likewise for the response type, where a pointer to a named
    type counts as the named type. *)
Theorem rpc_types_defined (t : Transformer) (i : GoInterface) (m : GoMethod) :
  isService i = true -> m ∈ GoInterface_Methods i ->
  let r := rpc (transformMethod t m (GoInterface_Name i)) in
  let messages := Proto_Messages (transformInterface t i) in
  ((rpcParams m = [] /\ ProtoRPC_InputType r = "google.protobuf.Empty") \/
   (exists p Package Name,
      rpcParams m = [p] /\ GoParam_Type p = NamedType Package Name /\
      ProtoRPC_InputType r = Name) \/
   (generateRequestMessage t (GoMethod_Name m) (rpcParams m) ∈ messages /\
    ProtoRPC_InputType r
    = ProtoMessage_Name (generateRequestMessage t (GoMethod_Name m) (rpcParams m)))) /\
  ((rpcResults m = [] /\ ProtoRPC_OutputType r = "google.protobuf.Empty") \/
   (exists p Package Name,
      rpcResults m = [p] /\
      (GoParam_Type p = NamedType Package Name \/
       GoParam_Type p = PointerType (NamedType Package Name)) /\
      ProtoRPC_OutputType r = Name) \/
   (generateResponseMessage t (GoMethod_Name m) (rpcResults m) ∈ messages /\
    ProtoRPC_OutputType r
    = ProtoMessage_Name (generateResponseMessage t (GoMethod_Name m) (rpcResults m)))).
Proof.
  intros Htag Hm r messages. subst r messages. split.
  - destruct (transformMethod_input t m (GoInterface_Name i))
      as [(? & ? & _)|[(p & Package & Name & ? & ? & ? & _)|[Hreq ?]]].
    + by left.
    + right; left. by exists p, Package, Name.
    + right; right. split; [|done]. apply (envelope_members t i m); [done..|].
      unfold envelopes. rewrite Hreq. by left.
  - destruct (transformMethod_output t m (GoInterface_Name i))
      as [(? & ? & _)|[(p & Package & Name & ? & ? & ? & _)|[Hresp ?]]].
    + by left.
    + right; left. by exists p, Package, Name.
    + right; right. split; [|done]. apply (envelope_members t i m); [done..|].
      unfold envelopes. rewrite Hresp. apply elem_of_app. right. by left.
Qed.

Lemma rpc_types_defined_witness :
  generateRequestMessage (NewTransformer DefaultOptions) "GetUser" (rpcParams GetUser)
    ∈ Proto_Messages
        (transformInterface (NewTransformer DefaultOptions)
           (Build_GoInterface "UserService" [GetUser] []
              {[ "go2proto:service" := "true" ]})).
Proof.
  assert (isService (Build_GoInterface "UserService" [GetUser] []
                       {[ "go2proto:service" := "true" ]}) = true) as Htag
    by (vm_compute; reflexivity).
  destruct (proj1 (rpc_types_defined (NewTransformer DefaultOptions) _ GetUser Htag
                     (list_elem_of_here _ _)))
    as [[Hnil _]|[(p & Package & Name & Hp & Htype & _)|[Hmsg _]]].
  - vm_compute in Hnil. discriminate Hnil.
  - vm_compute in Hp. injection Hp as <-. vm_compute in Htype. discriminate Htype.
  - exact Hmsg.
Defined.

(** X18: the fragment of an interface imports nothing but
    [google/protobuf/empty.proto], and imports it exactly when the interface
    is a service with a method that keeps no parameter or no result. *)
Theorem empty_import_iff (t : Transformer) (i : GoInterface) :
  (Proto_Imports (transformInterface t i) = [] \/
   Proto_Imports (transformInterface t i) = ["google/protobuf/empty.proto"]) /\
  ("google/protobuf/empty.proto" ∈ Proto_Imports (transformInterface t i) <->
   isService i = true /\
   exists m, m ∈ GoInterface_Methods i /\ (rpcParams m = [] \/ rpcResults m = [])).
Proof.
  split; [|apply empty_import_members].
  assert (NoDup (Proto_Imports (transformInterface t i))) as Hnodup.
  { unfold transformInterface. destruct (negb _ && negb _); [constructor|].
    cbn [Proto_Imports]. rewrite Unique_dedup. apply NoDup_dedup. }
  pose proof (transformInterface_imports t i) as Himps.
  destruct (Proto_Imports (transformInterface t i)) as [|imp [|imp' imps]]; [by left| |].
  - right. f_equal. apply Himps. left.
  - exfalso. apply NoDup_cons in Hnodup as [Hnotin _]. apply Hnotin.
    rewrite (Himps imp), (Himps imp'); [left|right; left|left].
Qed.

Section envelope_messages.
Variable t : Transformer.

Lemma envelopeField_shape fallback k p :
  fallback ≠ "" ->
  let fld := envelopeField t fallback k p in
  ProtoField_Name fld ≠ "" /\ ProtoField_Number fld = wrap64 (Z.of_nat k + 1) /\
  ProtoField_Optional fld = false /\ ProtoField_Comments fld = [].
Proof.
  intros Hfallback. unfold envelopeField. cbn [ProtoField_Name ProtoField_Number
                                              ProtoField_Optional ProtoField_Comments].
  split; [|done]. intros Hname.
  assert (forall s : string, toSnakeCase s = "" -> s = "") as Hempty.
  { intros [|c rest]; [done|]. by rewrite toSnakeCase_head. }
  apply Hempty in Hname. case_decide; [|done].
  destruct fallback; [done|discriminate Hname].
Qed.

Lemma envelope_shape fallback params :
  fallback ≠ "" -> Z.of_nat (length params) < 2 ^ 63 ->
  let fields := imap (envelopeField t fallback) params in
  length fields = length params /\
  ProtoField_Number <$> fields = (fun k => Z.of_nat k + 1) <$> seq 0 (length params) /\
  Forall (fun fld => ProtoField_Name fld ≠ "" /\ ProtoField_Optional fld = false /\
                     ProtoField_Comments fld = []) fields.
Proof.
  intros Hfallback Hlen fields. subst fields. split; [apply length_imap|]. split.
  - apply list_eq. intros k. rewrite !list_lookup_fmap, list_lookup_imap.
    destruct (params !! k) as [p|] eqn:Hk; cbn.
    + apply lookup_lt_Some in Hk. rewrite lookup_seq_lt by done. cbn.
      rewrite wrap64_small by lia. reflexivity.
    + apply lookup_ge_None in Hk. by rewrite lookup_seq_ge.
  - apply Forall_lookup. intros k fld. rewrite list_lookup_imap.
    destruct (params !! k) as [p|]; [|done]. intros [= <-].
    destruct (envelopeField_shape fallback k p Hfallback) as (? & _ & ? & ?). done.
Qed.

End envelope_messages.

(** X19: an envelope message keeps every parameter it is given: it has one
    field per parameter, in order, numbered 1, 2, ... without a gap, never
    optional, and never with an empty name (an unnamed parameter is named
    after its position). *)
Theorem envelope_fields (t : Transformer) (methodName : string) (params : list GoParam) :
  Z.of_nat (length params) < 2 ^ 63 ->
  let shaped (suffix : string) (msg : ProtoMessage) :=
    ProtoMessage_Name msg = methodName +:+ suffix /\
    length (ProtoMessage_Fields msg) = length params /\
    ProtoField_Number <$> ProtoMessage_Fields msg
    = (fun k => Z.of_nat k + 1) <$> seq 0 (length params) /\
    Forall (fun fld => ProtoField_Name fld ≠ "" /\ ProtoField_Optional fld = false /\
                       ProtoField_Comments fld = [])
           (ProtoMessage_Fields msg) in
  shaped "Request" (generateRequestMessage t methodName params) /\
  shaped "Response" (generateResponseMessage t methodName params).
Proof.
  intros Hlen shaped. subst shaped. cbn beta.
  unfold generateRequestMessage, generateResponseMessage.
  cbn [ProtoMessage_Name ProtoMessage_Fields].
  split; (split; [done|]); by apply envelope_shape.
Qed.

Lemma envelope_fields_witness :
  ProtoField_Number <$>
    ProtoMessage_Fields
      (generateResponseMessage (NewTransformer DefaultOptions) "Schedule"
         [Build_GoParam "" (NamedType "time" "Time"); Build_GoParam "" (BasicType "bool")])
  = [1; 2].
Proof.
  apply (proj2 (envelope_fields (NewTransformer DefaultOptions) "Schedule"
                  [Build_GoParam "" (NamedType "time" "Time");
                   Build_GoParam "" (BasicType "bool")] ltac:(vm_compute; reflexivity))).
Defined.

(** ** Directives in comments *)

Section directives.

Local Abbreviation step :=
  (fun (tags : gmap string string) (line : string) =>
     let line := gostrings.TrimSpace line in
     match gostrings.strip_prefix "+" line with
     | Some line =>
         let parts := gostrings.SplitN2 line "=" in
         let key := gostrings.TrimSpace (default "" (parts !! 0%nat)) in
         let value :=
           match parts !! 1%nat with
           | Some v => gostrings.TrimSpace v
           | None => "true"
           end in
         <[key := value]> tags
     | None => tags
     end).

Lemma tags_of_documentation comments tags :
  foldl step tags (filterNonTagComments comments) = tags.
Proof.
  unfold filterNonTagComments.
  revert tags. induction comments as [|c comments IH]; intros tags; [done|].
  cbn [ct.Filter]. unfold gostrings.HasPrefix at 1.
  destruct (gostrings.strip_prefix _ _) eqn:Hc; cbn [negb]; [apply IH|].
  cbn [foldl]. rewrite Hc. apply IH.
Qed.

Lemma tags_of_directives comments tags :
  foldl step tags (ct.Filter comments isTagLine) = foldl step tags comments.
Proof.
  revert tags. induction comments as [|c comments IH]; intros tags; [done|].
  cbn [ct.Filter foldl]. unfold isTagLine at 1, gostrings.HasPrefix.
  destruct (gostrings.strip_prefix _ _) eqn:Hc; [|apply IH].
  cbn [foldl]. rewrite Hc. apply IH.
Qed.

Lemma Filter_idemp {A : Type} (xs : list A) (pred : A -> bool) :
  ct.Filter (ct.Filter xs pred) pred = ct.Filter xs pred.
Proof.
  induction xs as [|x xs IH]; [done|]. cbn [ct.Filter].
  destruct (pred x) eqn:Hx; [|done]. cbn [ct.Filter]. by rewrite Hx, IH.
Qed.

End directives.

(** X20: a comment line is either a directive or documentation, never both:
    the comments kept as documentation yield no tag, the directives alone
    yield every tag, and filtering twice changes nothing. *)
Theorem comments_split (comments : list string) :
  extractTags (filterNonTagComments comments) = ∅ /\
  extractTags (ct.Filter comments isTagLine) = extractTags comments /\
  filterNonTagComments (filterNonTagComments comments) = filterNonTagComments comments /\
  Forall (fun c => isTagLine c = false) (filterNonTagComments comments).
Proof.
  split; [apply tags_of_documentation|]. split; [apply tags_of_directives|]. split.
  - apply Filter_idemp.
  - apply Forall_forall. unfold filterNonTagComments.
    intros c [_ Hc]%elem_of_Filter. unfold isTagLine. by destruct (gostrings.HasPrefix _ _).
Qed.

(** ** Constant blocks *)

Section const_blocks.

Lemma positions_cons start name names :
  positions start (name :: names)
  = (if IsExported name then [(name, Z.of_nat start)] else [])
    ++ positions (S start) names.
Proof.
  unfold positions. cbn [imap omap]. rewrite Nat.add_0_r.
  assert (imap ((fun k name0 =>
                   if IsExported name0 then Some (name0, Z.of_nat (start + k)) else None)
                ∘ S) names
          = imap (fun k name0 =>
                    if IsExported name0 then Some (name0, Z.of_nat (S start + k)) else None)
                 names) as ->.
  { apply imap_ext. intros k x _. cbn. by rewrite Nat.add_succ_r. }
  by destruct (IsExported name).
Qed.

Lemma positions_app start names1 names2 :
  positions start (names1 ++ names2)
  = positions start names1 ++ positions (start + length names1) names2.
Proof.
  revert start. induction names1 as [|n names1 IH]; intros start.
  - cbn [app length]. by rewrite Nat.add_0_r.
  - cbn [app length]. rewrite !positions_cons, IH, <- app_assoc.
    by rewrite Nat.add_succ_r.
Qed.

Lemma block_names_cons spec specs :
  block_names (spec :: specs)
  = match spec with IsValueSpec vs => ValueSpec_Names vs | OtherSpec => [] end
    ++ block_names specs.
Proof. reflexivity. Qed.

Local Abbreviation pair_of := (fun cv => (GoConstValue_Name cv, GoConstValue_Value cv)).

(** [extractNames] numbers every name by its position and keeps the
    exported ones. *)
Lemma extractNames_positions doc names (i : nat) values :
  Z.of_nat (i + length names) < 2 ^ 63 ->
  (extractNames doc names (Z.of_nat i) values).1 = Z.of_nat (i + length names) /\
  exists suffix,
    (extractNames doc names (Z.of_nat i) values).2 = values ++ suffix /\
    pair_of <$> suffix = positions i names /\
    Forall (fun cv => GoConstValue_Comments cv = doc) suffix.
Proof.
  unfold extractNames.
  revert i values. induction names as [|n names IH]; intros i values Hlen.
  - cbn [foldl length fst snd]. rewrite Nat.add_0_r. split; [done|].
    exists []. by rewrite app_nil_r.
  - cbn [foldl length] in *. rewrite positions_cons.
    assert (wrap64 (Z.of_nat i + 1) = Z.of_nat (S i)) as Hnext
      by (rewrite wrap64_small; lia).
    destruct (IsExported n) eqn:Hn; cbn [negb]; rewrite Hnext.
    + destruct (IH (S i) (values ++ [Build_GoConstValue n (Z.of_nat i) doc]))
        as (-> & suffix & -> & Hpairs & Hdocs); [lia|].
      split; [f_equal; lia|].
      exists (Build_GoConstValue n (Z.of_nat i) doc :: suffix).
      rewrite <- app_assoc. split; [done|]. rewrite fmap_cons, Hpairs.
      split; [done|]. by constructor.
    + destruct (IH (S i) values) as (-> & suffix & -> & Hpairs & Hdocs); [lia|].
      split; [f_equal; lia|]. by exists suffix.
Qed.

(** A spec without a type identifier, met before any type is current,
    records nothing. *)
Lemma extractSpec_untyped st spec :
  currentType st = "" -> typed spec = false -> extractSpec st spec = st.
Proof.
  intros Hcurrent Htyped. destruct spec as [vs|]; [|done]. cbn in *.
  destruct (ValueSpec_Type vs) as [[]|]; try discriminate Htyped; by rewrite decide_True.
Qed.

(** The scan of the specs that continue the type [T]. *)
Lemma foldl_extractSpec_continues T specs st g (i : nat) :
  T ≠ "" -> currentType st = T -> iotaValue st = Z.of_nat i ->
  groups st !! T = Some g ->
  Forall (fun spec => continues T spec = true) specs ->
  Z.of_nat (i + length (block_names specs)) < 2 ^ 63 ->
  exists g',
    groups (foldl extractSpec st specs) !! T = Some g' /\
    GoConstGroup_TypeName g' = GoConstGroup_TypeName g /\
    exists suffix,
      GoConstGroup_Values g' = GoConstGroup_Values g ++ suffix /\
      pair_of <$> suffix = positions i (block_names specs) /\
      forall k, k ≠ T -> groups (foldl extractSpec st specs) !! k = groups st !! k.
Proof.
  intros HT. revert st g i.
  induction specs as [|spec specs IH]; intros st g i Hcur Hiota Hg Hspecs Hlen.
  - exists g. split; [done|]. split; [done|]. exists []. by rewrite app_nil_r.
  - apply Forall_cons in Hspecs as [Hspec Hspecs]. cbn [foldl].
    rewrite block_names_cons in Hlen |- *.
    rewrite length_app in Hlen. rewrite positions_app.
    destruct spec as [vs|].
    + assert (extractSpec st (IsValueSpec vs)
              = let '(iota', values') :=
                  extractNames (ValueSpec_Doc vs) (ValueSpec_Names vs) (Z.of_nat i)
                               (GoConstGroup_Values g) in
                Build_ConstScan T iota'
                  (<[T := Build_GoConstGroup (GoConstGroup_TypeName g) values']>
                     (groups st))) as ->.
      { cbn [extractSpec]. cbn in Hspec.
        destruct (ValueSpec_Type vs) as [[name|]|];
          [apply bool_decide_eq_true_1 in Hspec as ->;
           rewrite (decide_True (P := currentType st = T)) by done| |];
          rewrite (decide_False (P := currentType st = "")) by congruence;
          rewrite Hcur, Hg, Hiota; reflexivity. }
      destruct (extractNames_positions (ValueSpec_Doc vs) (ValueSpec_Names vs) i
                  (GoConstGroup_Values g)) as (Hfst & suffix & Hsnd & Hpairs & _); [lia|].
      destruct (extractNames _ _ _ _) as [iota' values']. cbn [fst snd] in Hfst, Hsnd.
      subst iota' values'.
      destruct (IH (Build_ConstScan T (Z.of_nat (i + length (ValueSpec_Names vs)))
                      (<[T := Build_GoConstGroup (GoConstGroup_TypeName g)
                                (GoConstGroup_Values g ++ suffix)]> (groups st)))
                   (Build_GoConstGroup (GoConstGroup_TypeName g)
                      (GoConstGroup_Values g ++ suffix))
                   (i + length (ValueSpec_Names vs))%nat)
        as (g' & Hg' & Hname & suffix' & Hvalues & Hpairs' & Hother);
        [done|done|cbn; by rewrite lookup_insert_eq|done|lia|].
      exists g'. split; [done|]. split; [done|].
      exists (suffix ++ suffix'). cbn [GoConstGroup_Values] in Hvalues.
      rewrite Hvalues, <- app_assoc, fmap_app, Hpairs, Hpairs'. split; [done|]. split; [done|].
      intros k Hk. rewrite Hother by done. cbn. by rewrite lookup_insert_ne.
    + cbn [app length] in *. rewrite Nat.add_0_r. by apply IH.
Qed.

End const_blocks.

Section const_growth.

Lemma extractSpec_grows st spec T g :
  groups st !! T = Some g ->
  exists g', groups (extractSpec st spec) !! T = Some g' /\
             GoConstGroup_TypeName g' = GoConstGroup_TypeName g /\
             GoConstGroup_Values g `prefix_of` GoConstGroup_Values g'.
Proof.
  intros Hg. destruct spec as [vs|]; [|by exists g].
  cbn [extractSpec].
  set (st1 := match ValueSpec_Type vs with
              | Some (Ident name) =>
                  if decide (currentType st = name) then st
                  else Build_ConstScan name 0 (groups st)
              | _ => st
              end).
  assert (groups st1 = groups st) as Hgroups.
  { subst st1. destruct (ValueSpec_Type vs) as [[name|]|]; [by case_decide|done..]. }
  case_decide; [exists g; by rewrite Hgroups|].
  destruct (extractNames_appends (ValueSpec_Doc vs) (ValueSpec_Names vs) (iotaValue st1)
              (GoConstGroup_Values
                 match groups st1 !! currentType st1 with
                 | Some g0 => g0
                 | None => Build_GoConstGroup (currentType st1) []
                 end)) as [suffix Hsuffix].
  destruct (extractNames _ _ _ _) as [iota' values']. cbn [snd] in Hsuffix. subst values'.
  cbn [groups]. destruct (decide (currentType st1 = T)) as [HT|HT].
  - rewrite HT, lookup_insert_eq, Hgroups, Hg. eexists. split; [done|]. split; [done|].
    by exists suffix.
  - rewrite lookup_insert_ne, Hgroups by done. by exists g.
Qed.

Lemma foldl_extractSpec_grows specs st T g :
  groups st !! T = Some g ->
  exists g', groups (foldl extractSpec st specs) !! T = Some g' /\
             GoConstGroup_TypeName g' = GoConstGroup_TypeName g /\
             GoConstGroup_Values g `prefix_of` GoConstGroup_Values g'.
Proof.
  revert st g. induction specs as [|spec specs IH]; intros st g Hg; [by exists g|].
  cbn [foldl]. destruct (extractSpec_grows st spec T g Hg) as (g1 & Hg1 & Hname1 & Hpre1).
  destruct (IH _ _ Hg1) as (g' & Hg' & Hname & Hpre). exists g'.
  split; [done|]. split; [congruence|]. by etrans.
Qed.

Lemma foldl_extractSpec_untyped specs st :
  currentType st = "" -> Forall (fun spec => typed spec = false) specs ->
  foldl extractSpec st specs = st.
Proof.
  intros Hcurrent Hspecs. induction Hspecs as [|spec specs Hspec _ IH]; [done|].
  cbn [foldl]. by rewrite extractSpec_untyped.
Qed.

End const_growth.

(** The scan of a block that opens with a spec of the type [T]. *)
Lemma extractConsts_block (T : string) (vs : ValueSpec) (rest : list Spec)
    (groups : gmap string GoConstGroup) :
  T ≠ "" -> ValueSpec_Type vs = Some (Ident T) ->
  Forall (fun spec => continues T spec = true) rest ->
  Z.of_nat (length (block_names (IsValueSpec vs :: rest))) < 2 ^ 63 ->
  let before := default (Build_GoConstGroup T []) (groups !! T) in
  let after := extractConsts (IsValueSpec vs :: rest) groups in
  exists g suffix,
    after !! T = Some g /\
    GoConstGroup_TypeName g = GoConstGroup_TypeName before /\
    GoConstGroup_Values g = GoConstGroup_Values before ++ suffix /\
    (fun cv => (GoConstValue_Name cv, GoConstValue_Value cv)) <$> suffix
    = positions 0 (block_names (IsValueSpec vs :: rest)) /\
    forall k, k ≠ T -> after !! k = groups !! k.
Proof.
  intros HT Htype Hrest Hlen before after. subst after. unfold extractConsts. cbn [foldl].
  rewrite block_names_cons in Hlen |- *. rewrite length_app in Hlen. rewrite positions_app.
  assert (extractSpec (Build_ConstScan "" 0 groups) (IsValueSpec vs)
          = let '(iota', values') :=
              extractNames (ValueSpec_Doc vs) (ValueSpec_Names vs) 0
                           (GoConstGroup_Values before) in
            Build_ConstScan T iota'
              (<[T := Build_GoConstGroup (GoConstGroup_TypeName before) values']> groups))
    as ->.
  { cbn [extractSpec]. rewrite Htype. cbn [currentType].
    rewrite (decide_False (P := "" = T)) by done. cbn [currentType iotaValue parser.groups].
    rewrite decide_False by done. subst before. by destruct (groups !! T). }
  destruct (extractNames_positions (ValueSpec_Doc vs) (ValueSpec_Names vs) 0
              (GoConstGroup_Values before)) as (Hfst & suffix & Hsnd & Hpairs & _); [lia|].
  change (Z.of_nat 0) with 0 in Hfst, Hsnd.
  destruct (extractNames _ _ _ _) as [iota' values']. cbn [fst snd] in Hfst, Hsnd.
  subst iota' values'.
  destruct (foldl_extractSpec_continues T rest
              (Build_ConstScan T (Z.of_nat (0 + length (ValueSpec_Names vs)))
                 (<[T := Build_GoConstGroup (GoConstGroup_TypeName before)
                           (GoConstGroup_Values before ++ suffix)]> groups))
              (Build_GoConstGroup (GoConstGroup_TypeName before)
                 (GoConstGroup_Values before ++ suffix))
              (0 + length (ValueSpec_Names vs))%nat)
    as (g & Hg & Hname & suffix' & Hvalues & Hpairs' & Hother);
    [done|done|done|cbn; by rewrite lookup_insert_eq|done|lia|].
  exists g, (suffix ++ suffix'). split; [done|]. split; [done|].
  cbn [GoConstGroup_Values] in Hvalues.
  rewrite Hvalues, <- app_assoc, fmap_app, Hpairs, Hpairs'. split; [done|]. split; [done|].
  intros k Hk. rewrite Hother by done. cbn. by rewrite lookup_insert_ne.
Qed.

(** X21: in a constant block that opens with a spec of the type [T] and
    goes on with specs that name no other type, and whose names start with
    an ASCII character, every name takes one position, counted from 0 over
    the whole block, and the exported names (those that start with a
    capital letter) are appended to the values of [T] in order, each
    numbered by its position; no other group changes. *)
Theorem enum_numbers_are_positions (T : string) (vs : ValueSpec) (rest : list Spec)
    (groups : gmap string GoConstGroup) :
  T ≠ "" -> ValueSpec_Type vs = Some (Ident T) ->
  Forall (fun spec => continues T spec = true) rest ->
  Forall (fun name => ascii_initial name = true) (block_names (IsValueSpec vs :: rest)) ->
  Z.of_nat (length (block_names (IsValueSpec vs :: rest))) < 2 ^ 63 ->
  let before := default (Build_GoConstGroup T []) (groups !! T) in
  let after := extractConsts (IsValueSpec vs :: rest) groups in
  exists g suffix,
    after !! T = Some g /\
    GoConstGroup_TypeName g = GoConstGroup_TypeName before /\
    GoConstGroup_Values g = GoConstGroup_Values before ++ suffix /\
    (fun cv => (GoConstValue_Name cv, GoConstValue_Value cv)) <$> suffix
    = positions 0 (block_names (IsValueSpec vs :: rest)) /\
    forall k, k ≠ T -> after !! k = groups !! k.
Proof.
  intros HT Htype Hrest _ Hlen. by apply extractConsts_block.
Qed.

Lemma enum_numbers_are_positions_witness :
  exists g,
    extractConsts
      [IsValueSpec (Build_ValueSpec ["Red"] (Some (Ident "Color")) []);
       IsValueSpec (Build_ValueSpec ["green"; "Blue"] None [])] ∅ !! "Color" = Some g /\
    (fun cv => (GoConstValue_Name cv, GoConstValue_Value cv)) <$> GoConstGroup_Values g
    = [("Red", 0); ("Blue", 2)].
Proof.
  destruct (enum_numbers_are_positions "Color"
              (Build_ValueSpec ["Red"] (Some (Ident "Color")) [])
              [IsValueSpec (Build_ValueSpec ["green"; "Blue"] None [])] ∅)
    as (g & suffix & Hg & _ & Hvalues & Hpairs & _).
  - discriminate.
  - reflexivity.
  - repeat constructor.
  - repeat constructor.
  - vm_compute. reflexivity.
  - exists g. split; [exact Hg|].
    rewrite lookup_empty in Hvalues. cbn in Hvalues. rewrite Hvalues. exact Hpairs.
Defined.

(** X22: [extractConsts] never drops or rewrites what is recorded: a group
    present before the block is still there after it, under its type name,
    with its values as a prefix of the new ones; and a block in which no
    spec names a type by an identifier records nothing at all. *)
Theorem extractConsts_conservative (specs : list Spec) (groups : gmap string GoConstGroup) :
  (forall T g,
     groups !! T = Some g ->
     exists g', extractConsts specs groups !! T = Some g' /\
                GoConstGroup_TypeName g' = GoConstGroup_TypeName g /\
                GoConstGroup_Values g `prefix_of` GoConstGroup_Values g') /\
  (Forall (fun spec => typed spec = false) specs -> extractConsts specs groups = groups).
Proof.
  unfold extractConsts. split.
  - intros T g Hg. by apply foldl_extractSpec_grows.
  - intros Hspecs. by rewrite foldl_extractSpec_untyped.
Qed.

Lemma extractConsts_conservative_witness :
  extractConsts [IsValueSpec (Build_ValueSpec ["KB"; "MB"] None ["Sizes."])] ∅ = ∅.
Proof.
  apply (proj2 (extractConsts_conservative
                  [IsValueSpec (Build_ValueSpec ["KB"; "MB"] None ["Sizes."])] ∅)).
  repeat constructor.
Defined.

(** ** Basic types *)

(** X23: with the default mappings, every basic Go type the parser knows
    resolves, without an import, to a proto scalar, save [any], which
    resolves to [google.protobuf.Any] with its import, and [complex64],
    [complex128] and [uintptr], which have no mapping and resolve to their
    own Go name. *)
Theorem basic_types_resolve (name : string) (enumLookup typeParamsLookup : gmap string bool) :
  isBasicType name = true ->
  let r := transformType (NewTransformer DefaultOptions) (BasicType name)
             enumLookup typeParamsLookup in
  repeated r = false /\ isMap r = false /\
  ((isBasicProtoType (protoType r) = true /\ imports r = []) \/
   (name = "any" /\ r = anyType) \/
   (name ∈ ["complex64"; "complex128"; "uintptr"] /\ r = resolved name [])).
Proof.
  intros Hbasic r. subst r. apply bool_decide_eq_true_1 in Hbasic.
  repeat (apply elem_of_cons in Hbasic as [->|Hbasic];
          [vm_compute; split; [done|]; split; [done|];
           first [ left; done
                 | right; left; done
                 | right; right; split; [|done];
                   repeat first [ apply list_elem_of_here | apply list_elem_of_further ] ]|]).
  by apply elem_of_nil in Hbasic.
Qed.

Lemma basic_types_resolve_witness :
  transformType (NewTransformer DefaultOptions) (BasicType "uintptr") ∅ ∅
  = resolved "uintptr" [].
Proof.
  destruct (basic_types_resolve "uintptr" ∅ ∅ ltac:(vm_compute; reflexivity))
    as (_ & _ & [[Hscalar _]|[[Hany _]|[_ Hown]]]).
  - vm_compute in Hscalar. discriminate Hscalar.
  - discriminate Hany.
  - exact Hown.
Defined.

(** ** The generator *)

Section string_order.

Lemma ascii_compare_refl (c : ascii) : Ascii.compare c c = Eq.
Proof. unfold Ascii.compare. apply N.compare_refl. Qed.

Lemma ascii_compare_lt_trans (a b c : ascii) :
  Ascii.compare a b = Lt -> Ascii.compare b c = Lt -> Ascii.compare a c = Lt.
Proof.
  unfold Ascii.compare. rewrite !N.compare_lt_iff. apply N.lt_trans.
Qed.

Lemma string_leb_trans (a b c : string) :
  String.leb a b = true -> String.leb b c = true -> String.leb a c = true.
Proof.
  unfold String.leb. revert b c.
  induction a as [|x a IH]; intros [|y b] [|z c]; cbn [String.compare]; try done.
  destruct (Ascii.compare x y) eqn:Hxy, (Ascii.compare y z) eqn:Hyz; try done.
  - apply Ascii.compare_eq_iff in Hxy as ->. apply Ascii.compare_eq_iff in Hyz as ->.
    rewrite ascii_compare_refl. apply IH.
  - apply Ascii.compare_eq_iff in Hxy as ->. by rewrite Hyz.
  - apply Ascii.compare_eq_iff in Hyz as ->. by rewrite Hxy.
  - by rewrite (ascii_compare_lt_trans x y z).
Qed.

#[local] Instance string_le_trans : Transitive gostrings.string_le.
Proof. intros a b c. apply string_leb_trans. Qed.

#[local] Instance string_le_total : Total gostrings.string_le.
Proof. intros a b. apply String.leb_total. Qed.

#[local] Instance string_le_antisym : AntiSymm eq gostrings.string_le.
Proof. intros a b. apply String.leb_antisym. Qed.

(** [sort.Strings] gives the one sorted arrangement. *)
Lemma sort_Strings_sorted xs :
  StronglySorted gostrings.string_le (gostrings.sort_Strings xs) /\
  gostrings.sort_Strings xs ≡ₚ xs.
Proof.
  split; [apply (StronglySorted_merge_sort _)|apply merge_sort_Permutation].
Qed.

Lemma sort_Strings_Permutation xs ys :
  xs ≡ₚ ys -> gostrings.sort_Strings xs = gostrings.sort_Strings ys.
Proof.
  intros Hperm. apply (StronglySorted_unique gostrings.string_le);
    [apply sort_Strings_sorted..|].
  by rewrite !(proj2 (sort_Strings_sorted _)).
Qed.

End string_order.

Section code.

Lemma Lines_fold {A : Type} (f : A -> generator.Code) xs init :
  generator.Lines
    (foldl (fun result x => ct.Append generator.CodeMonoid result (f x)) init xs)
  = generator.Lines init ++ mjoin ((fun x => generator.Lines (f x)) <$> xs).
Proof.
  revert init. induction xs as [|x xs IH]; intros init; cbn [foldl].
  - by rewrite fmap_nil, app_nil_r.
  - rewrite IH, fmap_cons. cbn. by rewrite <- app_assoc.
Qed.

Lemma Lines_FoldMap {A : Type} (f : A -> generator.Code) xs :
  generator.Lines (ct.FoldMap xs generator.CodeMonoid f)
  = mjoin ((fun x => generator.Lines (f x)) <$> xs).
Proof. unfold ct.FoldMap. by rewrite Lines_fold. Qed.

Lemma Lines_Concat cs :
  generator.Lines (ct.Concat generator.CodeMonoid cs) = mjoin (generator.Lines <$> cs).
Proof. unfold ct.Concat. by rewrite (Lines_fold (fun c => c)). Qed.

Lemma Code_eq (a b : generator.Code) : generator.Lines a = generator.Lines b -> a = b.
Proof. destruct a, b. cbn. by intros ->. Qed.

Lemma renderImports_Permutation p q :
  Proto_Imports p ≡ₚ Proto_Imports q -> generator.renderImports p = generator.renderImports q.
Proof.
  intros Hperm. unfold generator.renderImports.
  rewrite (sort_Strings_Permutation _ _ Hperm).
  destruct (Proto_Imports p) as [|imp imps] eqn:Hp, (Proto_Imports q) as [|imp' imps'] eqn:Hq;
    try done.
  - by apply Permutation_nil_cons in Hperm.
  - symmetry in Hperm. by apply Permutation_nil_cons in Hperm.
Qed.

Lemma renderOptions_run_eq p c :
  generator.renderOptions_run p c -> c = generator.renderOptions p.
Proof.
  unfold generator.renderOptions. intros [Hempty|keys Hne Hkeys].
  - by rewrite decide_True.
  - rewrite decide_False by done. unfold generator.renderOptions_from.
    by rewrite (sort_Strings_Permutation _ _ Hkeys).
Qed.

End code.

Section blocks.

Lemma join_singletons {A B : Type} (g : A -> B) (xs : list A) :
  mjoin ((fun x => [g x]) <$> xs) = g <$> xs.
Proof.
  induction xs as [|x xs IH]; [done|]. rewrite !fmap_cons, <- IH. reflexivity.
Qed.

Lemma Lines_renderEnums p :
  generator.Lines (generator.renderEnums p)
  = mjoin ((fun e => generator.Lines (generator.renderEnum e)) <$> Proto_Enums p).
Proof.
  unfold generator.renderEnums. destruct (Proto_Enums p) eqn:Hp; [done|].
  by rewrite Lines_FoldMap.
Qed.

Lemma Lines_renderMessages p :
  generator.Lines (generator.renderMessages p)
  = mjoin ((fun m => generator.Lines (generator.renderMessage m)) <$> Proto_Messages p).
Proof.
  unfold generator.renderMessages. destruct (Proto_Messages p) eqn:Hp; [done|].
  by rewrite Lines_FoldMap.
Qed.

Lemma Lines_renderServices p :
  generator.Lines (generator.renderServices p)
  = mjoin ((fun s => generator.Lines (generator.renderService s)) <$> Proto_Services p).
Proof.
  unfold generator.renderServices. destruct (Proto_Services p) eqn:Hp; [done|].
  by rewrite Lines_FoldMap.
Qed.

Lemma Lines_renderOptions_from options keys :
  generator.Lines (generator.renderOptions_from options keys)
  = ((fun k => "option " +:+ k +:+ " = " +:+ generator.quoted (at_key options k) +:+ ";")
       <$> gostrings.sort_Strings keys) ++ [""].
Proof.
  unfold generator.renderOptions_from. rewrite Lines_Concat. cbn [fmap list_fmap mjoin list_join].
  rewrite Lines_FoldMap, app_nil_r. f_equal.
  exact (join_singletons _ (gostrings.sort_Strings keys)).
Qed.

Lemma Lines_renderImports p :
  Proto_Imports p ≠ [] ->
  generator.Lines (generator.renderImports p)
  = ((fun imp => "import " +:+ generator.quoted imp +:+ ";")
       <$> gostrings.sort_Strings (Proto_Imports p)) ++ [""].
Proof.
  intros Hne. unfold generator.renderImports.
  destruct (Proto_Imports p) as [|imp imps] eqn:Hp; [done|].
  rewrite Lines_Concat. cbn [fmap list_fmap mjoin list_join].
  rewrite Lines_FoldMap, app_nil_r. f_equal.
  exact (join_singletons _ (gostrings.sort_Strings _)).
Qed.

End blocks.

(** X24: the options are printed in the order of their keys and the imports
    in their order as strings, one line each and a blank line after the
    block, whatever the order in which the map or the list holds them; an
    empty block prints nothing. *)
Theorem blocks_sorted (p : Proto) :
  let keys := gostrings.sort_Strings (map_to_list (Proto_Options p)).*1 in
  let imps := gostrings.sort_Strings (Proto_Imports p) in
  StronglySorted gostrings.string_le keys /\ keys ≡ₚ (map_to_list (Proto_Options p)).*1 /\
  StronglySorted gostrings.string_le imps /\ imps ≡ₚ Proto_Imports p /\
  generator.Lines (generator.renderOptions p)
  = (if decide (Proto_Options p = ∅) then []
     else ((fun k => "option " +:+ k +:+ " = "
                     +:+ generator.quoted (at_key (Proto_Options p) k) +:+ ";") <$> keys)
          ++ [""]) /\
  generator.Lines (generator.renderImports p)
  = (if decide (Proto_Imports p = []) then []
     else ((fun imp => "import " +:+ generator.quoted imp +:+ ";") <$> imps) ++ [""]).
Proof.
  intros keys imps. subst keys imps.
  split; [apply sort_Strings_sorted|]. split; [apply sort_Strings_sorted|].
  split; [apply sort_Strings_sorted|]. split; [apply sort_Strings_sorted|]. split.
  - unfold generator.renderOptions. case_decide; [done|]. apply Lines_renderOptions_from.
  - case_decide as Himps; [|by apply Lines_renderImports].
    unfold generator.renderImports. by rewrite Himps.
Qed.

(** X25: the text of [Generate] does not depend on the order in which the
    keys of the options are visited, nor on the order of the import list:
    for two values that agree up to the order of their imports, every run on
    one gives the text [Generate] computes for the other. *)
Theorem Generate_order_free (p q : Proto) (out : string) :
  same_up_to_imports p q -> Generate_run q out -> out = generator.Generate p.
Proof.
  intros (Hsyntax & Hpackage & Hoptions & Himports & Henums & Hmessages & Hservices).
  intros (options & Hrun%renderOptions_run_eq & ->). subst options.
  unfold generator.Generate, generator.generated, generated_with. do 2 f_equal.
  unfold generator.renderHeader, generator.renderPackage, generator.renderOptions,
    generator.renderEnums, generator.renderMessages, generator.renderServices.
  rewrite (renderImports_Permutation p q Himports).
  by rewrite Hsyntax, Hpackage, Hoptions, Henums, Hmessages, Hservices.
Qed.

Lemma Generate_order_free_witness :
  generator.Generate (Build_Proto "proto3" "shop" ∅ ["b.proto"; "a.proto"] [] [] [])
  = generator.Generate (Build_Proto "proto3" "shop" ∅ ["a.proto"; "b.proto"] [] [] []).
Proof.
  apply (Generate_order_free
           (Build_Proto "proto3" "shop" ∅ ["a.proto"; "b.proto"] [] [] [])
           (Build_Proto "proto3" "shop" ∅ ["b.proto"; "a.proto"] [] [] [])).
  - repeat split. apply perm_swap.
  - exists (ct.Empty generator.CodeMonoid). split; [by constructor|]. vm_compute. reflexivity.
Defined.

(** X26: rendering distributes over the composition of fragments for the
    three list sections: the enum, message and service blocks of a merge are
    the blocks of the left fragment followed by those of the right one. *)
Theorem render_distributes (a b : Proto) :
  generator.Lines (generator.renderEnums (Append a b))
  = generator.Lines (generator.renderEnums a) ++ generator.Lines (generator.renderEnums b) /\
  generator.Lines (generator.renderMessages (Append a b))
  = generator.Lines (generator.renderMessages a)
    ++ generator.Lines (generator.renderMessages b) /\
  generator.Lines (generator.renderServices (Append a b))
  = generator.Lines (generator.renderServices a)
    ++ generator.Lines (generator.renderServices b).
Proof.
  rewrite !Lines_renderEnums, !Lines_renderMessages, !Lines_renderServices, Append_eq.
  cbn [Proto_Enums Proto_Messages Proto_Services].
  by rewrite !fmap_app, !join_app.
Qed.

(** X27: the file generated for the result of the engine opens with the
    syntax line of proto3 and a blank line, then the package line if the
    package name is not empty, a blank line, and, when a package was given,
    exactly one option line, the [go_package] of the last package; the
    imports, enums, messages and services follow. *)
Theorem Generate_of_Transform (t : Transformer) (pkgs : list GoPackage) :
  let p := Transform t pkgs in
  generator.Lines (generator.generated p)
  = ["syntax = " +:+ generator.quoted "proto3" +:+ ";"; ""]
    ++ (if decide (Proto_Package p = "") then []
        else ["package " +:+ Proto_Package p +:+ ";"])
    ++ [""]
    ++ match last pkgs with
       | Some pkg =>
           ["option go_package = "
              +:+ generator.quoted
                    (if decide (TransformOptions_GoPackage (opts t) = "")
                     then GoPackage_Path pkg
                     else TransformOptions_GoPackage (opts t)) +:+ ";"; ""]
       | None => []
       end
    ++ generator.Lines (generator.renderImports p)
    ++ generator.Lines (generator.renderEnums p)
    ++ generator.Lines (generator.renderMessages p)
    ++ generator.Lines (generator.renderServices p).
Proof.
  intros p. unfold generator.generated. rewrite Lines_Concat.
  cbn [fmap list_fmap mjoin list_join]. rewrite app_nil_r.
  assert (generator.Lines (generator.renderHeader p)
          = ["syntax = " +:+ generator.quoted "proto3" +:+ ";"]) as ->.
  { unfold generator.renderHeader. subst p. by rewrite Transform_syntax. }
  assert (generator.Lines (generator.renderPackage p)
          = if decide (Proto_Package p = "") then []
            else ["package " +:+ Proto_Package p +:+ ";"]) as ->.
  { unfold generator.renderPackage. by case_decide. }
  assert (generator.Lines (generator.renderOptions p)
          = match last pkgs with
            | Some pkg =>
                ["option go_package = "
                   +:+ generator.quoted
                         (if decide (TransformOptions_GoPackage (opts t) = "")
                          then GoPackage_Path pkg
                          else TransformOptions_GoPackage (opts t)) +:+ ";"; ""]
            | None => []
            end) as ->.
  { unfold generator.renderOptions. subst p.
    rewrite Transform_options. destruct (last pkgs) as [pkg|]; [|done].
    unfold basePackage. cbn [Proto_Options]. rewrite decide_False.
    2:{ intros Hempty. apply (f_equal (fun m => m !! "go_package")) in Hempty.
        by rewrite lookup_singleton_eq in Hempty. }
    rewrite Lines_renderOptions_from, map_to_list_singleton. cbn [fmap list_fmap fst].
    change (gostrings.sort_Strings ["go_package"]) with ["go_package"].
    cbn [fmap list_fmap app]. unfold at_key. by rewrite lookup_singleton_eq. }
  reflexivity.
Qed.

(** ** Field numbers and first enum numbers, in general *)

Section field_numbers_general.
Variable t : Transformer.
Variables enumLookup typeParamsLookup : gmap string bool.

Local Abbreviation step := (transformStruct_field t enumLookup typeParamsLookup).

Local Abbreviation emittedOf fields :=
  (ct.Filter (ct.Filter fields (considered t)) (fun f => nonempty (emittedName f))).

(** One turn of the field loop, by cases on the source field. *)
Lemma transformStruct_field_emitted st f :
  if considered t f && nonempty (emittedName f)
  then exists pf imps,
         step st f = Build_FieldScan (msgFields st ++ [pf]) (scanImports st ++ imps)
                       (wrap64 (fieldNum st + 1)) /\
         ProtoField_Number pf
         = match parseProtobufTag (GoField_Tag f) with
           | Some tag => ProtoField_Number tag
           | None => fieldNum st
           end
  else step st f = st.
Proof.
  pose proof (transformField_name t enumLookup typeParamsLookup f (fieldNum st)) as Hname.
  unfold transformStruct_field, considered, nonempty.
  destruct (negb (GoField_Exported f) && negb _); cbn [negb andb]; [done|].
  destruct (GoField_Embedded f); cbn [negb andb]; [done|].
  unfold transformField in *.
  destruct (parseProtobufTag (GoField_Tag f)) as [tag|] eqn:Htag; cbn [fst] in Hname.
  - rewrite <- Hname. case_decide as Hempty.
    + by rewrite bool_decide_eq_true_2.
    + rewrite bool_decide_eq_false_2 by done. cbn [negb]. by eexists _, _.
  - cbn zeta in *. cbn [ProtoField_Name] in *. rewrite <- Hname. case_decide as Hempty.
    + by rewrite bool_decide_eq_true_2.
    + rewrite bool_decide_eq_false_2 by done. cbn [negb]. by eexists _, _.
Qed.

Lemma field_scan_numbers fields st :
  fieldNum st = Z.of_nat (length (msgFields st)) + 1 ->
  Z.of_nat (length (msgFields st)) + Z.of_nat (length fields) < 2 ^ 63 - 1 ->
  ProtoField_Number <$> msgFields (foldl step st fields)
  = (ProtoField_Number <$> msgFields st)
    ++ imap (fun k f => numberAt (length (msgFields st) + k) f) (emittedOf fields).
Proof.
  revert st. induction fields as [|f fields IH]; intros st Hnext Hlen.
  - cbn. by rewrite app_nil_r.
  - cbn [foldl ct.Filter length] in *.
    pose proof (transformStruct_field_emitted st f) as Hstep.
    destruct (considered t f) eqn:Hcons; cbn [andb ct.Filter] in *.
    + destruct (nonempty (emittedName f)) eqn:Hne.
      * destruct Hstep as (pf & imps & Hstep & Hnum). rewrite IH; rewrite Hstep;
          cbn [msgFields fieldNum]; rewrite ?length_app; cbn [length];
          [|rewrite wrap64_small by lia; lia|lia].
        rewrite fmap_app, <- app_assoc. f_equal. cbn [fmap list_fmap app imap].
        f_equal.
        -- rewrite Hnum. unfold numberAt. rewrite Nat.add_0_r.
           destruct (parseProtobufTag _); [done|]. by rewrite Hnext.
        -- apply imap_ext. intros k g _. cbn. f_equal. lia.
      * rewrite Hstep. apply IH; [done|lia].
    + rewrite Hstep. apply IH; [done|lia].
Qed.

End field_numbers_general.

(** C3 (amended): the field emitted at the position k of a message, counted
    from 1 over the emitted fields in declaration order, carries the number
    of its wire-tag annotation when it is emitted from one and the number k
    otherwise; so when no emitted field of the struct is taken from a
    wire-tag annotation, the numbers of the N emitted fields are 1, ..., N
    in declaration order, however many source fields were skipped. *)
Theorem inferred_numbers_dense (t : Transformer) (s : GoStruct)
    (enumLookup : gmap string bool) (m : ProtoMessage) :
  Z.of_nat (length (GoStruct_Fields s)) < 2 ^ 63 - 1 ->
  m ∈ Proto_Messages (transformStruct t s enumLookup) ->
  numbers m = imap numberAt (emitted t s) /\
  length (ProtoMessage_Fields m) = length (emitted t s) /\
  ((forall f, f ∈ GoStruct_Fields s -> tagOverrides t f = false) -> dense_numbers m).
Proof.
  intros Hlen Hm. unfold transformStruct in Hm.
  case_decide; [by apply elem_of_nil in Hm|].
  destruct (startsLower _); [by apply elem_of_nil in Hm|].
  cbn [Proto_Messages] in Hm. apply list_elem_of_singleton in Hm as ->.
  unfold dense_numbers, numbers. cbn [ProtoMessage_Fields].
  assert (ProtoField_Number
            <$> msgFields (foldl (transformStruct_field t enumLookup
                                    (foldl (fun lookup tp => <[tp := true]> lookup) ∅
                                           (GoStruct_TypeParams s)))
                                 (Build_FieldScan [] [] 1) (GoStruct_Fields s))
          = imap numberAt (emitted t s)) as Hnumbers.
  { rewrite field_scan_numbers; cbn; [done|done|lia]. }
  split; [done|]. split.
  - rewrite <- (length_fmap ProtoField_Number), Hnumbers. apply length_imap.
  - intros Htags. apply field_scan_dense; cbn; [done..|lia].
Qed.

Lemma inferred_numbers_dense_witness :
  exists m, Proto_Messages (transformStruct (NewTransformer DefaultOptions) account ∅) = [m]
            /\ numbers m = [5; 2].
Proof.
  eexists. split; [vm_compute; reflexivity|].
  refine (proj1 (inferred_numbers_dense (NewTransformer DefaultOptions) account ∅ _ _ _)).
  - vm_compute. reflexivity.
  - vm_compute. left.
Defined.

Section first_numbers.


End first_numbers.



(** ** The files written *)

Section files.
Variable os : main.OS.
Variable fl : main.Flags.
Variable trans : Transformer.

Local Abbreviation from := (main.generatePerPackage_from os fl trans).

(** One turn of the loop of [generatePerPackage]. *)
Lemma per_package_step written pkg rest :
  from written (pkg :: rest)
  = if hasTypes pkg && hasOutput trans pkg
    then if main.WriteFile os written (fileOf fl trans pkg)
         then from (written ++ [fileOf fl trans pkg]) rest
         else (written, Some (main.WriteFailed (fileOf fl trans pkg)))
    else from written rest.
Proof.
  unfold hasTypes, hasOutput, fileOf. cbn [main.generatePerPackage_from].
  destruct (GoPackage_Structs pkg), (GoPackage_Interfaces pkg);
    destruct (Proto_Messages (Transform trans [pkg])),
             (Proto_Services (Transform trans [pkg])),
             (Proto_Enums (Transform trans [pkg])); reflexivity.
Qed.

Lemma per_package_filter pkgs written :
  from written pkgs = from written (ct.Filter pkgs hasTypes).
Proof.
  revert written. induction pkgs as [|pkg pkgs IH]; intros written; [done|].
  cbn [ct.Filter]. rewrite per_package_step. destruct (hasTypes pkg) eqn:Htypes.
  - rewrite per_package_step, Htypes. cbn [andb].
    destruct (hasOutput trans pkg); [|apply IH].
    destruct (main.WriteFile os written _); [apply IH|done].
  - apply IH.
Qed.

Lemma per_package_writes pkgs written :
  exists more,
    (from written pkgs).1 = written ++ more /\
    (length more <= length (ct.Filter pkgs hasTypes))%nat /\
    Forall (fun w => exists pkg, pkg ∈ pkgs /\ hasTypes pkg = true /\ w = fileOf fl trans pkg)
           more /\
    ((from written pkgs).2 = None \/
     exists pkg, pkg ∈ pkgs /\ hasTypes pkg = true /\
                 (from written pkgs).2 = Some (main.WriteFailed (fileOf fl trans pkg)) /\
                 main.WriteFile os (from written pkgs).1 (fileOf fl trans pkg) = false) /\
    ((forall history w, main.WriteFile os history w = true) ->
     (from written pkgs).2 = None /\
     more = fileOf fl trans
              <$> ct.Filter pkgs (fun pkg => hasTypes pkg && hasOutput trans pkg)).
Proof.
  revert written. induction pkgs as [|pkg pkgs IH]; intros written.
  - exists []. cbn. rewrite app_nil_r. repeat split; auto.
  - rewrite per_package_step. cbn [ct.Filter].
    assert (forall more,
              Forall (fun w => exists pkg0, pkg0 ∈ pkgs /\ hasTypes pkg0 = true /\
                                            w = fileOf fl trans pkg0) more ->
              Forall (fun w => exists pkg0, pkg0 ∈ pkg :: pkgs /\ hasTypes pkg0 = true /\
                                            w = fileOf fl trans pkg0) more) as Hweaken.
    { intros more Hmore. eapply Forall_impl; [exact Hmore|].
      intros w (pkg0 & ? & ?). exists pkg0. split; [by right|done]. }
    destruct (hasTypes pkg) eqn:Htypes; cbn [andb].
    + destruct (hasOutput trans pkg) eqn:Hout.
      * destruct (main.WriteFile os written (fileOf fl trans pkg)) eqn:Hwrite.
        -- destruct (IH (written ++ [fileOf fl trans pkg]))
             as (more & Hmore & Hlen & Hshape & Herr & Hok).
           exists (fileOf fl trans pkg :: more). rewrite Hmore, <- app_assoc.
           split; [done|]. split; [cbn [length]; lia|]. split; [|split].
           ++ constructor; [|by apply Hweaken]. exists pkg. split; [left|done].
           ++ destruct Herr as [?|(pkg0 & ? & ? & ? & ?)]; [by left|right].
              exists pkg0. split; [by right|]. split; [done|]. split; [done|].
              by rewrite Hmore, <- app_assoc in *.
           ++ intros Hall. destruct (Hok Hall) as [? ->]. by split.
        -- exists []. cbn [fst snd length]. rewrite app_nil_r. split; [done|].
           split; [lia|]. split; [constructor|]. split.
           ++ right. exists pkg. split; [left|done].
           ++ intros Hall. by rewrite Hall in Hwrite.
      * destruct (IH written) as (more & Hmore & Hlen & Hshape & Herr & Hok).
        exists more. split; [done|]. split; [cbn [length]; lia|]. split; [by apply Hweaken|].
        split; [|done].
        destruct Herr as [?|(pkg0 & ? & ?)]; [by left|right]. exists pkg0.
        split; [by right|done].
    + destruct (IH written) as (more & Hmore & Hlen & Hshape & Herr & Hok).
      exists more. split; [done|]. split; [done|]. split; [by apply Hweaken|].
      split; [|done].
      destruct Herr as [?|(pkg0 & ? & ?)]; [by left|right]. exists pkg0.
      split; [by right|done].
Qed.

End files.

(** X28: without [-one-file], packages that declare neither a struct nor an
    interface are passed over, whatever constants they declare: the outcome
    is that for the other packages alone.  Every file written goes to the
    output directory, bears the name of a package that declares a struct or
    an interface, and holds the text generated for that package alone; the
    run ends without an error or with the failed write of such a file, and
    when no write fails it writes, in order, the files of the packages that
    declare a type and have a message, a service or an enum. *)
Theorem per_package_files (os : main.OS) (fl : main.Flags) (pkgs : list GoPackage)
    (trans : Transformer) :
  let outcome := main.generatePerPackage os fl pkgs trans in
  outcome = main.generatePerPackage os fl (ct.Filter pkgs hasTypes) trans /\
  (length outcome.1 <= length (ct.Filter pkgs hasTypes))%nat /\
  Forall (fun w =>
            main.Written_Dir w = main.outDir fl /\
            exists pkg, pkg ∈ pkgs /\ hasTypes pkg = true /\
                        main.Written_Name w = GoPackage_Name pkg +:+ ".proto" /\
                        main.Written_Content w = generator.Generate (Transform trans [pkg]))
         outcome.1 /\
  (outcome.2 = None \/
   exists pkg, pkg ∈ pkgs /\ hasTypes pkg = true /\
               outcome.2 = Some (main.WriteFailed (fileOf fl trans pkg)) /\
               main.WriteFile os outcome.1 (fileOf fl trans pkg) = false) /\
  ((forall history w, main.WriteFile os history w = true) ->
   outcome = (fileOf fl trans
                <$> ct.Filter pkgs (fun pkg => hasTypes pkg && hasOutput trans pkg),
              None)).
Proof.
  intros outcome. subst outcome. unfold main.generatePerPackage.
  split; [apply per_package_filter|].
  destruct (per_package_writes os fl trans pkgs []) as (more & Hmore & Hlen & Hshape & Herr & Hok).
  cbn [app] in Hmore. split; [by rewrite Hmore|]. split; [|split; [done|]].
  - rewrite Hmore. eapply Forall_impl; [exact Hshape|]. intros w (pkg & ? & ? & ->).
    split; [done|]. by exists pkg.
  - intros Hall. destruct (Hok Hall) as [Herr' <-]. rewrite <- Hmore, <- Herr'.
    by destruct (main.generatePerPackage_from _ _ _ _ _).
Qed.

Section single_file.

Lemma Coalesce_cases {A : Type} `{!EqDecision A} (zero : A) (values : list A) :
  ct.Coalesce zero values = zero \/ ct.Coalesce zero values ∈ values.
Proof.
  induction values as [|v values IH]; [by left|]. cbn [ct.Coalesce].
  case_decide; [|right; left]. destruct IH as [?|?]; [by left|right; by right].
Qed.

Lemma toProtoPackage_no_slash path : contains "/" (toProtoPackage path) = false.
Proof.
  destruct (toProtoPackage_parts path) as (parts & -> & [pre Hsplit] & _).
  apply ReplaceAll_clean; [done|]. apply Join_clean; [|done].
  pose proof (Split_parts path "/") as Hparts. rewrite Hsplit in Hparts.
  by apply Forall_app in Hparts as [_ ?].
Qed.

End single_file.

(** X29: with [-one-file] and neither [-filename] nor [-package], [run]
    attempts one write at most, into the output directory itself: the name
    of the file is a stem without a slash or a dot, followed by [.proto],
    and its content is the text generated for all the packages together.
    The file is written when a package is given, the directory can be made
    and the write succeeds; otherwise nothing is written and [run] returns
    the error of the first of these that fails. *)
Theorem single_file_name (os : main.OS) (fl : main.Flags) (pkgs : list GoPackage) :
  main.oneFile fl = true -> main.fileName fl = "" -> main.protoPackage fl = "" ->
  exists stem trans,
    opts trans
    = Build_TransformOptions "" (main.goPackage fl) defaultTypeMappings
        (main.includePrivate fl) "Service" /\
    contains "/" stem = false /\ contains "." stem = false /\
    let file :=
      main.Build_Written (main.outDir fl) (stem +:+ ".proto")
        (generator.Generate (Transform trans pkgs)) in
    main.run os fl pkgs
    = match pkgs with
      | [] => ([], Some main.NoPackagesFound)
      | _ =>
          if negb (main.MkdirAll os (main.outDir fl))
          then ([], Some (main.MkdirFailed (main.outDir fl)))
          else if main.WriteFile os [] file then ([file], None)
               else ([], Some (main.WriteFailed file))
      end.
Proof.
  intros Hone Hname Hpackage. unfold main.run. rewrite Hone, Hpackage.
  set (trans := NewTransformer _).
  assert (exists stem,
            contains "/" stem = false /\ contains "." stem = false /\
            main.generateSingleFile os fl pkgs trans
            = let file := main.Build_Written (main.outDir fl) (stem +:+ ".proto")
                            (generator.Generate (Transform trans pkgs)) in
              if main.WriteFile os [] file then ([file], None)
              else ([], Some (main.WriteFailed file))) as (stem & Hslash & Hdot & Hsingle).
  { unfold main.generateSingleFile. rewrite Hname, decide_True by done.
    destruct (bool_decide (Proto_Package (Transform trans pkgs) = "")) eqn:Hempty;
      cbn [negb].
    - by exists "generated".
    - exists (gostrings.ReplaceAll (Proto_Package (Transform trans pkgs)) "." "_").
      split; [|split; [by apply ReplaceAll_gone|done]].
      apply ReplaceAll_clean; [done|]. rewrite Transform_package.
      destruct (Coalesce_cases "" ((fun pkg => Proto_Package (basePackage trans pkg))
                                     <$> pkgs)) as [->|Hin]; [done|].
      apply list_elem_of_fmap in Hin as (pkg' & -> & _).
      unfold basePackage. cbn [Proto_Package]. rewrite decide_True by done.
      apply toProtoPackage_no_slash. }
  exists stem, trans. split; [done|]. split; [done|]. split; [done|].
  cbn zeta in *. rewrite Hsingle. by destruct pkgs.
Qed.

Lemma single_file_name_witness :
  exists stem trans,
    contains "/" stem = false /\
    main.run (main.Build_OS (fun _ => true) (fun _ _ => true))
      (main.Build_Flags "out" "" "" false true "") [models]
    = ([main.Build_Written "out" (stem +:+ ".proto")
          (generator.Generate (Transform trans [models]))], None).
Proof.
  destruct (single_file_name (main.Build_OS (fun _ => true) (fun _ _ => true))
              (main.Build_Flags "out" "" "" false true "") [models]
              eq_refl eq_refl eq_refl) as (stem & trans & _ & Hslash & _ & Hrun).
  exists stem, trans. split; [exact Hslash|exact Hrun].
Defined.
